(** * GlassiX-Mini: the session and event-dispatch core of [src/pair.js]

    A shallow embedding of the parts of [src/pair.js] that the
    specification talks about, followed by the properties proved about them.

    Conventions of the embedding.
    - JavaScript strings are [string]s; the character classes [\d] and [\s]
      and the case conversions are the ASCII ones (bytes above 127 are
      ordinary characters that are neither digits, spaces nor letters).
    - JavaScript numbers that hold integers are [Z]; [NaN] is [None] where a
      builtin can return it.
    - A [Map] is an insertion-ordered association list ([JsMap]); a plain
      object is an insertion-ordered list of own properties ([JsObject]).
    - Calls to the outside world (socket, remote archive, clock, random
      numbers) take their outcome as an argument; an [async] handler is run
      to completion before the next event is delivered. *)

From Stdlib Require Import List String Ascii ZArith Lia Bool Permutation Sorted.
From Stdlib Require Import DecimalString.
Import ListNotations.

Local Open Scope string_scope.
Local Open Scope list_scope.

(* ================================================================== *)
(** * Part I: the program *)
(* ================================================================== *)

(** ** JavaScript string builtins used by [pair.js] *)

Module JsString.

Definition is_digit (c : ascii) : bool :=
  let n := nat_of_ascii c in (48 <=? n)%nat && (n <=? 57)%nat.

(** [\s] and the white space removed by [trim], restricted to ASCII:
    TAB, LF, VT, FF, CR and SPACE. *)
Definition is_space (c : ascii) : bool :=
  let n := nat_of_ascii c in (n =? 32)%nat || ((9 <=? n)%nat && (n <=? 13)%nat).

Fixpoint filter (p : ascii -> bool) (s : string) : string :=
  match s with
  | EmptyString => EmptyString
  | String c r => if p c then String c (filter p r) else filter p r
  end.

Fixpoint map (f : ascii -> ascii) (s : string) : string :=
  match s with
  | EmptyString => EmptyString
  | String c r => String (f c) (map f r)
  end.

Fixpoint forallb (p : ascii -> bool) (s : string) : bool :=
  match s with
  | EmptyString => true
  | String c r => p c && forallb p r
  end.

Definition rev (s : string) : string :=
  string_of_list_ascii (List.rev (list_ascii_of_string s)).

(** [s.slice(n)] for [0 <= n]. *)
Fixpoint slice (n : nat) (s : string) : string :=
  match n, s with
  | O, _ => s
  | S k, String _ r => slice k r
  | S _, EmptyString => EmptyString
  end.

(** [s.startsWith(p)] *)
Definition startsWith (s p : string) : bool := String.prefix p s.

(** [s.endsWith(p)] *)
Definition endsWith (s p : string) : bool := String.prefix (rev p) (rev s).

Fixpoint trimStart (s : string) : string :=
  match s with
  | EmptyString => EmptyString
  | String c r => if is_space c then trimStart r else s
  end.

Definition trimEnd (s : string) : string := rev (trimStart (rev s)).

(** [s.trim()] *)
Definition trim (s : string) : string := trimEnd (trimStart s).

Definition lower (c : ascii) : ascii :=
  let n := nat_of_ascii c in
  if (65 <=? n)%nat && (n <=? 90)%nat then ascii_of_nat (n + 32) else c.

Definition upper (c : ascii) : ascii :=
  let n := nat_of_ascii c in
  if (97 <=? n)%nat && (n <=? 122)%nat then ascii_of_nat (n - 32) else c.

Definition toLowerCase (s : string) : string := map lower s.
Definition toUpperCase (s : string) : string := map upper s.

Definition not_space (c : ascii) : bool := negb (is_space c).

(** [s.split(/\s+/)]: [acc] is the token being read, [in_ws] tells that the
    previous character belonged to a separator. *)
Fixpoint split_ws_go (in_ws : bool) (acc : string) (s : string) : list string :=
  match s with
  | EmptyString => [acc]
  | String c r =>
      if is_space c then
        if in_ws then split_ws_go true acc r
        else acc :: split_ws_go true EmptyString r
      else split_ws_go false (acc ++ String c EmptyString) r
  end.

Definition split_ws (s : string) : list string := split_ws_go false EmptyString s.

(** [s.split(sep)] for a separator of one character. *)
Fixpoint split_char_go (sep : ascii) (acc : string) (s : string) : list string :=
  match s with
  | EmptyString => [acc]
  | String c r =>
      if Ascii.eqb c sep then acc :: split_char_go sep EmptyString r
      else split_char_go sep (acc ++ String c EmptyString) r
  end.

Definition split_char (sep : ascii) (s : string) : list string :=
  split_char_go sep EmptyString s.

(** [l.join(sep)] on an array of strings. *)
Fixpoint join (sep : string) (l : list string) : string :=
  match l with
  | [] => EmptyString
  | [x] => x
  | x :: r => x ++ sep ++ join sep r
  end.

(** Truthiness of a possibly absent string: [undefined] and [''] are falsy. *)
Definition truthy (o : option string) : bool :=
  match o with
  | Some s => negb (String.eqb s EmptyString)
  | None => false
  end.

(** Value of a string of decimal digits, most significant first. *)
Definition digit_val (c : ascii) : Z := (Z.of_nat (nat_of_ascii c) - 48)%Z.

Fixpoint parse_digits (acc : Z) (s : string) : Z :=
  match s with
  | EmptyString => acc
  | String c r => parse_digits (10 * acc + digit_val c)%Z r
  end.

End JsString.

(** ** [Map]: an insertion-ordered association list *)

Module JsMap.

Section Ops.
Context {V : Type}.

Definition t := list (string * V).

Definition empty : t := [].

(** [m.get(k)] *)
Fixpoint get (m : t) (k : string) : option V :=
  match m with
  | [] => None
  | (k', v) :: r => if String.eqb k' k then Some v else get r k
  end.

(** [m.has(k)] *)
Definition has (m : t) (k : string) : bool :=
  match get m k with Some _ => true | None => false end.

(** [m.set(k, v)]: an existing key keeps its position, a new one goes last. *)
Fixpoint set (m : t) (k : string) (v : V) : t :=
  match m with
  | [] => [(k, v)]
  | (k', v') :: r =>
      if String.eqb k' k then (k', v) :: r else (k', v') :: set r k v
  end.

(** [m.delete(k)] *)
Fixpoint delete (m : t) (k : string) : t :=
  match m with
  | [] => []
  | (k', v') :: r =>
      if String.eqb k' k then delete r k else (k', v') :: delete r k
  end.

(** [m.size] *)
Definition size (m : t) : nat := List.length m.

(** Number of entries stored under [k]. *)
Definition entries_for (m : t) (k : string) : nat :=
  List.length (List.filter (fun e => String.eqb (fst e) k) m).

(** The keys, in insertion order. *)
Definition keys (m : t) : list string := List.map fst m.

End Ops.

Arguments t : clear implicits.

End JsMap.

(** ** [cleanDuplicateFiles] (lines 90-125) *)

Module Archive.

Import JsString.

Local Open Scope Z_scope.

(** An entry of the directory listing returned by [octokit.repos.getContent]:
    the two fields the function reads. *)
Record file := mkFile { name : string; sha : string }.

(** [number.replace(/[^0-9]/g, '')] *)
Definition sanitize (number : string) : string := JsString.filter is_digit number.

(** Longest prefix of digits, and what follows it. *)
Fixpoint span_digits (s : string) : string * string :=
  match s with
  | EmptyString => (EmptyString, EmptyString)
  | String c r =>
      if is_digit c then
        let (d, rest) := span_digits r in (String c d, rest)
      else (EmptyString, s)
  end.

Definition strip_prefix (p s : string) : option string :=
  if String.prefix p s then Some (slice (String.length p) s) else None.

(** One attempt of [/creds_\d+_(\d+)\.json/] at the start of [s]; the result
    is capture group 1.  Each [\d+] is greedy, and giving back digits never
    helps, since the character wanted next ([_], then [.]) is not a digit. *)
Definition match_creds_here (s : string) : option string :=
  match strip_prefix "creds_" s with
  | None => None
  | Some s1 =>
      let (d1, r1) := span_digits s1 in
      if String.eqb d1 EmptyString then None
      else
        match strip_prefix "_" r1 with
        | None => None
        | Some s2 =>
            let (d2, r2) := span_digits s2 in
            if String.eqb d2 EmptyString then None
            else if String.prefix ".json" r2 then Some d2 else None
        end
  end.

(** [s.match(/creds_\d+_(\d+)\.json/)?.[1]]: the leftmost match wins. *)
Fixpoint match_creds (s : string) : option string :=
  match match_creds_here s with
  | Some d => Some d
  | None =>
      match s with
      | EmptyString => None
      | String _ r => match_creds r
      end
  end.

(** [parseInt(x.name.match(...)?.[1] || 0)].  The capture is a non-empty
    string of digits, so [parseInt] reads all of it; JavaScript holds the
    result in a double, which is this integer as long as it is at most
    [2^53] (see [exact_times]). *)
Definition embedded_time (f : file) : Z :=
  match match_creds (name f) with
  | Some d => parse_digits 0 d
  | None => 0
  end.

Definition exact_times (data : list file) : Prop :=
  Forall (fun f => embedded_time f <= 2 ^ 53) data.

(** The predicate of [data.filter] (line 102). *)
Definition is_session_file (sanitizedNumber : string) (f : file) : bool :=
  startsWith (name f) ("creds_" ++ sanitizedNumber ++ "_")
  && endsWith (name f) ".json".

(** [.sort((a, b) => timeB - timeA)]: [Array.prototype.sort] is stable, so
    the result is the stable arrangement by decreasing time.  [a] comes
    from before [l] in the array, hence goes in front of entries of the
    same time. *)
Fixpoint insert_newest (a : file) (l : list file) : list file :=
  match l with
  | [] => [a]
  | b :: r =>
      if embedded_time b <=? embedded_time a then a :: b :: r
      else b :: insert_newest a r
  end.

Definition sort_newest_first (l : list file) : list file :=
  fold_right insert_newest [] l.

(** Every entry is at least as new as the ones after it. *)
Definition newest_first (l : list file) : Prop :=
  StronglySorted (fun a b => embedded_time b <= embedded_time a) l.

(** The [for] loop of lines 111-120 over [sessionFiles[1..]]: [deleteFile f]
    tells whether the request for [f] succeeds; a failing request throws,
    which leaves the loop for the [catch] of line 122.  The result is the
    list of files deleted. *)
Fixpoint delete_each (deleteFile : file -> bool) (l : list file) : list file :=
  match l with
  | [] => []
  | f :: r => if deleteFile f then f :: delete_each deleteFile r else []
  end.

(** [cleanDuplicateFiles(number)].  [octokit] tells whether the client was
    created (line 36); [getContent] is the listing of [session/], [None]
    when the request throws.  Returns the files deleted, in order. *)
Definition cleanDuplicateFiles (octokit : bool) (getContent : option (list file))
    (deleteFile : file -> bool) (number : string) : list file :=
  if negb octokit then []
  else
    let sanitizedNumber := sanitize number in
    match getContent with
    | None => []
    | Some data =>
        let sessionFiles :=
          sort_newest_first (List.filter (is_session_file sanitizedNumber) data) in
        if (1 <? List.length sessionFiles)%nat
        then delete_each deleteFile (List.tl sessionFiles)
        else []
    end.

(** The naming convention of the specification, [creds_<number>_<timestamp>.json]:
    the timestamp of a name that follows it for [number]. *)
Definition convention_time (number : string) (nm : string) : option Z :=
  match strip_prefix ("creds_" ++ number ++ "_") nm with
  | None => None
  | Some r =>
      let (d, rest) := span_digits r in
      if negb (String.eqb d EmptyString) && String.eqb rest ".json"
      then Some (parse_digits 0 d) else None
  end.

(** The cleanup policy in the words of the specification: the files deleted
    are exactly those that follow the convention and do not carry the
    maximal timestamp among the files that follow it. *)
Definition deletes_all_but_maximum (number : string) (data deleted : list file) : Prop :=
  forall f, In f data ->
    (In f deleted <->
     exists t, convention_time number (name f) = Some t /\
       exists g t', In g data /\ convention_time number (name g) = Some t' /\ t < t').

Definition creds_555_100 := mkFile "creds_555_100.json" "sha-a".
Definition creds_555_50 := mkFile "creds_555_50.json" "sha-b".
Definition creds_555_200 := mkFile "creds_555_200.json" "sha-c".
Definition creds_555_0200 := mkFile "creds_555_0200.json" "sha-d".
Definition creds_555_old := mkFile "creds_555_old.json" "sha-e".

End Archive.

(** ** Configuration values and plain objects *)

Module JsObject.

Import JsString.

Local Open Scope Z_scope.

(** The values a configuration object holds: strings, integers (such as
    [MAX_RETRIES: 3]) and arrays of strings ([AUTO_LIKE_EMOJI]). *)
Inductive value :=
| VStr (s : string)
| VNum (n : Z)
| VArr (l : list string).

(** An object: its own properties in creation order. *)
Definition t := JsMap.t value.

(** [o[k]], [undefined] being [None]. *)
Definition get (o : t) (k : string) : option value := JsMap.get o k.

(** [o[k] = v] *)
Definition set (o : t) (k : string) (v : value) : t := JsMap.set o k v.

(** [String(v)], as applied by template literals, [parseInt] and
    [startsWith]. *)
Definition toString (v : value) : string :=
  match v with
  | VStr s => s
  | VNum n => NilZero.string_of_int (Z.to_int n)
  | VArr l => join "," l
  end.

(** Truthiness of [o[k]]. *)
Definition truthy (v : option value) : bool :=
  match v with
  | None => false
  | Some (VStr s) => negb (String.eqb s EmptyString)
  | Some (VNum n) => negb (n =? 0)
  | Some (VArr _) => true
  end.

(** [o[k] === s] for a string [s]. *)
Definition is_string (v : option value) (s : string) : bool :=
  match v with
  | Some (VStr s') => String.eqb s' s
  | _ => false
  end.

Definition dec_val (c : ascii) : option Z :=
  if is_digit c then Some (digit_val c) else None.

Definition hex_val (c : ascii) : option Z :=
  let n := nat_of_ascii c in
  if is_digit c then Some (digit_val c)
  else if (97 <=? n)%nat && (n <=? 102)%nat then Some (Z.of_nat n - 87)
  else if (65 <=? n)%nat && (n <=? 70)%nat then Some (Z.of_nat n - 55)
  else None.

(** Reads digits while there are some; [acc] is [None] until the first. *)
Fixpoint parse_radix (radix : Z) (digit : ascii -> option Z) (acc : option Z)
    (s : string) : option Z :=
  match s with
  | EmptyString => acc
  | String c r =>
      match digit c with
      | Some d =>
          parse_radix radix digit
            (Some (radix * match acc with Some a => a | None => 0 end + d)) r
      | None => acc
      end
  end.

(** [parseInt(s)] without a radix: leading white space, a sign, [0x] for
    base sixteen, then the longest run of digits; [None] is [NaN]. *)
Definition parseInt_string (s : string) : option Z :=
  let s1 := trimStart s in
  let '(neg, s2) :=
    match s1 with
    | String "-"%char r => (true, r)
    | String "+"%char r => (false, r)
    | _ => (false, s1)
    end in
  let mag :=
    if String.prefix "0x" s2 || String.prefix "0X" s2
    then parse_radix 16 hex_val None (slice 2 s2)
    else parse_radix 10 dec_val None s2 in
  match mag with
  | Some n => Some (if neg then - n else n)
  | None => None
  end.

(** [parseInt(o[k])]; [parseInt(undefined)] is [NaN]. *)
Definition parseInt (v : option value) : option Z :=
  match v with
  | Some v => parseInt_string (toString v)
  | None => None
  end.

(** A key that is an array index ([0] to [2^32 - 2] in canonical decimal
    form): such keys are enumerated first, in increasing order. *)
Definition array_index (k : string) : option Z :=
  match k with
  | EmptyString => None
  | String c r =>
      if JsString.forallb is_digit k
         && (negb (Ascii.eqb c "0"%char) || String.eqb r EmptyString)
      then
        let n := parse_digits 0 k in
        if n <? 2 ^ 32 - 1 then Some n else None
      else None
  end.

Fixpoint insert_index (e : Z * (string * value)) (l : list (Z * (string * value)))
    : list (Z * (string * value)) :=
  match l with
  | [] => [e]
  | e' :: r => if fst e <=? fst e' then e :: e' :: r else e' :: insert_index e r
  end.

Definition indexed (o : t) : list (Z * (string * value)) :=
  flat_map (fun e => match array_index (fst e) with
                     | Some i => [(i, e)]
                     | None => []
                     end) o.

Definition named (o : t) : list (string * value) :=
  List.filter (fun e => match array_index (fst e) with
                        | Some _ => false
                        | None => true
                        end) o.

(** [Object.entries(o)] *)
Definition entries (o : t) : list (string * value) :=
  List.map snd (fold_right insert_index [] (indexed o)) ++ named o.

End JsObject.

(** ** [defaultConfig] (lines 22-32) *)

Module Config.

Import JsObject.

Definition default_emojis : list string :=
  ["💥"; "👍"; "😍"; "💗"; "🎈"; "🎉"; "🥳"; "😎"; "🚀"; "🔥"].

Definition defaultConfig : JsObject.t :=
  [ ("AUTO_VIEW_STATUS", VStr "true");
    ("AUTO_LIKE_STATUS", VStr "true");
    ("AUTO_RECORDING", VStr "true");
    ("AUTO_LIKE_EMOJI", VArr default_emojis);
    ("PREFIX", VStr ".");
    ("MAX_RETRIES", VNum 3);
    ("ADMIN_LIST_PATH", VStr "./admin.json");
    ("IMAGE_PATH", VStr "./dyby.png");
    ("OWNER_NUMBER", VStr "") ].

End Config.

(** ** Messages delivered by [messages.upsert] *)

Module WAMessage.

(** [message.key]; the library always sets [remoteJid]. *)
Record key := mkKey {
  remoteJid : string;
  participant : option string
}.

Record extendedTextMessage := mkExtended { text : option string }.
Record buttonsResponseMessage := mkButtons { selectedButtonId : option string }.
Record mediaMessage := mkMedia { caption : option string }.

(** [msg.message] *)
Record content := mkContent {
  conversation : option string;
  extendedText : option extendedTextMessage;
  buttonsResponse : option buttonsResponseMessage;
  imageMessage : option mediaMessage;
  videoMessage : option mediaMessage
}.

Record t := mkMsg {
  mkey : option key;
  message : option content
}.

Definition no_content : content := mkContent None None None None None.

End WAMessage.

(** ** The active-session map (lines 45-46) *)

Module Sessions.

(** Modelled from the spec: the connection object of a session is opaque
    (section 3, [socketHandle]); [pair.js] as given stops before the code
    that creates one. *)
Definition socket := nat.

(** Modelled from the spec: the two module-level maps of lines 45-46,
    [activeSockets] and [socketCreationTime], both keyed by phone number;
    the code that writes them is not in [src/pair.js]. *)
Record state := mkState {
  activeSockets : JsMap.t socket;
  socketCreationTime : JsMap.t Z
}.

Definition initial : state := mkState JsMap.empty JsMap.empty.

(** Modelled from the spec: the failures of [startSession] in section 4.1,
    which is not in [src/pair.js]. *)
Inductive error := AuthExpired | AlreadyActive.

(** Modelled from the spec: [startSession] (section 4.1), which is not in
    [src/pair.js].  It fails with [AlreadyActive] if a live session exists
    and reuse is not requested, and reuses the live session if it is; it
    fails with [AuthExpired] if the credentials could not be retrieved
    ([creds_ok = false]); on success it registers the session in the active
    map and records the creation time. *)
Definition startSession (number : string) (reuse creds_ok : bool)
    (handle : socket) (now : Z) (st : state) : state * option error :=
  if JsMap.has (activeSockets st) number then
    if reuse then (st, None) else (st, Some AlreadyActive)
  else if negb creds_ok then (st, Some AuthExpired)
  else (mkState (JsMap.set (activeSockets st) number handle)
                (JsMap.set (socketCreationTime st) number now), None).

(** Modelled from the spec: [stopSession] (section 4.1), which is not in
    [src/pair.js]: idempotent, removes the number from the active map, a
    no-op if absent. *)
Definition stopSession (number : string) (st : state) : state :=
  mkState (JsMap.delete (activeSockets st) number)
          (JsMap.delete (socketCreationTime st) number).

(** Modelled from the spec: the reconnect policy of section 4.1, which is
    not in [src/pair.js]: after an unexpected disconnect the session either
    reconnects within the retry budget and stays registered, or fails for
    good and its entry is removed. *)
Definition handleDisconnect (number : string) (reconnected : bool) (st : state)
    : state :=
  if reconnected then st else stopSession number st.

(** Modelled from the spec: the operations that touch the active map. *)
Inductive op :=
| Start (number : string) (reuse creds_ok : bool) (handle : socket) (now : Z)
| Stop (number : string)
| Disconnect (number : string) (reconnected : bool).

(** Modelled from the spec: one operation on the single event loop
    (section 5). *)
Definition step (st : state) (o : op) : state :=
  match o with
  | Start number reuse creds_ok handle now =>
      fst (startSession number reuse creds_ok handle now st)
  | Stop number => stopSession number st
  | Disconnect number reconnected => handleDisconnect number reconnected st
  end.

(** Modelled from the spec: a history of operations from the empty maps. *)
Definition run (ops : list op) : state := fold_left step ops initial.

(** Modelled from the spec: the invariant of section 3, no two entries of
    the active map carry the same number. *)
Definition one_entry_per_number (st : state) : Prop :=
  NoDup (JsMap.keys (activeSockets st)).

End Sessions.

(** ** [setupStatusHandlers] (lines 195-256) *)

Module Status.

Import JsString JsObject WAMessage.

Local Open Scope Z_scope.

Definition STATUS_INTERACTION_COOLDOWN : Z := 10000.

(** What the handler does to the outside world, in order; [ok] tells whether
    the awaited call resolved. *)
Inductive effect :=
| SendPresenceUpdate (ok : bool)
| ReadMessages (ok : bool)
| SendReaction (emoji : option string) (ok : bool)
| Delay (ms : Z)
| LogError.

(** How a block of statements ends: normally, or by a [throw]. *)
Inductive completion := Done | Thrown.

(** The outcomes of the socket calls to come, in order; a call beyond the
    list resolves. *)
Definition next (w : list bool) : bool * list bool :=
  match w with
  | [] => (true, [])
  | b :: r => (b, r)
  end.

(** [parseInt(userConfig.MAX_RETRIES) || 3] *)
Definition initial_retries (parsed : option Z) : Z :=
  match parsed with
  | Some n => if n =? 0 then 3 else n
  | None => 3
  end.

(** [1000 * (parseInt(userConfig.MAX_RETRIES) || 3 - retries)]: [-] binds
    tighter than [||]. *)
Definition backoff (parsed : option Z) (retries : Z) : Z :=
  1000 * match parsed with
         | Some n => if n =? 0 then 3 - retries else n
         | None => 3 - retries
         end.

(** The [while (retries > 0)] loop of lines 216-226.  [retries] is the
    counter at the loop test; [S r] is a positive counter and [r] the
    counter after [retries--]. *)
Fixpoint read_retry (parsed : option Z) (retries : nat) (w : list bool)
    : completion * list effect * list bool :=
  match retries with
  | O => (Done, [], w)
  | S r =>
      let (ok, w1) := next w in
      if ok then (Done, [ReadMessages true], w1)
      else
        match r with
        | O => (Thrown, [ReadMessages false], w1)
        | S _ =>
            let '(c, tr, w2) := read_retry parsed r w1 in
            (c, ReadMessages false :: Delay (backoff parsed (Z.of_nat r)) :: tr, w2)
        end
  end.

(** The [while (retries > 0)] loop of lines 234-250; a reaction that is sent
    sets [lastStatusInteraction = now]. *)
Fixpoint react_retry (parsed : option Z) (emoji : option string) (now : Z)
    (retries : nat) (last : Z) (w : list bool)
    : completion * Z * list effect * list bool :=
  match retries with
  | O => (Done, last, [], w)
  | S r =>
      let (ok, w1) := next w in
      if ok then (Done, now, [SendReaction emoji true], w1)
      else
        match r with
        | O => (Thrown, last, [SendReaction emoji false], w1)
        | S _ =>
            let '(c, last', tr, w2) := react_retry parsed emoji now r last w1 in
            (c, last',
             SendReaction emoji false :: Delay (backoff parsed (Z.of_nat r)) :: tr,
             w2)
        end
  end.

(** The guard of line 201: the key of a status message to act on. *)
Definition status_key (m : option WAMessage.t) : option key :=
  match m with
  | None => None
  | Some msg =>
      match mkey msg with
      | None => None
      | Some k =>
          if String.eqb (remoteJid k) "status@broadcast"
             && JsString.truthy (participant k)
          then Some k else None
      end
  end.

(** [emojis[Math.floor(Math.random() * emojis.length)]]; [rnd] stands for
    the random draw. *)
Definition pick_emoji (userConfig : JsObject.t) (rnd : nat) : option string :=
  let emojis :=
    match get userConfig "AUTO_LIKE_EMOJI" with
    | Some (VArr l) => l
    | _ => Config.default_emojis
    end in
  nth_error emojis (rnd mod List.length emojis).

(** The listener of lines 199-255 on one event: [last] is
    [lastStatusInteraction], [now] is [Date.now()], [m] is [messages[0]].
    Returns the new [lastStatusInteraction], the outcomes left and the
    effects. *)
Definition statusHandler (userConfig : JsObject.t) (rnd : nat) (now : Z)
    (m : option WAMessage.t) (last : Z) (w : list bool)
    : Z * list bool * list effect :=
  match status_key m with
  | None => (last, w, [])
  | Some k =>
      if now - last <? STATUS_INTERACTION_COOLDOWN then (last, w, [])
      else
        let parsed := parseInt (get userConfig "MAX_RETRIES") in
        let '(c1, t1, w1) :=
          if is_string (get userConfig "AUTO_RECORDING") "true"
             && negb (String.eqb (remoteJid k) EmptyString)
          then
            let (ok, w') := next w in
            (if ok then Done else Thrown, [SendPresenceUpdate ok], w')
          else (Done, [], w) in
        match c1 with
        | Thrown => (last, w1, t1 ++ [LogError])
        | Done =>
            let '(c2, t2, w2) :=
              if is_string (get userConfig "AUTO_VIEW_STATUS") "true"
              then read_retry parsed (Z.to_nat (initial_retries parsed)) w1
              else (Done, [], w1) in
            match c2 with
            | Thrown => (last, w2, t1 ++ t2 ++ [LogError])
            | Done =>
                if is_string (get userConfig "AUTO_LIKE_STATUS") "true" then
                  let randomEmoji := pick_emoji userConfig rnd in
                  let '(c3, last3, t3, w3) :=
                    react_retry parsed randomEmoji now
                      (Z.to_nat (initial_retries parsed)) last w2 in
                  (last3, w3,
                   t1 ++ t2 ++ t3
                   ++ match c3 with Thrown => [LogError] | Done => [] end)
                else (last, w2, t1 ++ t2)
            end
        end
  end.

(** One delivery of [messages.upsert]. *)
Record event := mkEvent {
  ev_now : Z;
  ev_rnd : nat;
  ev_msg : option WAMessage.t
}.

(** The listener on a sequence of events, each handled to the end before the
    next one arrives. *)
Fixpoint run (userConfig : JsObject.t) (events : list event) (last : Z)
    (w : list bool) : Z * list bool * list effect :=
  match events with
  | [] => (last, w, [])
  | e :: r =>
      let '(last1, w1, t1) :=
        statusHandler userConfig (ev_rnd e) (ev_now e) (ev_msg e) last w in
      let '(last2, w2, t2) := run userConfig r last1 w1 in
      (last2, w2, t1 ++ t2)
  end.

(** Outcomes of the attempts of each action, and the delays, in a trace. *)
Definition presence_outcomes (tr : list effect) : list bool :=
  flat_map (fun e => match e with SendPresenceUpdate ok => [ok] | _ => [] end) tr.

Definition read_outcomes (tr : list effect) : list bool :=
  flat_map (fun e => match e with ReadMessages ok => [ok] | _ => [] end) tr.

Definition react_outcomes (tr : list effect) : list bool :=
  flat_map (fun e => match e with SendReaction _ ok => [ok] | _ => [] end) tr.

Definition delays (tr : list effect) : list Z :=
  flat_map (fun e => match e with Delay ms => [ms] | _ => [] end) tr.

(** The attempts of one action, with a delay before every attempt but the
    first. *)
Definition attempts_with_delays (attempt : bool -> effect) (outs : list bool)
    (ds : list Z) : list effect :=
  match outs with
  | [] => []
  | o :: rest =>
      attempt o
      :: flat_map (fun dr => [Delay (fst dr); attempt (snd dr)]) (combine ds rest)
  end.

(** The retry policy in the words of the specification.  An action is
    retried up to [maxRetries] attempts: its attempts stop at the first
    success or after [maxRetries] failures. *)
Fixpoint retried_up_to (maxRetries : nat) (outs : list bool) : bool :=
  match maxRetries, outs with
  | O, [] => true
  | S _, [true] => true
  | S m, false :: r => retried_up_to m r
  | _, _ => false
  end.

(** The delay after a failed attempt is 1000 ms times the attempts
    remaining: [remaining] attempts are left after the first failure, and
    [n] delays are taken. *)
Fixpoint linear_delays (remaining : Z) (n : nat) : list Z :=
  match n with
  | O => []
  | S k => 1000 * remaining :: linear_delays (remaining - 1) k
  end.

(** Each of the three actions follows the retry policy on its own, with
    linear delays between its attempts. *)
Definition retries_as_specified (maxRetries : nat) (tr : list effect) : Prop :=
  retried_up_to maxRetries (presence_outcomes tr) = true /\
  retried_up_to maxRetries (read_outcomes tr) = true /\
  retried_up_to maxRetries (react_outcomes tr) = true /\
  delays tr =
    linear_delays (Z.of_nat maxRetries - 1) (List.length (presence_outcomes tr) - 1)
    ++ linear_delays (Z.of_nat maxRetries - 1) (List.length (read_outcomes tr) - 1)
    ++ linear_delays (Z.of_nat maxRetries - 1) (List.length (react_outcomes tr) - 1).

(** A status update of a contact. *)
Definition status_msg : WAMessage.t :=
  mkMsg (Some (mkKey "status@broadcast" (Some "94770000000@s.whatsapp.net")))
        (Some no_content).

(** The defaults with [AUTO_LIKE_STATUS] set to ['false'], as
    [config set AUTO_LIKE_STATUS false] leaves them. *)
Definition like_disabled : JsObject.t :=
  JsObject.set Config.defaultConfig "AUTO_LIKE_STATUS" (VStr "false").

Definition five_status_events : list event :=
  List.map (fun i => mkEvent (1700000000000 + 1000 * Z.of_nat i) 0 (Some status_msg))
           (seq 0 5).

(** The effects of one status event under the defaults when the recording
    presence fails, and when marking the status viewed fails twice. *)
Definition recording_fails : list effect :=
  snd (statusHandler Config.defaultConfig 0 1700000000000 (Some status_msg) 0 [false]).

Definition read_fails_twice : list effect :=
  snd (statusHandler Config.defaultConfig 0 1700000000000 (Some status_msg) 0
         [true; false; false; true; true]).

End Status.

(** ** [setupCommandHandlers] (lines 259-493) *)

Module Commands.

Import JsString JsObject WAMessage.

Local Open Scope Z_scope.

Definition COMMAND_COOLDOWN : Z := 1000.

Inductive js_error :=
| ReferenceError (ident : string)
| TypeError
| Rejected.

(** How the listener leaves an event: without reaching the [switch], by an
    exception, or with [command] and [args] at the [switch]. *)
Inductive result :=
| Dropped
| Threw (e : js_error)
| Dispatched (command : string) (args : list string).

Definition str (o : option string) : string :=
  match o with Some s => s | None => EmptyString end.

(** [msg.message.extendedTextMessage?.text] and the like. *)
Definition extended_text (m : content) : option string :=
  match extendedText m with Some e => text e | None => None end.

Definition button_id (m : content) : option string :=
  match buttonsResponse m with Some b => selectedButtonId b | None => None end.

Definition image_caption (m : content) : option string :=
  match imageMessage m with Some i => caption i | None => None end.

Definition video_caption (m : content) : option string :=
  match videoMessage m with Some v => caption v | None => None end.

(** Lines 282-293. *)
Definition extract_text (m : content) : string :=
  if JsString.truthy (conversation m) then trim (str (conversation m))
  else if JsString.truthy (extended_text m) then trim (str (extended_text m))
  else if JsString.truthy (button_id m) then trim (str (button_id m))
  else if JsString.truthy (image_caption m) then trim (str (image_caption m))
  else if JsString.truthy (video_caption m) then trim (str (video_caption m))
  else EmptyString.

(** Text extraction in the words of the specification: the sub-types in
    their fixed precedence, and the first one present wins. *)
Definition subtypes_by_precedence (m : content) : list (option string) :=
  [ conversation m; extended_text m; button_id m; image_caption m; video_caption m ].

Definition first_match_wins (m : content) : string :=
  match List.find JsString.truthy (subtypes_by_precedence m) with
  | Some present => trim (str present)
  | None => EmptyString
  end.

(** [userConfig.PREFIX || '.'] *)
Definition prefix_of (userConfig : JsObject.t) : value :=
  match get userConfig "PREFIX" with
  | Some v => if JsObject.truthy (Some v) then v else VStr "."
  | None => VStr "."
  end.

(** [prefix.length] as the argument of [slice]: a string's length, an
    array's length, and [undefined] (which [slice] takes as 0) for a
    number. *)
Definition length_of (v : value) : nat :=
  match v with
  | VStr s => String.length s
  | VNum _ => O
  | VArr l => List.length l
  end.

(** The test of line 302. *)
Definition cooling_down (commandCooldowns : JsMap.t Z) (sender : string) (now : Z)
    : bool :=
  JsMap.has commandCooldowns sender
  && match JsMap.get commandCooldowns sender with
     | Some t => now - t <? COMMAND_COOLDOWN
     | None => false
     end.

(** The listener of lines 263-312 up to the [switch].  For a newsletter
    message (lines 268-278) the reference to the undeclared [conn] throws
    inside [try] and the empty [catch] swallows it, so that block changes
    nothing; no [await] is reached before line 305, so this part of the
    listener runs without interruption.  [sender] is [msg.key.remoteJid]. *)
Definition commandHandler (userConfig : JsObject.t) (now : Z)
    (m : option WAMessage.t) (commandCooldowns : JsMap.t Z)
    : JsMap.t Z * result :=
  match m with
  | None => (commandCooldowns, Threw TypeError)
  | Some msg =>
      match message msg with
      | None => (commandCooldowns, Dropped)
      | Some body =>
          match mkey msg with
          | None => (commandCooldowns, Threw TypeError)
          | Some k =>
              if String.eqb (remoteJid k) "status@broadcast"
              then (commandCooldowns, Dropped)
              else
                let text := extract_text body in
                let prefix := prefix_of userConfig in
                if negb (startsWith text (toString prefix))
                then (commandCooldowns, Dropped)
                else
                  let sender := remoteJid k in
                  if cooling_down commandCooldowns sender now
                  then (commandCooldowns, Dropped)
                  else
                    let commandCooldowns' := JsMap.set commandCooldowns sender now in
                    match split_ws (trim (slice (length_of prefix) text)) with
                    | [] => (commandCooldowns', Threw TypeError)
                    | part0 :: args =>
                        (commandCooldowns', Dispatched (toLowerCase part0) args)
                    end
          end
      end
  end.

(** One delivery of [messages.upsert]; [userConfig] is the configuration at
    that moment. *)
Record event := mkEvent {
  ev_config : JsObject.t;
  ev_now : Z;
  ev_msg : option WAMessage.t
}.

Definition sender_of (e : event) : option string :=
  match ev_msg e with
  | Some msg => match mkey msg with Some k => Some (remoteJid k) | None => None end
  | None => None
  end.

(** The listener on a sequence of events, from a given cooldown map. *)
Fixpoint run (events : list event) (commandCooldowns : JsMap.t Z)
    : JsMap.t Z * list result :=
  match events with
  | [] => (commandCooldowns, [])
  | e :: r =>
      let (c1, r1) := commandHandler (ev_config e) (ev_now e) (ev_msg e) commandCooldowns in
      let (c2, rs) := run r c1 in
      (c2, r1 :: rs)
  end.

Definition is_dispatched (r : result) : bool :=
  match r with
  | Dispatched _ _ => true
  | _ => false
  end.

(** No command of [sender] reaches the [switch] while [events] are handled
    from [commandCooldowns]. *)
Definition none_dispatched_for (sender : string) (events : list event)
    (commandCooldowns : JsMap.t Z) : Prop :=
  Forall (fun er => sender_of (fst er) = Some sender -> is_dispatched (snd er) = false)
         (combine events (snd (run events commandCooldowns))).

(** The command handling in the words of the specification: a text that
    does not start with the prefix is dropped, any other is tokenized and
    dispatched. *)
Definition dispatches_every_prefixed_text (userConfig : JsObject.t) (now : Z)
    (msg : WAMessage.t) (body : content) (commandCooldowns : JsMap.t Z) : Prop :=
  let text := extract_text body in
  let prefix := toString (prefix_of userConfig) in
  let r := snd (commandHandler userConfig now (Some msg) commandCooldowns) in
  if startsWith text prefix then
    match split_ws (trim (slice (String.length prefix) text)) with
    | first :: rest => r = Dispatched (toLowerCase first) rest
    | [] => False
    end
  else r = Dropped.

(** A plain text message in a chat. *)
Definition chat_msg (jid txt : string) : WAMessage.t :=
  mkMsg (Some (mkKey jid None))
        (Some (mkContent (Some txt) None None None None)).

(** Three commands of one sender within a second. *)
Definition three_commands : list event :=
  List.map (fun dt => mkEvent Config.defaultConfig (1700000000000 + dt)
                        (Some (chat_msg "94770000001@s.whatsapp.net" ".ping")))
           [0; 400; 800].

(** *** The [switch]: [case 'config'] (lines 337-368) *)

(** A message handed to [socket.sendMessage]. *)
Inductive outgoing :=
| TextMessage (jid : string) (text : string)
| ImageMessage (jid : string) (url : string) (caption : string).

Definition nl : string := String (ascii_of_nat 10) EmptyString.

Definition footer : string := "> © *ᴛʜɪꜱ ʙᴏᴛ ᴩᴏᴡᴇʀᴇᴅ ʙy NABEED*".

(** [Array.isArray(value) ? value.join(', ') : value] inside a template
    literal. *)
Definition show (v : value) : string :=
  match v with
  | VArr l => join ", " l
  | _ => toString v
  end.

(** One line of the listing (line 357). *)
Definition config_line (e : string * value) : string :=
  "• " ++ fst e ++ ": " ++ show (snd e) ++ nl.

Definition config_text (userConfig : JsObject.t) : string :=
  "*📋 Your Current Config:*" ++ nl ++ nl
  ++ String.concat EmptyString (List.map config_line (entries userConfig))
  ++ nl ++ footer.

Definition arg0_is (args : list string) (s : string) : bool :=
  match args with
  | a :: _ => String.eqb a s
  | [] => false
  end.

(** [case 'config'].  [updateUserConfig] tells whether the call of line 349
    completes; the function is not declared in the source given, so [false]
    stands for a rejected call as well as for a failed reference, and a call
    that completes is taken to leave the object as it is.  Returns the
    configuration object after the case, the messages sent, and whether an
    exception reaches the [catch] of the [switch]. *)
Definition config_case (updateUserConfig : bool) (prefix : value) (sender : string)
    (args : list string) (userConfig : JsObject.t)
    : JsObject.t * list outgoing * option js_error :=
  if arg0_is args "set" && (3 <=? List.length args)%nat then
    let configKey := toUpperCase (nth 1 args EmptyString) in
    let configValue := join " " (skipn 2 args) in
    let userConfig' :=
      if String.eqb configKey "AUTO_LIKE_EMOJI"
      then JsObject.set userConfig configKey (VArr (split_char ","%char configValue))
      else JsObject.set userConfig configKey (VStr configValue) in
    if updateUserConfig then
      (userConfig',
       [TextMessage sender
          ("✅ Config updated: " ++ configKey ++ " = " ++ configValue
           ++ nl ++ nl ++ footer)],
       None)
    else (userConfig', [], Some Rejected)
  else if arg0_is args "view" then
    (userConfig, [TextMessage sender (config_text userConfig)], None)
  else
    (userConfig,
     [TextMessage sender
        ("❌ Invalid config command. Usage:" ++ nl
         ++ toString prefix ++ "config set [key] [value]" ++ nl
         ++ toString prefix ++ "config view" ++ nl ++ nl ++ footer)],
     None).

(** *** The [switch]: [case 'menu'] (lines 370-412) *)

(** The bindings of [src/pair.js] that the body of [case 'menu'] can see:
    those of the block, of the listener and [setupCommandHandlers], of the
    module, and the globals of the runtime that the block names. *)
Definition menu_block_bindings : list string :=
  [ "startTime"; "uptime"; "hours"; "minutes"; "seconds"; "os"; "ramUsage";
    "totalRam"; "menuCaption" ].

Definition listener_bindings : list string :=
  [ "messages"; "msg"; "newsletterJids"; "emojis"; "text"; "prefix"; "sender";
    "now"; "parts"; "command"; "args";
    "socket"; "number"; "userConfig"; "commandCooldowns"; "COMMAND_COOLDOWN" ].

Definition module_bindings : list string :=
  [ "axios"; "ytSearch"; "express"; "fs"; "path"; "exec"; "router"; "pino";
    "Octokit"; "moment"; "makeWASocket"; "useMultiFileAuthState"; "delay";
    "makeCacheableSignalKeyStore"; "Browsers"; "jidNormalizedUser";
    "defaultConfig"; "octokit"; "owner"; "repo"; "activeSockets";
    "socketCreationTime"; "SESSION_BASE_PATH"; "NUMBER_LIST_PATH";
    "adminCache"; "adminCacheTime"; "ADMIN_CACHE_TTL"; "loadAdmins";
    "formatMessage"; "getSriLankaTimestamp"; "cleanDuplicateFiles";
    "sendAdminConnectMessage"; "lastAboutUpdate"; "ABOUT_UPDATE_INTERVAL";
    "updateAboutStatus"; "lastStoryUpdate"; "STORY_UPDATE_INTERVAL";
    "updateStoryStatus"; "setupStatusHandlers"; "setupCommandHandlers" ].

Definition runtime_globals : list string :=
  [ "require"; "process"; "console"; "Math"; "Date" ].

Definition menu_scope : list string :=
  menu_block_bindings ++ listener_bindings ++ module_bindings ++ runtime_globals.

(** Reading an identifier: a [ReferenceError] when no binding is in scope. *)
Definition resolve (scope : list string) (x : string) : option js_error :=
  if existsb (String.eqb x) scope then None else Some (ReferenceError x).

(** The first identifier of [reads], taken in order, that does not resolve. *)
Fixpoint first_unresolved (scope : list string) (reads : list string)
    : option js_error :=
  match reads with
  | [] => None
  | x :: r =>
      match resolve scope x with
      | Some e => Some e
      | None => first_unresolved scope r
      end
  end.

(** The identifiers read by lines 371-379, in evaluation order. *)
Definition menu_setup_reads : list string :=
  [ "socketCreationTime"; "number"; "Math"; "Date"; "startTime";
    "Math"; "uptime"; "Math"; "uptime"; "Math"; "uptime";
    "require"; "Math"; "process"; "Math"; "os" ].

(** The identifiers read by the substitutions of the template literal of
    lines 381-405, in order. *)
Definition menu_caption_reads : list string :=
  [ "number"; "hours"; "minutes"; "seconds"; "ramUsage"; "totalRam" ]
  ++ repeat "config" 13.

(** The identifiers read by the [sendMessage] statement of lines 407-410. *)
Definition menu_send_reads : list string :=
  [ "socket"; "sender"; "config"; "menuCaption" ].

(** [case 'menu'] in scope [scope]: [caption] and [url] stand for the values
    the statements compute when every read resolves.  Returns the messages
    sent and the exception that reaches the [catch] of the [switch]. *)
Definition menu_case (scope : list string) (sender caption url : string)
    : list outgoing * option js_error :=
  match first_unresolved scope (menu_setup_reads ++ menu_caption_reads) with
  | Some e => ([], Some e)
  | None =>
      match first_unresolved scope menu_send_reads with
      | Some e => ([], Some e)
      | None => ([ImageMessage sender url caption], None)
      end
  end.

End Commands.

(** ** The archive after a cleanup *)

Module ArchiveAfter.

Import JsString Archive.

(** [octokit.repos.deleteFile] removes the file at [session/<name>]: the
    listing that a later [getContent] returns once [deleted] are gone. *)
Definition remaining (data deleted : list file) : list file :=
  List.filter
    (fun f => negb (existsb (fun d => String.eqb (name d) (name f)) deleted))
    data.

End ArchiveAfter.

(** ** [loadAdmins], [formatMessage] and [sendAdminConnectMessage]
       (lines 51-83 and 128-152) *)

Module Admin.

Import JsString.

Local Open Scope Z_scope.

Definition ADMIN_CACHE_TTL : Z := 300000.

(** The module variables [adminCache] (initially [null]) and
    [adminCacheTime]. *)
Record cache := mkCache {
  adminCache : option (list string);
  adminCacheTime : Z
}.

Definition initial_cache : cache := mkCache None 0.

(** The file at [defaultConfig.ADMIN_LIST_PATH] as [loadAdmins] meets it:
    absent ([fs.existsSync] is false), present but reading or parsing it
    throws, or holding a JSON array of numbers written as strings. *)
Inductive admin_file :=
| Missing
| Unreadable
| Content (admins : list string).

(** [loadAdmins()]: [now] is [Date.now()].  An array, even an empty one, is
    truthy, so any cached list younger than the TTL is returned. *)
Definition loadAdmins (now : Z) (file : admin_file) (c : cache) : list string * cache :=
  let reload :=
    match file with
    | Content admins => (admins, mkCache (Some admins) now)
    | Missing => ([], c)
    | Unreadable => ([], c)
    end in
  match adminCache c with
  | Some cached =>
      if now - adminCacheTime c <? ADMIN_CACHE_TTL then (cached, c) else reload
  | None => reload
  end.

Definition nl : string := String (ascii_of_nat 10) EmptyString.

(** [formatMessage(title, content, footer)] *)
Definition formatMessage (title content footer : string) : string :=
  "*" ++ title ++ "*" ++ nl ++ nl ++ content ++ nl ++ nl ++ "> *" ++ footer ++ "*".

(** What [sendAdminConnectMessage] does, in order. *)
Inductive effect :=
| SendImage (jid url caption : string) (ok : bool)
| Delay (ms : Z)
| LogError (admin : string).

(** The outcomes of the [sendMessage] calls to come; a call beyond the list
    resolves. *)
Definition next (w : list bool) : bool * list bool :=
  match w with
  | [] => (true, [])
  | b :: r => (b, r)
  end.

(** [defaultConfig.IMAGE_PATH] *)
Definition image_path : string :=
  match JsObject.get Config.defaultConfig "IMAGE_PATH" with
  | Some v => JsObject.toString v
  | None => EmptyString
  end.

(** The [for] loop of lines 137-151. *)
Fixpoint send_each (caption : string) (admins : list string) (w : list bool)
    : list effect * list bool :=
  match admins with
  | [] => ([], w)
  | admin :: r =>
      let (ok, w1) := next w in
      let (tr, w2) := send_each caption r w1 in
      (SendImage (admin ++ "@s.whatsapp.net") image_path caption ok
       :: (if ok then Delay 100 else LogError admin) :: tr, w2)
  end.

Definition connect_caption (number : string) : string :=
  formatMessage "Bot Connected"
    ("📞 Number: " ++ number ++ nl ++ "Bots: Connected")
    "*ᴛʜɪꜱ ʙᴏᴛ ᴩᴏᴡᴇʀᴇᴅ ʙy ᴀʀꜱʟᴀɴᴍᴅ ᴏꜰꜰɪᴄɪᴀʟ*".

(** [sendAdminConnectMessage(socket, number)] *)
Definition sendAdminConnectMessage (now : Z) (file : admin_file) (number : string)
    (c : cache) (w : list bool) : cache * list effect * list bool :=
  let (admins, c') := loadAdmins now file c in
  let (tr, w') := send_each (connect_caption number) admins w in
  (c', tr, w').

Definition recipients (tr : list effect) : list string :=
  flat_map (fun e => match e with SendImage jid _ _ _ => [jid] | _ => [] end) tr.

Definition captions (tr : list effect) : list string :=
  flat_map (fun e => match e with SendImage _ _ cap _ => [cap] | _ => [] end) tr.

Definition sent_ok (tr : list effect) : list bool :=
  flat_map (fun e => match e with SendImage _ _ _ ok => [ok] | _ => [] end) tr.

Definition delay_count (tr : list effect) : nat :=
  List.length (List.filter (fun e => match e with Delay _ => true | _ => false end) tr).

Definition error_count (tr : list effect) : nat :=
  List.length (List.filter (fun e => match e with LogError _ => true | _ => false end) tr).

(** A sequence of [loadAdmins] calls, each with its clock and the file as
    it is then; returns the lists handed back. *)
Fixpoint loads (calls : list (Z * admin_file)) (c : cache) : list (list string) * cache :=
  match calls with
  | [] => ([], c)
  | (now, file) :: r =>
      let (res, c1) := loadAdmins now file c in
      let (rs, c2) := loads r c1 in
      (res :: rs, c2)
  end.

End Admin.

(** ** [updateAboutStatus] and [updateStoryStatus] (lines 155-192) *)

Module Profile.

Local Open Scope Z_scope.

Definition ABOUT_UPDATE_INTERVAL : Z := 3600000.
Definition STORY_UPDATE_INTERVAL : Z := 86400000.

(** What is seen of a call on [socket] once its request has settled: the
    awaited request and whether it resolved, and the log of the [catch]. *)
Inductive effect :=
| UpdateProfileStatus (socket : nat) (ok : bool)
| PostStory (socket : nat) (ok : bool)
| LogError.

(** Both functions are [async]: a call reads the clock and tests the module
    variable before its [await], and writes the variable after it, when the
    request has resolved.  Other calls may run in between.  A call
    suspended at its [await] is a [request]: its socket and its local
    [now]. *)
Record request := mkRequest { r_socket : nat; r_now : Z }.

(** The module variable ([lastAboutUpdate] or [lastStoryUpdate], shared by
    all sockets) and the calls suspended at their [await]. *)
Record state := mkState { last : Z; pending : list request }.

(** [updateAboutStatus(socket)] up to its [await] (lines 159-166): [now] is
    [Date.now()]. *)
Definition updateAboutStatus (socket : nat) (now : Z) (st : state) : state :=
  if now - last st <? ABOUT_UPDATE_INTERVAL then st
  else mkState (last st) (pending st ++ [mkRequest socket now]).

(** The rest of that call, when [socket.updateProfileStatus] has resolved
    (lines 167-168) or rejected (line 170); returns the new
    [lastAboutUpdate]. *)
Definition updateAboutStatus_resume (r : request) (ok : bool) (last : Z)
    : Z * list effect :=
  if ok then (r_now r, [UpdateProfileStatus (r_socket r) true])
  else (last, [UpdateProfileStatus (r_socket r) false; LogError]).

(** [updateStoryStatus(socket)] up to its [await] (lines 179-186). *)
Definition updateStoryStatus (socket : nat) (now : Z) (st : state) : state :=
  if now - last st <? STORY_UPDATE_INTERVAL then st
  else mkState (last st) (pending st ++ [mkRequest socket now]).

(** The rest of that call, when the [sendMessage] to [status@broadcast] has
    resolved (lines 187-188) or rejected (line 190). *)
Definition updateStoryStatus_resume (r : request) (ok : bool) (last : Z)
    : Z * list effect :=
  if ok then (r_now r, [PostStory (r_socket r) true])
  else (last, [PostStory (r_socket r) false; LogError]).

(** What the event loop runs next: a new call, or the continuation of the
    [i]-th suspended call, whose request resolved ([ok]) or rejected. *)
Inductive step :=
| Call (socket : nat) (now : Z)
| Settle (i : nat) (ok : bool).

Fixpoint drop_nth {A : Type} (i : nat) (l : list A) : list A :=
  match l, i with
  | [], _ => []
  | _ :: r, O => r
  | x :: r, S k => x :: drop_nth k r
  end.

Definition exec (begin : nat -> Z -> state -> state)
    (resume : request -> bool -> Z -> Z * list effect)
    (s : step) (st : state) : state * list effect :=
  match s with
  | Call socket now => (begin socket now st, [])
  | Settle i ok =>
      match nth_error (pending st) i with
      | None => (st, [])
      | Some r =>
          let (l, tr) := resume r ok (last st) in
          (mkState l (drop_nth i (pending st)), tr)
      end
  end.

(** Whether a request of the trace went through. *)
Definition succeeded (tr : list effect) : bool :=
  existsb (fun e => match e with
                    | UpdateProfileStatus _ true => true
                    | PostStory _ true => true
                    | _ => false
                    end) tr.

(** The values written to the module variable by the updates that went
    through, in the order they were written. *)
Fixpoint update_times (begin : nat -> Z -> state -> state)
    (resume : request -> bool -> Z -> Z * list effect)
    (steps : list step) (st : state) : list Z :=
  match steps with
  | [] => []
  | s :: r =>
      let (st', tr) := exec begin resume s st in
      (if succeeded tr then [last st'] else []) ++ update_times begin resume r st'
  end.

(** No call gets to its [await] while another one is suspended there. *)
Fixpoint one_in_flight (begin : nat -> Z -> state -> state)
    (resume : request -> bool -> Z -> Z * list effect)
    (steps : list step) (st : state) : bool :=
  match steps with
  | [] => true
  | s :: r =>
      let st' := fst (exec begin resume s st) in
      (List.length (pending st') <=? 1)%nat && one_in_flight begin resume r st'
  end.

End Profile.

(** ** The [switch]: [case 'uptime'], [case 'tagall'] and the start of
       [case 'fb'] (lines 424-479) *)

Module Cases.

Import JsString JsObject Commands.

Local Open Scope Z_scope.

(** [socketCreationTime.get(number) || Date.now()]: [now0] is that reading of
    the clock. *)
Definition start_time (socketCreationTime : JsMap.t Z) (number : string) (now0 : Z)
    : Z :=
  match JsMap.get socketCreationTime number with
  | Some t => if t =? 0 then now0 else t
  | None => now0
  end.

(** Lines 426-429 (and 315-318, 372-375): [uptime], [hours], [minutes] and
    [seconds] from [startTime] and a reading [now] of the clock.
    [Math.floor] of a quotient by a positive number is [Z.div], and [%]
    takes the sign of the dividend, as [Z.rem]. *)
Definition uptime_seconds (startTime now : Z) : Z := (now - startTime) / 1000.

Definition uptime_parts (uptime : Z) : Z * Z * Z :=
  (uptime / 3600, Z.rem uptime 3600 / 60, Z.rem uptime 60).

Definition show_Z (n : Z) : string := toString (VNum n).

(** [case 'uptime']: [sessions] is [activeSockets.size]; [now0] and [now]
    are the two readings of the clock. *)
Definition uptime_case (socketCreationTime : JsMap.t Z) (sessions : nat)
    (number sender : string) (now0 now : Z) : list outgoing :=
  let startTime := start_time socketCreationTime number now0 in
  let '(hours, minutes, seconds) := uptime_parts (uptime_seconds startTime now) in
  [TextMessage sender
     ("⏰ *Uptime:* " ++ show_Z hours ++ "h " ++ show_Z minutes ++ "m "
      ++ show_Z seconds ++ "s" ++ nl
      ++ "📊 *Active Sessions:* " ++ show_Z (Z.of_nat sessions) ++ nl ++ nl
      ++ footer)].

(** A message with the [mentions] field. *)
Inductive tag_reply :=
| Plain (jid text : string)
| Mentioning (jid text : string) (mentions : list string).

(** [p.split('@')[0]] *)
Definition user_of (p : string) : string :=
  List.hd EmptyString (split_char "@"%char p).

(** [case 'tagall']: [sender] is [msg.key.remoteJid]; [groupMetadata] is
    the list of the participants' ids, [None] when the request is rejected.
    Returns the messages sent and the exception that reaches the [catch] of
    the [switch]. *)
Definition tagall_case (sender : string) (groupMetadata : option (list string))
    : list tag_reply * option js_error :=
  if negb (endsWith sender "@g.us") then
    ([Plain sender "❌ This command can only be used in groups."], None)
  else
    match groupMetadata with
    | None => ([], Some Rejected)
    | Some participants =>
        ([Mentioning sender
            ("📢 *Tagging all members:*" ++ nl ++ nl
             ++ join " " (List.map (fun p => ("@" ++ user_of p)%string) participants))
            participants],
         None)
    end.

(** [s.includes(sub)] *)
Fixpoint includes (s sub : string) : bool :=
  String.prefix sub s
  || match s with
     | EmptyString => false
     | String _ r => includes r sub
     end.

(** Where the part of [case 'fb'] given in the source (lines 461-479) leaves
    the case: it returns or throws, or goes on to the download with [fbUrl]. *)
Inductive fb_step :=
| Stop (sent : list outgoing) (error : option js_error)
| Download (sent : list outgoing) (fbUrl : string).

(** [case 'fb'] up to line 479, in scope [scope]; [config_prefix] stands for
    the value of [config.PREFIX] when [config] resolves. *)
Definition fb_guard (scope : list string) (config_prefix sender : string)
    (args : list string) : fb_step :=
  match args with
  | [] =>
      match first_unresolved scope ["socket"; "sender"; "config"]%string with
      | Some e => Stop [] (Some e)
      | None =>
          Stop [TextMessage sender
                  ("❌ Please provide a Facebook video URL." ++ nl
                   ++ "Usage: " ++ config_prefix ++ "fb <facebook-video-url>"
                   ++ nl ++ nl ++ footer)]
               None
      end
  | fbUrl :: _ =>
      if negb (includes fbUrl "facebook.com") && negb (includes fbUrl "fb.watch")
      then
        Stop [TextMessage sender
                ("❌ Please provide a valid Facebook video URL." ++ nl ++ nl ++ footer)]
             None
      else
        Download
          [TextMessage sender
             ("⏳ Downloading Facebook video, please wait..." ++ nl ++ nl ++ footer)]
          fbUrl
  end.

End Cases.

(** ** Reading the trace of the status listener *)

Module StatusFlow.

Import JsObject Status.

Local Open Scope Z_scope.

(** Whether one of the attempts went through. *)
Definition any (outs : list bool) : bool := existsb (fun b => b) outs.

(** The effects of one status event under the defaults when every attempt
    to mark the status viewed fails. *)
Definition read_fails_thrice : list effect :=
  snd (statusHandler Config.defaultConfig 0 1700000000000 (Some status_msg) 0
         [true; false; false; false]).

(** The defaults after [config set MAX_RETRIES -1]. *)
Definition minus_one_retries : JsObject.t :=
  JsObject.set Config.defaultConfig "MAX_RETRIES" (VStr "-1").

End StatusFlow.

(** ** The shape of a trimmed string *)

Module TokenShape.

Import JsString.

(** White space taken off the front of a list of characters. *)
Fixpoint dropws (l : list ascii) : list ascii :=
  match l with
  | [] => []
  | c :: r => if is_space c then dropws r else l
  end.

(** The first character is there and is not white space. *)
Definition first_nonspace (s : string) : bool :=
  match s with
  | EmptyString => false
  | String c _ => negb (is_space c)
  end.

(** The last character is there and is not white space. *)
Fixpoint last_nonspace (s : string) : bool :=
  match s with
  | EmptyString => false
  | String c r =>
      match r with
      | EmptyString => negb (is_space c)
      | String _ _ => last_nonspace r
      end
  end.

(** The characters before the first [sep]. *)
Fixpoint before (sep : ascii) (s : string) : string :=
  match s with
  | EmptyString => EmptyString
  | String c r => if Ascii.eqb c sep then EmptyString else String c (before sep r)
  end.

End TokenShape.

(** ** The configuration round trip, from the chat message *)

Module ConfigWords.

Import JsString JsObject WAMessage Commands Cases.

Local Open Scope string_scope.

(** A word as it is typed: not empty and without white space. *)
Definition is_word (t : string) : bool :=
  negb (String.eqb t "") && JsString.forallb not_space t.

(** Upper case in the words of the specification: each of the letters
    [a] to [z] is replaced by the capital at the same place of the
    alphabet, and any other character is kept. *)
Definition capital (c : ascii) : ascii :=
  match String.index 0 (String c "") "abcdefghijklmnopqrstuvwxyz" with
  | Some i =>
      match String.get i "ABCDEFGHIJKLMNOPQRSTUVWXYZ" with
      | Some C => C
      | None => c
      end
  | None => c
  end.

Fixpoint upper_cased (s : string) : string :=
  match s with
  | EmptyString => EmptyString
  | String c r => String (capital c) (upper_cased r)
  end.

(** The text sent by [config view] once the chat message [text] of [sender]
    has been handled: the listener takes the message to the [switch],
    [case 'config'] runs on its tokens, and then runs again on [view].
    [None] when the message does not reach [case 'config']. *)
Definition view_after (userConfig : JsObject.t) (updateUserConfig : bool) (now : Z)
    (sender text : string) : option string :=
  match snd (commandHandler userConfig now (Some (chat_msg sender text)) JsMap.empty) with
  | Dispatched command args =>
      if String.eqb command "config" then
        let userConfig' :=
          fst (fst (config_case updateUserConfig (prefix_of userConfig) sender args
                      userConfig)) in
        match snd (fst (config_case updateUserConfig (prefix_of userConfig') sender
                          ["view"] userConfig')) with
        | [TextMessage _ t] => Some t
        | _ => None
        end
      else None
  | _ => None
  end.

(** The round trip in the words of the specification: after
    [config set KEY VALUE], [config view] shows the upper-cased key mapped
    to that value. *)
Definition shows_value (userConfig : JsObject.t) (now : Z) (sender key value : string)
    : bool :=
  match view_after userConfig true now sender
          (toString (prefix_of userConfig) ++ "config set " ++ key ++ " " ++ value) with
  | Some t => includes t ("• " ++ upper_cased key ++ ": " ++ value ++ Commands.nl)
  | None => false
  end.

End ConfigWords.

(* ================================================================== *)
(** * Part II: properties *)
(* ================================================================== *)

(** ** Facts about [JsMap] *)

Module JsMapFacts.

Section Facts.
Context {V : Type}.
Implicit Types (m : JsMap.t V) (k : string) (v : V).

Local Abbreviation keys := JsMap.keys.

Lemma get_set_same m k v : JsMap.get (JsMap.set m k v) k = Some v.
Proof.
  induction m as [|[k' v'] r IH]; simpl.
  - now rewrite String.eqb_refl.
  - destruct (String.eqb k' k) eqn:E; simpl; rewrite E; [reflexivity | exact IH].
Qed.

Lemma get_set_other m k k' v : k' <> k -> JsMap.get (JsMap.set m k v) k' = JsMap.get m k'.
Proof.
  intros Hne. induction m as [|[k0 v0] r IH]; simpl.
  - destruct (String.eqb k k') eqn:E; [|reflexivity].
    apply String.eqb_eq in E. congruence.
  - destruct (String.eqb k0 k) eqn:E; simpl.
    + apply String.eqb_eq in E. subst k0.
      destruct (String.eqb k k') eqn:E'; [|reflexivity].
      apply String.eqb_eq in E'. congruence.
    + now rewrite IH.
Qed.

Lemma in_set m k v : In (k, v) (JsMap.set m k v).
Proof.
  induction m as [|[k' v'] r IH]; simpl.
  - now left.
  - destruct (String.eqb k' k) eqn:E.
    + apply String.eqb_eq in E. subst. now left.
    + now right.
Qed.

Lemma keys_set m k v k' : In k' (keys (JsMap.set m k v)) -> k' = k \/ In k' (keys m).
Proof.
  induction m as [|[k0 v0] r IH]; simpl.
  - intros [<- | []]. now left.
  - destruct (String.eqb k0 k) eqn:E; simpl.
    + tauto.
    + intros [<- | H]; [right; now left|].
      destruct (IH H); [now left | right; now right].
Qed.

Lemma keys_set_present m k v : In k (keys m) -> keys (JsMap.set m k v) = keys m.
Proof.
  induction m as [|[k0 v0] r IH]; simpl; [tauto|].
  intros Hin. destruct (String.eqb k0 k) eqn:E; simpl; [reflexivity|].
  f_equal. apply IH. destruct Hin as [-> | Hin]; [|exact Hin].
  rewrite String.eqb_refl in E. discriminate.
Qed.

Lemma set_unique_keys m k v : NoDup (keys m) -> NoDup (keys (JsMap.set m k v)).
Proof.
  induction m as [|[k0 v0] r IH]; simpl; intros Hnd.
  - repeat constructor. tauto.
  - apply NoDup_cons_iff in Hnd. destruct Hnd as [Hnotin Hnd].
    destruct (String.eqb k0 k) eqn:E; simpl.
    + now constructor.
    + constructor; [|now apply IH].
      intros Hin. apply keys_set in Hin. destruct Hin as [-> | Hin]; [|tauto].
      rewrite String.eqb_refl in E. discriminate.
Qed.

Lemma keys_delete m k k' : In k' (keys (JsMap.delete m k)) -> In k' (keys m).
Proof.
  induction m as [|[k0 v0] r IH]; simpl; [tauto|].
  destruct (String.eqb k0 k); simpl; intuition.
Qed.

Lemma delete_unique_keys m k : NoDup (keys m) -> NoDup (keys (JsMap.delete m k)).
Proof.
  induction m as [|[k0 v0] r IH]; simpl; intros Hnd; [constructor|].
  apply NoDup_cons_iff in Hnd. destruct Hnd as [Hnotin Hnd].
  destruct (String.eqb k0 k); simpl; [now apply IH|].
  constructor; [|now apply IH].
  intros Hin. now apply keys_delete in Hin.
Qed.

Lemma entries_for_absent m k : ~ In k (keys m) -> JsMap.entries_for m k = O.
Proof.
  unfold JsMap.entries_for.
  induction m as [|[k0 v0] r IH]; simpl; intros Hnotin; [reflexivity|].
  destruct (String.eqb k0 k) eqn:E.
  - apply String.eqb_eq in E. tauto.
  - apply IH. tauto.
Qed.

Lemma unique_keys_entries_for m k : NoDup (keys m) -> (JsMap.entries_for m k <= 1)%nat.
Proof.
  induction m as [|[k0 v0] r IH]; intros Hnd; [unfold JsMap.entries_for; simpl; lia|].
  simpl in Hnd. apply NoDup_cons_iff in Hnd. destruct Hnd as [Hnotin Hnd].
  specialize (IH Hnd). unfold JsMap.entries_for in *. simpl.
  destruct (String.eqb k0 k) eqn:E; simpl; [|exact IH].
  apply String.eqb_eq in E. subst k0.
  pose proof (entries_for_absent r k Hnotin) as H0.
  unfold JsMap.entries_for in H0. rewrite H0. lia.
Qed.

Lemma entries_for_present m k : In k (keys m) -> (1 <= JsMap.entries_for m k)%nat.
Proof.
  unfold JsMap.entries_for.
  induction m as [|[k0 v0] r IH]; simpl; [tauto|].
  intros [-> | Hin].
  - rewrite String.eqb_refl. simpl. lia.
  - specialize (IH Hin). destruct (String.eqb k0 k); simpl; lia.
Qed.

Lemma entries_for_unique_keys m :
  (forall k, (JsMap.entries_for m k <= 1)%nat) -> NoDup (keys m).
Proof.
  induction m as [|[k0 v0] r IH]; simpl; intros H; [constructor|].
  constructor.
  - intros Hin. specialize (H k0). apply entries_for_present in Hin.
    unfold JsMap.entries_for in *. simpl in H.
    rewrite String.eqb_refl in H. simpl in H. lia.
  - apply IH. intros k. specialize (H k).
    unfold JsMap.entries_for in *. simpl in H.
    destruct (String.eqb k0 k); simpl in H; lia.
Qed.

End Facts.

End JsMapFacts.

(** ** The active-session map *)

Module SessionsProps.

Import Sessions JsMapFacts.

Lemma initial_one_entry : one_entry_per_number initial.
Proof. constructor. Qed.

Lemma step_one_entry st o : one_entry_per_number st -> one_entry_per_number (step st o).
Proof.
  unfold one_entry_per_number. intros H.
  destruct o as [number reuse creds_ok handle now | number | number reconnected]; simpl.
  - unfold startSession.
    destruct (JsMap.has (activeSockets st) number).
    + now destruct reuse.
    + destruct creds_ok; simpl; [now apply set_unique_keys | exact H].
  - now apply delete_unique_keys.
  - unfold handleDisconnect. destruct reconnected; [exact H|].
    now apply delete_unique_keys.
Qed.

Lemma fold_step_one_entry ops st :
  one_entry_per_number st -> one_entry_per_number (fold_left step ops st).
Proof.
  revert st. induction ops as [|o r IH]; simpl; intros st H; [exact H|].
  apply IH. now apply step_one_entry.
Qed.

(** C1.  After any history of session starts, session stops and
    disconnects, the active map holds at most one entry for every phone
    number, and each of these operations keeps it so from any state of the
    maps that has the property. *)
Theorem at_most_one_session_per_number :
  forall (ops : list op) (st : state) (o : op) (N : string),
    (JsMap.entries_for (activeSockets (run ops)) N <= 1)%nat /\
    ((forall n, (JsMap.entries_for (activeSockets st) n <= 1)%nat) ->
     (JsMap.entries_for (activeSockets (step st o)) N <= 1)%nat).
Proof.
  intros ops st o N. split.
  - apply unique_keys_entries_for.
    apply (fold_step_one_entry ops initial initial_one_entry).
  - intros H. apply unique_keys_entries_for.
    apply step_one_entry. now apply entries_for_unique_keys.
Qed.

Lemma at_most_one_session_per_number_witness :
  let st := mkState [("94770000001", 7)] [("94770000001", 1000%Z)] in
  let o := Start "94770000001" false true 8 2000%Z in
  (forall n, (JsMap.entries_for (activeSockets st) n <= 1)%nat) /\
  (JsMap.entries_for (activeSockets (step st o)) "94770000001" <= 1)%nat.
Proof.
  assert (H : forall n,
             (JsMap.entries_for
                (activeSockets (mkState [("94770000001", 7)] [("94770000001", 1000%Z)]))
                n <= 1)%nat).
  { intros n. unfold JsMap.entries_for. cbn [activeSockets List.filter fst].
    destruct (String.eqb "94770000001" n); cbn [List.length]; lia. }
  split; [exact H|].
  exact (proj2 (at_most_one_session_per_number
                  [Start "94770000001" false true 7 1000%Z]
                  (mkState [("94770000001", 7)] [("94770000001", 1000%Z)])
                  (Start "94770000001" false true 8 2000%Z)
                  "94770000001") H).
Defined.

End SessionsProps.

Module ArchiveProps.

Import JsString Archive.

Local Open Scope Z_scope.

Lemma insert_newest_perm a l : Permutation (insert_newest a l) (a :: l).
Proof.
  induction l as [|b r IH]; simpl.
  - apply Permutation_refl.
  - destruct (embedded_time b <=? embedded_time a).
    + apply Permutation_refl.
    + eapply Permutation_trans; [apply perm_skip, IH | apply perm_swap].
Qed.

Lemma sort_newest_first_perm l : Permutation (sort_newest_first l) l.
Proof.
  induction l as [|a r IH]; simpl.
  - constructor.
  - eapply Permutation_trans; [apply insert_newest_perm | now apply perm_skip].
Qed.

Lemma insert_newest_sorted a l : newest_first l -> newest_first (insert_newest a l).
Proof.
  unfold newest_first.
  induction l as [|b r IH]; simpl; intros Hs.
  - repeat constructor.
  - destruct (embedded_time b <=? embedded_time a) eqn:E.
    + apply Z.leb_le in E. constructor; [exact Hs|].
      constructor; [exact E|].
      apply StronglySorted_inv in Hs. destruct Hs as [_ Hall].
      eapply Forall_impl; [|exact Hall]. simpl. intros; lia.
    + apply Z.leb_gt in E.
      apply StronglySorted_inv in Hs. destruct Hs as [Hr Hall].
      constructor; [now apply IH|].
      eapply Permutation_Forall.
      * apply Permutation_sym, insert_newest_perm.
      * constructor; [lia | exact Hall].
Qed.

Lemma sort_newest_first_sorted l : newest_first (sort_newest_first l).
Proof.
  induction l as [|a r IH]; simpl.
  - constructor.
  - now apply insert_newest_sorted.
Qed.

Lemma delete_each_all deleteFile l :
  (forall f, In f l -> deleteFile f = true) -> delete_each deleteFile l = l.
Proof.
  induction l as [|f r IH]; simpl; intros H; [reflexivity|].
  rewrite (H f) by now left. f_equal. apply IH. intros; apply H; now right.
Qed.

Lemma cleanDuplicateFiles_tail number data deleteFile :
  (forall f, In f data -> deleteFile f = true) ->
  cleanDuplicateFiles true (Some data) deleteFile number
  = List.tl (sort_newest_first (List.filter (is_session_file (sanitize number)) data)).
Proof.
  intros Hdel. unfold cleanDuplicateFiles. simpl.
  set (cand := List.filter (is_session_file (sanitize number)) data).
  assert (Hsub : forall f, In f (sort_newest_first cand) -> deleteFile f = true).
  { intros f Hf. apply Hdel.
    apply (Permutation_in _ (sort_newest_first_perm cand)) in Hf.
    unfold cand in Hf. apply filter_In in Hf. tauto. }
  destruct (sort_newest_first cand) as [|kept rest]; [reflexivity|].
  destruct rest as [|g rest]; [reflexivity|].
  cbn [List.length Nat.ltb Nat.leb List.tl].
  apply delete_each_all. intros f Hf. apply Hsub. now right.
Qed.

(** The file ranked first is the first of the newest in the order of the
    listing: the files listed before it are strictly older, the files
    listed after it are not newer. *)
Lemma sort_newest_first_head l :
  l <> [] ->
  exists before kept after rest,
    l = before ++ kept :: after /\
    sort_newest_first l = kept :: rest /\
    Forall (fun f => embedded_time f < embedded_time kept) before /\
    Forall (fun f => embedded_time f <= embedded_time kept) after.
Proof.
  induction l as [|a r IH]; intros Hne; [contradiction|].
  destruct r as [|b r'].
  - exists [], a, [], []. repeat split; constructor.
  - destruct (IH ltac:(discriminate)) as (bf & k & af & rest & Hr & Hs & Hb & Ha).
    change (sort_newest_first (a :: b :: r'))
      with (insert_newest a (sort_newest_first (b :: r'))).
    rewrite Hs. cbn [insert_newest].
    destruct (embedded_time k <=? embedded_time a) eqn:E.
    + apply Z.leb_le in E.
      exists [], a, (b :: r'), (k :: rest). rewrite Hr.
      repeat split; [constructor|].
      apply Forall_app. split.
      * eapply Forall_impl; [|exact Hb]. simpl. intros; lia.
      * constructor; [exact E|].
        eapply Forall_impl; [|exact Ha]. simpl. intros; lia.
    + apply Z.leb_gt in E.
      exists (a :: bf), k, af, (insert_newest a rest). rewrite Hr.
      repeat split; [|exact Ha]. constructor; [exact E | exact Hb].
Qed.

(** C2, amended.  With the archive client configured and the listing and
    the deletions succeeding, and the embedded timestamps at most [2^53]
    (so that the numbers compared are the integers written in the names),
    the candidates are the listed files whose name starts with
    [creds_<digits of number>_] and ends with [.json]; the embedded
    timestamp of a candidate is the second group of digits of the first
    [creds_<digits>_<digits>.json] in its name, and 0 without one.  Cleanup
    retains exactly one candidate, the first in listing order among those
    of highest timestamp (every candidate listed before it is strictly
    older, none listed after it is newer), and deletes every other
    candidate.  When the candidates' timestamps are pairwise distinct the
    deleted files are exactly the candidates whose timestamp is not the
    maximum.  Given [creds_555_100.json], [creds_555_50.json] and
    [creds_555_200.json], the other two are deleted and only
    [creds_555_200.json] is retained. *)
Theorem cleanDuplicateFiles_keeps_one_newest :
  forall (number : string) (data : list file) (deleteFile : file -> bool),
    (forall f, In f data -> deleteFile f = true) ->
    exact_times data ->
    let candidates := List.filter (is_session_file (sanitize number)) data in
    let deleted := cleanDuplicateFiles true (Some data) deleteFile number in
    (candidates = [] -> deleted = []) /\
    (candidates <> [] ->
     exists before kept after,
       candidates = before ++ kept :: after /\
       Forall (fun f => embedded_time f < embedded_time kept) before /\
       Forall (fun f => embedded_time f <= embedded_time kept) after /\
       Permutation (before ++ after) deleted /\
       Permutation candidates (kept :: deleted) /\
       (forall f, In f deleted -> embedded_time f <= embedded_time kept) /\
       (NoDup (List.map embedded_time candidates) ->
        forall f, In f candidates ->
          (In f deleted <-> embedded_time f < embedded_time kept))) /\
    cleanDuplicateFiles true (Some [creds_555_100; creds_555_50; creds_555_200])
      (fun _ => true) "555" = [creds_555_100; creds_555_50].
Proof.
  intros number data deleteFile Hdel _ candidates deleted.
  assert (Hd : deleted = List.tl (sort_newest_first candidates))
    by (apply cleanDuplicateFiles_tail; exact Hdel).
  pose proof (sort_newest_first_perm candidates) as Hperm.
  pose proof (sort_newest_first_sorted candidates) as Hsorted.
  split; [|split; [|reflexivity]].
  - intros E. rewrite Hd, E. reflexivity.
  - intros Hne.
    destruct (sort_newest_first_head candidates Hne)
      as (before & kept & after & rest & Hc & Es & Hb & Ha).
    rewrite Es in *. simpl in Hd. subst deleted. rewrite Hd.
    exists before, kept, after.
    apply StronglySorted_inv in Hsorted. destruct Hsorted as [_ Hall].
    rewrite Forall_forall in Hall.
    assert (Hp : Permutation candidates (kept :: rest)) by now apply Permutation_sym.
    split; [exact Hc|]. split; [exact Hb|]. split; [exact Ha|].
    split.
    { apply Permutation_sym. eapply Permutation_cons_app_inv.
      rewrite <- Hc. apply Permutation_sym. exact Hp. }
    split; [exact Hp|]. split; [exact Hall|].
    intros Hnd f Hf.
    assert (Hnd' : NoDup (List.map embedded_time (kept :: rest))).
    { eapply Permutation_NoDup; [|exact Hnd].
      apply Permutation_map, Hp. }
    simpl in Hnd'. apply NoDup_cons_iff in Hnd'. destruct Hnd' as [Hnotin _].
    split.
    + intros Hin. specialize (Hall f Hin).
      assert (embedded_time f <> embedded_time kept).
      { intros E. apply Hnotin. rewrite <- E. now apply in_map. }
      lia.
    + intros Hlt.
      apply (Permutation_in _ Hp) in Hf.
      destruct Hf as [-> | Hf]; [lia | exact Hf].
Qed.

Lemma cleanDuplicateFiles_keeps_one_newest_witness :
  let data := [creds_555_100; creds_555_50; creds_555_200] in
  let deleted := cleanDuplicateFiles true (Some data) (fun _ => true) "555" in
  exact_times data /\
  exists before kept after,
    data = before ++ kept :: after /\
    Forall (fun f => embedded_time f < embedded_time kept) before /\
    Forall (fun f => embedded_time f <= embedded_time kept) after /\
    Permutation (before ++ after) deleted.
Proof.
  assert (Hex : exact_times [creds_555_100; creds_555_50; creds_555_200]).
  { repeat constructor; vm_compute; discriminate. }
  split; [exact Hex|].
  destruct (cleanDuplicateFiles_keeps_one_newest "555"
              [creds_555_100; creds_555_50; creds_555_200] (fun _ => true)
              (fun _ _ => eq_refl) Hex) as (_ & Hkeep & _).
  destruct (Hkeep ltac:(vm_compute; discriminate))
    as (before & kept & after & Hc & Hb & Ha & Hp & _).
  exists before, kept, after. repeat split; assumption.
Defined.

(** C2 as stated fails: of two files with the same highest timestamp one is
    deleted, and a file that starts and ends like a credentials file is
    deleted although its name carries no timestamp. *)
Lemma cleanDuplicateFiles_not_all_but_maximum :
  ~ deletes_all_but_maximum "555" [creds_555_200; creds_555_0200]
      (cleanDuplicateFiles true (Some [creds_555_200; creds_555_0200])
         (fun _ => true) "555")
  /\ ~ deletes_all_but_maximum "555" [creds_555_100; creds_555_old]
      (cleanDuplicateFiles true (Some [creds_555_100; creds_555_old])
         (fun _ => true) "555").
Proof.
  split; intros H.
  - destruct (H creds_555_0200) as [Hd _]; [right; left; reflexivity|].
    destruct Hd as (t & Ht & g & t' & Hg & Hg' & Hlt).
    { vm_compute. left. reflexivity. }
    vm_compute in Ht. injection Ht as <-.
    destruct Hg as [<- | [<- | []]]; vm_compute in Hg'; injection Hg' as <-; lia.
  - destruct (H creds_555_old) as [Hd _]; [right; left; reflexivity|].
    destruct Hd as (t & Ht & _).
    { vm_compute. left. reflexivity. }
    vm_compute in Ht. discriminate.
Qed.

End ArchiveProps.

(** ** The status listener *)

Module StatusProps.

Import JsString JsObject WAMessage Status.

Local Open Scope Z_scope.

Lemma presence_outcomes_app a b :
  presence_outcomes (a ++ b) = presence_outcomes a ++ presence_outcomes b.
Proof. apply flat_map_app. Qed.

Lemma read_outcomes_app a b : read_outcomes (a ++ b) = read_outcomes a ++ read_outcomes b.
Proof. apply flat_map_app. Qed.

Lemma react_outcomes_app a b : react_outcomes (a ++ b) = react_outcomes a ++ react_outcomes b.
Proof. apply flat_map_app. Qed.

Lemma delays_app a b : delays (a ++ b) = delays a ++ delays b.
Proof. apply flat_map_app. Qed.

Lemma retried_up_to_attempted m outs :
  retried_up_to (S m) outs = true -> (1 <= List.length outs)%nat.
Proof. destruct outs; simpl; [discriminate | lia]. Qed.

(** What a run of the read loop leaves in the trace. *)
Lemma read_retry_trace parsed n : forall w,
  let '(_, tr, _) := read_retry parsed n w in
  presence_outcomes tr = [] /\ react_outcomes tr = [] /\
  retried_up_to n (read_outcomes tr) = true /\
  List.length (delays tr) = (List.length (read_outcomes tr) - 1)%nat /\
  exists ds,
    List.length ds = (List.length (read_outcomes tr) - 1)%nat /\
    tr = attempts_with_delays ReadMessages (read_outcomes tr) ds.
Proof.
  induction n as [|r IH]; intros w.
  - simpl. repeat split. exists []. split; reflexivity.
  - cbn [read_retry]. destruct (next w) as [ok w1]. destruct ok.
    + simpl. repeat split. exists []. split; reflexivity.
    + destruct r as [|r'].
      * simpl. repeat split. exists []. split; reflexivity.
      * specialize (IH w1).
        destruct (read_retry parsed (S r') w1) as [[c tr] w2].
        destruct IH as (Hp & Hr & Hu & Hd & ds & Hlen & Hshape).
        pose proof (retried_up_to_attempted _ _ Hu) as Hatt.
        simpl. repeat split; try assumption; [rewrite Hd; lia|].
        exists (backoff parsed (Z.of_nat (S r')) :: ds).
        destruct (read_outcomes tr) as [|o rest]; [simpl in Hatt; lia|].
        simpl in Hlen. split; [simpl; lia|].
        rewrite Hshape at 1. reflexivity.
Qed.

(** What a run of the reaction loop leaves in the trace. *)
Lemma react_retry_trace parsed emoji now n : forall last w,
  let '(_, _, tr, _) := react_retry parsed emoji now n last w in
  presence_outcomes tr = [] /\ read_outcomes tr = [] /\
  retried_up_to n (react_outcomes tr) = true /\
  List.length (delays tr) = (List.length (react_outcomes tr) - 1)%nat /\
  exists ds,
    List.length ds = (List.length (react_outcomes tr) - 1)%nat /\
    tr = attempts_with_delays (SendReaction emoji) (react_outcomes tr) ds.
Proof.
  induction n as [|r IH]; intros last w.
  - simpl. repeat split. exists []. split; reflexivity.
  - cbn [react_retry]. destruct (next w) as [ok w1]. destruct ok.
    + simpl. repeat split. exists []. split; reflexivity.
    + destruct r as [|r'].
      * simpl. repeat split. exists []. split; reflexivity.
      * specialize (IH last w1).
        destruct (react_retry parsed emoji now (S r') last w1) as [[[c last'] tr] w2].
        destruct IH as (Hp & Hr & Hu & Hd & ds & Hlen & Hshape).
        pose proof (retried_up_to_attempted _ _ Hu) as Hatt.
        simpl. repeat split; try assumption; [rewrite Hd; lia|].
        exists (backoff parsed (Z.of_nat (S r')) :: ds).
        destruct (react_outcomes tr) as [|o rest]; [simpl in Hatt; lia|].
        simpl in Hlen. split; [simpl; lia|].
        rewrite Hshape at 1. reflexivity.
Qed.

(** The trace of the listener on one event: the recording presence, the
    read loop, the reaction loop and the log of the [catch], each possibly
    absent. *)
Lemma statusHandler_trace userConfig rnd now m last w :
  let parsed := parseInt (get userConfig "MAX_RETRIES") in
  let n := Z.to_nat (initial_retries parsed) in
  exists t1 t2 t3 log,
    snd (statusHandler userConfig rnd now m last w) = t1 ++ t2 ++ t3 ++ log /\
    (t1 = [] \/ exists ok, t1 = [SendPresenceUpdate ok]) /\
    (t2 = [] \/ exists w1, t2 = snd (fst (read_retry parsed n w1))) /\
    (t3 = [] \/ exists w2,
        t3 = snd (fst (react_retry parsed (pick_emoji userConfig rnd) now n last w2))) /\
    (log = [] \/ log = [LogError]).
Proof.
  cbv zeta. unfold statusHandler.
  set (parsed := parseInt (get userConfig "MAX_RETRIES")).
  set (n := Z.to_nat (initial_retries parsed)).
  destruct (status_key m) as [k|]; [|exists [], [], [], []; simpl; repeat split; auto].
  destruct (now - last <? STATUS_INTERACTION_COOLDOWN);
    [exists [], [], [], []; simpl; repeat split; auto|].
  assert (Hrest : forall t1 w1,
    (t1 = [] \/ exists ok, t1 = [SendPresenceUpdate ok]) ->
    exists t1' t2 t3 log,
      snd
        (let '(c2, t2, w2) :=
           if is_string (get userConfig "AUTO_VIEW_STATUS") "true"
           then read_retry parsed n w1 else (Done, [], w1) in
         match c2 with
         | Thrown => (last, w2, t1 ++ t2 ++ [LogError])
         | Done =>
             if is_string (get userConfig "AUTO_LIKE_STATUS") "true" then
               let randomEmoji := pick_emoji userConfig rnd in
               let '(c3, last3, t3, w3) :=
                 react_retry parsed randomEmoji now n last w2 in
               (last3, w3,
                t1 ++ t2 ++ t3 ++ match c3 with Thrown => [LogError] | Done => [] end)
             else (last, w2, t1 ++ t2)
         end) = t1' ++ t2 ++ t3 ++ log /\
      (t1' = [] \/ exists ok, t1' = [SendPresenceUpdate ok]) /\
      (t2 = [] \/ exists w1, t2 = snd (fst (read_retry parsed n w1))) /\
      (t3 = [] \/ exists w2,
          t3 = snd (fst (react_retry parsed (pick_emoji userConfig rnd) now n last w2))) /\
      (log = [] \/ log = [LogError])).
  { intros t1 w1 Ht1.
    assert (Hread : exists c2 t2 w2,
      (if is_string (get userConfig "AUTO_VIEW_STATUS") "true"
       then read_retry parsed n w1 else (Done, [], w1)) = (c2, t2, w2) /\
      (t2 = [] \/ exists w1, t2 = snd (fst (read_retry parsed n w1)))).
    { destruct (is_string (get userConfig "AUTO_VIEW_STATUS") "true").
      - destruct (read_retry parsed n w1) as [[c2 t2] w2] eqn:E.
        exists c2, t2, w2. split; [reflexivity|]. right. exists w1. now rewrite E.
      - exists Done, [], w1. auto. }
    destruct Hread as (c2 & t2 & w2 & -> & Ht2).
    destruct c2.
    - destruct (is_string (get userConfig "AUTO_LIKE_STATUS") "true").
      + cbv zeta.
        destruct (react_retry parsed (pick_emoji userConfig rnd) now n last w2)
          as [[[c3 last3] t3] w3] eqn:E.
        exists t1, t2, t3, (match c3 with Thrown => [LogError] | Done => [] end).
        cbn [snd]. repeat split; auto.
        * right. exists w2. now rewrite E.
        * destruct c3; auto.
      + exists t1, t2, [], []. cbn [snd]. rewrite !app_nil_r. repeat split; auto.
    - exists t1, t2, [], [LogError]. cbn [snd]. repeat split; auto. }
  destruct (is_string (get userConfig "AUTO_RECORDING") "true"
            && negb (String.eqb (remoteJid k) EmptyString)).
  - destruct (next w) as [ok w']. destruct ok.
    + apply Hrest. right. now exists true.
    + exists [SendPresenceUpdate false], [], [], [LogError]. cbn [snd].
      split; [reflexivity|]. repeat split; auto. right. now exists false.
  - apply Hrest. now left.
Qed.

(** The reaction loop is the only place that writes [lastStatusInteraction]. *)
Lemma cooldown_not_armed_without_like userConfig rnd now m last w :
  is_string (get userConfig "AUTO_LIKE_STATUS") "true" = false ->
  fst (fst (statusHandler userConfig rnd now m last w)) = last.
Proof.
  intros Hlike. unfold statusHandler.
  destruct (status_key m) as [k|]; [|reflexivity].
  destruct (now - last <? STATUS_INTERACTION_COOLDOWN); [reflexivity|].
  destruct (is_string (get userConfig "AUTO_RECORDING") "true"
            && negb (String.eqb (remoteJid k) EmptyString)).
  - destruct (next w) as [ok w']. destruct ok; [|reflexivity].
    destruct (is_string (get userConfig "AUTO_VIEW_STATUS") "true").
    + destruct (read_retry _ _ w') as [[c tr] w2]. destruct c; [|reflexivity].
      now rewrite Hlike.
    + now rewrite Hlike.
  - destruct (is_string (get userConfig "AUTO_VIEW_STATUS") "true").
    + destruct (read_retry _ _ w) as [[c tr] w2]. destruct c; [|reflexivity].
      now rewrite Hlike.
    + now rewrite Hlike.
Qed.

(** An event that arrives less than ten seconds after the time held in
    [lastStatusInteraction] has no effect. *)
Lemma status_ignored_within_cooldown userConfig rnd now m last w :
  now - last < STATUS_INTERACTION_COOLDOWN ->
  statusHandler userConfig rnd now m last w = (last, w, []).
Proof.
  intros H. unfold statusHandler.
  destruct (status_key m); [|reflexivity].
  apply Z.ltb_lt in H. now rewrite H.
Qed.

(** C3 on the code.  With [AUTO_LIKE_STATUS] set to ['false'] and the other
    switches left at ['true'], five status events one second apart are all
    acted on: the recording presence is sent five times and the status is
    marked viewed five times, and [lastStatusInteraction] stays 0. *)
Theorem status_cooldown_inert_without_reaction :
  let '(last, _, tr) := run like_disabled five_status_events 0 [] in
  last = 0 /\
  presence_outcomes tr = [true; true; true; true; true] /\
  read_outcomes tr = [true; true; true; true; true] /\
  react_outcomes tr = [].
Proof. vm_compute. repeat split. Qed.

(** With the defaults and every call succeeding, the same five events give
    one reaction. *)
Example status_cooldown_with_reaction :
  let '(last, _, tr) := run Config.defaultConfig five_status_events 0 [] in
  last = 1700000000000 /\
  presence_outcomes tr = [true] /\ read_outcomes tr = [true] /\
  react_outcomes tr = [true].
Proof. vm_compute. repeat split. Qed.

(** A read loop that throws has tried and never succeeded. *)
Lemma read_retry_gives_up parsed n : forall w,
  let '(c, tr, _) := read_retry parsed n w in
  c = Thrown ->
  read_outcomes tr <> [] /\ StatusFlow.any (read_outcomes tr) = false.
Proof.
  induction n as [|r IH]; intros w.
  - simpl. discriminate.
  - cbn [read_retry]. destruct (next w) as [ok w1]. destruct ok.
    + simpl. discriminate.
    + destruct r as [|r'].
      * simpl. intros _. split; [discriminate | reflexivity].
      * specialize (IH w1).
        destruct (read_retry parsed (S r') w1) as [[c tr] w2].
        simpl. intros Hc. destruct (IH Hc) as [_ Hany].
        split; [discriminate | exact Hany].
Qed.

Lemma status_key_jid m k : status_key m = Some k -> remoteJid k = "status@broadcast"%string.
Proof.
  unfold status_key. destruct m as [msg|]; [|discriminate].
  destruct (mkey msg) as [k'|]; [|discriminate].
  destruct (String.eqb (remoteJid k') "status@broadcast") eqn:E; [|discriminate].
  destruct (JsString.truthy (participant k')); [|discriminate].
  intros [= <-]. now apply String.eqb_eq.
Qed.

(** Which actions are attempted for an event that passes the guard and the
    cooldown. *)
Lemma statusHandler_processed userConfig rnd now m last w k :
  status_key m = Some k ->
  STATUS_INTERACTION_COOLDOWN <= now - last ->
  let tr := snd (statusHandler userConfig rnd now m last w) in
  let maxRetries :=
    Z.to_nat (initial_retries (parseInt (get userConfig "MAX_RETRIES"))) in
  (if is_string (get userConfig "AUTO_RECORDING") "true"
   then exists ok, presence_outcomes tr = [ok]
   else presence_outcomes tr = []) /\
  (presence_outcomes tr <> [false] ->
   if is_string (get userConfig "AUTO_VIEW_STATUS") "true"
   then retried_up_to maxRetries (read_outcomes tr) = true
   else read_outcomes tr = []) /\
  (presence_outcomes tr <> [false] ->
   read_outcomes tr = [] \/ StatusFlow.any (read_outcomes tr) = true ->
   if is_string (get userConfig "AUTO_LIKE_STATUS") "true"
   then retried_up_to maxRetries (react_outcomes tr) = true
   else react_outcomes tr = []).
Proof.
  intros Hkey Hcool. cbv zeta. unfold statusHandler. rewrite Hkey.
  apply Z.ltb_ge in Hcool. rewrite Hcool.
  rewrite (status_key_jid m k Hkey).
  change (negb (String.eqb "status@broadcast" EmptyString)) with true.
  rewrite andb_true_r.
  set (parsed := parseInt (get userConfig "MAX_RETRIES")).
  set (n := Z.to_nat (initial_retries parsed)).
  assert (Hmain : forall (t1 : list effect) (w1 : list bool),
    presence_outcomes t1 <> [false] ->
    read_outcomes t1 = [] -> react_outcomes t1 = [] ->
    let tr := snd
      (let '(c2, t2, w2) :=
         if is_string (get userConfig "AUTO_VIEW_STATUS") "true"
         then read_retry parsed n w1 else (Done, [], w1) in
       match c2 with
       | Thrown => (last, w2, t1 ++ t2 ++ [LogError])
       | Done =>
           if is_string (get userConfig "AUTO_LIKE_STATUS") "true" then
             let randomEmoji := pick_emoji userConfig rnd in
             let '(c3, last3, t3, w3) :=
               react_retry parsed randomEmoji now n last w2 in
             (last3, w3,
              t1 ++ t2 ++ t3 ++ match c3 with Thrown => [LogError] | Done => [] end)
           else (last, w2, t1 ++ t2)
       end) in
    presence_outcomes tr = presence_outcomes t1 /\
    (if is_string (get userConfig "AUTO_VIEW_STATUS") "true"
     then retried_up_to n (read_outcomes tr) = true
     else read_outcomes tr = []) /\
    (read_outcomes tr = [] \/ StatusFlow.any (read_outcomes tr) = true ->
     if is_string (get userConfig "AUTO_LIKE_STATUS") "true"
     then retried_up_to n (react_outcomes tr) = true
     else react_outcomes tr = [])).
  { intros t1 w1 P1 R1 X1. cbv zeta.
    assert (Hread : exists c2 t2 w2,
      (if is_string (get userConfig "AUTO_VIEW_STATUS") "true"
       then read_retry parsed n w1 else (Done, [], w1)) = (c2, t2, w2) /\
      presence_outcomes t2 = [] /\ react_outcomes t2 = [] /\
      (if is_string (get userConfig "AUTO_VIEW_STATUS") "true"
       then retried_up_to n (read_outcomes t2) = true
       else read_outcomes t2 = []) /\
      (c2 = Thrown ->
       read_outcomes t2 <> [] /\ StatusFlow.any (read_outcomes t2) = false)).
    { destruct (is_string (get userConfig "AUTO_VIEW_STATUS") "true").
      - pose proof (read_retry_trace parsed n w1) as G.
        pose proof (read_retry_gives_up parsed n w1) as F.
        destruct (read_retry parsed n w1) as [[c2 t2] w2].
        destruct G as (Gp & Gx & Gu & _).
        exists c2, t2, w2. repeat split; auto; now apply F.
      - exists Done, [], w1. repeat split; auto; discriminate. }
    destruct Hread as (c2 & t2 & w2 & -> & P2 & X2 & U2 & Th2).
    destruct c2.
    - destruct (is_string (get userConfig "AUTO_LIKE_STATUS") "true").
      + pose proof (react_retry_trace parsed (pick_emoji userConfig rnd) now n last w2) as G.
        destruct (react_retry parsed (pick_emoji userConfig rnd) now n last w2)
          as [[[c3 last3] t3] w3]. cbn [snd].
        destruct G as (P3 & R3 & U3 & _).
        assert (Hlog : presence_outcomes
                         match c3 with Thrown => [LogError] | Done => [] end = []
                       /\ read_outcomes
                            match c3 with Thrown => [LogError] | Done => [] end = []
                       /\ react_outcomes
                            match c3 with Thrown => [LogError] | Done => [] end = [])
          by (destruct c3; simpl; auto).
        destruct Hlog as (P4 & R4 & X4).
        rewrite !presence_outcomes_app, !read_outcomes_app, !react_outcomes_app.
        rewrite P2, P3, P4, R1, R3, R4, X1, X2, X4.
        rewrite ?app_nil_r. cbn [List.app].
        split; [reflexivity|]. split; [exact U2|]. intros _. exact U3.
      + cbn [snd].
        rewrite !presence_outcomes_app, !read_outcomes_app, !react_outcomes_app.
        rewrite P2, R1, X1, X2. rewrite ?app_nil_r. cbn [List.app].
        split; [reflexivity|]. split; [exact U2|]. intros _. reflexivity.
    - cbn [snd]. destruct (Th2 eq_refl) as (Hne & Hany).
      rewrite !presence_outcomes_app, !read_outcomes_app, !react_outcomes_app.
      rewrite P2, R1, X1, X2.
      change (presence_outcomes [LogError]) with (@nil bool).
      change (read_outcomes [LogError]) with (@nil bool).
      change (react_outcomes [LogError]) with (@nil bool).
      rewrite ?app_nil_r. cbn [List.app].
      split; [reflexivity|]. split; [exact U2|].
      intros [E | E]; [contradiction | congruence]. }
  destruct (is_string (get userConfig "AUTO_RECORDING") "true").
  - destruct (next w) as [ok w']. destruct ok.
    + destruct (Hmain [SendPresenceUpdate true] w'
                  ltac:(discriminate) eq_refl eq_refl) as (HP & HR & HX).
      cbv zeta in HP, HR, HX. rewrite HP.
      split; [now exists true|]. split; [intros _; exact HR | intros _; exact HX].
    + cbn [snd presence_outcomes flat_map List.app].
      split; [now exists false|].
      split; intros H; now contradiction H.
  - destruct (Hmain [] w ltac:(discriminate) eq_refl eq_refl) as (HP & HR & HX).
    cbv zeta in HP, HR, HX. rewrite HP.
    split; [reflexivity|]. split; [intros _; exact HR | intros _; exact HX].
Qed.

(** C4, amended.  For every status event that is processed (a status message
    with a participant that arrives at least ten seconds after
    [lastStatusInteraction]): the recording presence is sent exactly once
    when [AUTO_RECORDING] is ['true'] and is never retried; unless it
    fails, mark-viewed runs its retry loop when [AUTO_VIEW_STATUS] is
    ['true']; and unless that loop gives up, the reaction runs its own
    retry loop when [AUTO_LIKE_STATUS] is ['true'].  Each loop has its own
    counter: its attempts stop at the first success or after [maxRetries]
    failures, where [maxRetries] is [parseInt(MAX_RETRIES)], or 3 when that
    is 0 or [NaN] (no attempt is made when it is negative), and one delay
    is taken between two consecutive attempts of the same action. *)
Theorem status_actions_retry_policy :
  forall (userConfig : JsObject.t) (rnd : nat) (now : Z) (m : option WAMessage.t)
         (last : Z) (w : list bool),
    let tr := snd (statusHandler userConfig rnd now m last w) in
    let maxRetries :=
      Z.to_nat (initial_retries (parseInt (get userConfig "MAX_RETRIES"))) in
    (List.length (presence_outcomes tr) <= 1)%nat /\
    (read_outcomes tr = [] \/ retried_up_to maxRetries (read_outcomes tr) = true) /\
    (react_outcomes tr = [] \/ retried_up_to maxRetries (react_outcomes tr) = true) /\
    List.length (delays tr)
    = ((List.length (read_outcomes tr) - 1) + (List.length (react_outcomes tr) - 1))%nat /\
    (exists ds_read ds_react log,
      List.length ds_read = (List.length (read_outcomes tr) - 1)%nat /\
      List.length ds_react = (List.length (react_outcomes tr) - 1)%nat /\
      (log = [] \/ log = [LogError]) /\
      tr = List.map SendPresenceUpdate (presence_outcomes tr)
           ++ attempts_with_delays ReadMessages (read_outcomes tr) ds_read
           ++ attempts_with_delays (SendReaction (pick_emoji userConfig rnd))
                (react_outcomes tr) ds_react
           ++ log) /\
    (status_key m <> None ->
     STATUS_INTERACTION_COOLDOWN <= now - last ->
     (if is_string (get userConfig "AUTO_RECORDING") "true"
      then exists ok, presence_outcomes tr = [ok]
      else presence_outcomes tr = []) /\
     (presence_outcomes tr <> [false] ->
      if is_string (get userConfig "AUTO_VIEW_STATUS") "true"
      then retried_up_to maxRetries (read_outcomes tr) = true
      else read_outcomes tr = []) /\
     (presence_outcomes tr <> [false] ->
      read_outcomes tr = [] \/ StatusFlow.any (read_outcomes tr) = true ->
      if is_string (get userConfig "AUTO_LIKE_STATUS") "true"
      then retried_up_to maxRetries (react_outcomes tr) = true
      else react_outcomes tr = [])).
Proof.
  intros userConfig rnd now m last w. cbv zeta.
  assert (Hproc :
    status_key m <> None ->
    STATUS_INTERACTION_COOLDOWN <= now - last ->
    (if is_string (get userConfig "AUTO_RECORDING") "true"
     then exists ok,
         presence_outcomes (snd (statusHandler userConfig rnd now m last w)) = [ok]
     else presence_outcomes (snd (statusHandler userConfig rnd now m last w)) = []) /\
    (presence_outcomes (snd (statusHandler userConfig rnd now m last w)) <> [false] ->
     if is_string (get userConfig "AUTO_VIEW_STATUS") "true"
     then retried_up_to
            (Z.to_nat (initial_retries (parseInt (get userConfig "MAX_RETRIES"))))
            (read_outcomes (snd (statusHandler userConfig rnd now m last w))) = true
     else read_outcomes (snd (statusHandler userConfig rnd now m last w)) = []) /\
    (presence_outcomes (snd (statusHandler userConfig rnd now m last w)) <> [false] ->
     read_outcomes (snd (statusHandler userConfig rnd now m last w)) = []
     \/ StatusFlow.any
          (read_outcomes (snd (statusHandler userConfig rnd now m last w))) = true ->
     if is_string (get userConfig "AUTO_LIKE_STATUS") "true"
     then retried_up_to
            (Z.to_nat (initial_retries (parseInt (get userConfig "MAX_RETRIES"))))
            (react_outcomes (snd (statusHandler userConfig rnd now m last w))) = true
     else react_outcomes (snd (statusHandler userConfig rnd now m last w)) = [])).
  { intros Hkey Hcool. destruct (status_key m) as [k|] eqn:Ek; [|contradiction].
    exact (statusHandler_processed userConfig rnd now m last w k Ek Hcool). }
  revert Hproc.
  destruct (statusHandler_trace userConfig rnd now m last w)
    as (t1 & t2 & t3 & log & -> & H1 & H2 & H3 & Hlog).
  intros Hproc.
  set (parsed := parseInt (get userConfig "MAX_RETRIES")) in *.
  set (n := Z.to_nat (initial_retries parsed)) in *.
  assert (F1 : (List.length (presence_outcomes t1) <= 1)%nat /\
               read_outcomes t1 = [] /\ react_outcomes t1 = [] /\ delays t1 = [] /\
               t1 = List.map SendPresenceUpdate (presence_outcomes t1)).
  { destruct H1 as [-> | [ok ->]]; simpl; auto. }
  assert (F2 : presence_outcomes t2 = [] /\ react_outcomes t2 = [] /\
               (read_outcomes t2 = [] \/ retried_up_to n (read_outcomes t2) = true) /\
               List.length (delays t2) = (List.length (read_outcomes t2) - 1)%nat /\
               exists ds,
                 List.length ds = (List.length (read_outcomes t2) - 1)%nat /\
                 t2 = attempts_with_delays ReadMessages (read_outcomes t2) ds).
  { destruct H2 as [-> | [w1 ->]].
    - simpl. repeat split; auto. exists []. auto.
    - pose proof (read_retry_trace parsed n w1) as H.
      destruct (read_retry parsed n w1) as [[c tr] w2]. cbn [fst snd].
      destruct H as (? & ? & ? & ? & ?). auto. }
  assert (F3 : presence_outcomes t3 = [] /\ read_outcomes t3 = [] /\
               (react_outcomes t3 = [] \/ retried_up_to n (react_outcomes t3) = true) /\
               List.length (delays t3) = (List.length (react_outcomes t3) - 1)%nat /\
               exists ds,
                 List.length ds = (List.length (react_outcomes t3) - 1)%nat /\
                 t3 = attempts_with_delays (SendReaction (pick_emoji userConfig rnd))
                        (react_outcomes t3) ds).
  { destruct H3 as [-> | [w2 ->]].
    - simpl. repeat split; auto. exists []. auto.
    - pose proof (react_retry_trace parsed (pick_emoji userConfig rnd) now n last w2) as H.
      destruct (react_retry parsed (pick_emoji userConfig rnd) now n last w2)
        as [[[c last'] tr] w3]. cbn [fst snd].
      destruct H as (? & ? & ? & ? & ?). auto. }
  assert (F4 : presence_outcomes log = [] /\ read_outcomes log = [] /\
               react_outcomes log = [] /\ delays log = []).
  { destruct Hlog as [-> | ->]; simpl; auto. }
  destruct F1 as (P1 & R1 & X1 & D1 & Sh1).
  destruct F2 as (P2 & X2 & R2 & D2 & ds2 & L2 & Sh2).
  destruct F3 as (P3 & R3 & X3 & D3 & ds3 & L3 & Sh3).
  destruct F4 as (P4 & R4 & X4 & D4).
  revert Hproc.
  rewrite !presence_outcomes_app, !read_outcomes_app, !react_outcomes_app,
    !delays_app.
  rewrite P2, P3, P4, R1, R3, R4, X1, X2, X4, D1, D4.
  rewrite ?app_nil_r. cbn [List.app]. intros Hproc.
  split; [exact P1|]. split; [exact R2|]. split; [exact X3|].
  split; [rewrite length_app; lia|].
  split; [|exact Hproc].
  exists ds2, ds3, log. repeat split; auto.
  rewrite <- Sh1, <- Sh2, <- Sh3. reflexivity.
Qed.

Lemma status_actions_retry_policy_witness :
  let tr := snd (statusHandler Config.defaultConfig 0 1700000000000 (Some status_msg) 0
                   [true; false; true; false; false; true]) in
  status_key (Some status_msg) <> None /\
  STATUS_INTERACTION_COOLDOWN <= 1700000000000 - 0 /\
  presence_outcomes tr = [true] /\
  read_outcomes tr = [false; true] /\
  react_outcomes tr = [false; false; true] /\
  retried_up_to 3 (read_outcomes tr) = true /\
  retried_up_to 3 (react_outcomes tr) = true.
Proof.
  assert (Hk : status_key (Some status_msg) <> None) by (vm_compute; discriminate).
  assert (Hc : STATUS_INTERACTION_COOLDOWN <= 1700000000000 - 0)
    by (vm_compute; discriminate).
  destruct (status_actions_retry_policy Config.defaultConfig 0 1700000000000
              (Some status_msg) 0 [true; false; true; false; false; true])
    as (_ & _ & _ & _ & _ & Hproc).
  destruct (Hproc Hk Hc) as (_ & Hread & Hreact).
  split; [exact Hk|]. split; [exact Hc|].
  split; [vm_compute; reflexivity|].
  split; [vm_compute; reflexivity|].
  split; [vm_compute; reflexivity|].
  split.
  - exact (Hread ltac:(vm_compute; discriminate)).
  - exact (Hreact ltac:(vm_compute; discriminate) ltac:(right; vm_compute; reflexivity)).
Defined.

(** C4 as stated fails with [MAX_RETRIES: 3]: a recording presence that
    fails is not tried again, and the two delays between three attempts to
    mark the status viewed are 3000 ms each, not 2000 ms and 1000 ms. *)
Lemma status_retries_not_as_specified :
  Z.to_nat (initial_retries (parseInt (get Config.defaultConfig "MAX_RETRIES"))) = 3%nat /\
  ~ retries_as_specified 3 recording_fails /\
  ~ retries_as_specified 3 read_fails_twice.
Proof.
  split; [reflexivity|]. split.
  - intros (H & _). vm_compute in H. discriminate.
  - intros (_ & _ & _ & H). vm_compute in H. discriminate.
Qed.

Lemma read_retry_failed_attempt parsed r w :
  read_retry parsed (S (S r)) (false :: w)
  = let '(c, tr, w2) := read_retry parsed (S r) w in
    (c, ReadMessages false :: Delay (backoff parsed (Z.of_nat (S r))) :: tr, w2).
Proof. reflexivity. Qed.

Lemma react_retry_failed_attempt parsed emoji now r last w :
  react_retry parsed emoji now (S (S r)) last (false :: w)
  = let '(c, last', tr, w2) := react_retry parsed emoji now (S r) last w in
    (c, last',
     SendReaction emoji false :: Delay (backoff parsed (Z.of_nat (S r))) :: tr, w2).
Proof. reflexivity. Qed.

Lemma read_retry_fails_then_succeeds parsed k rest :
  exists tr,
    read_retry parsed (S k) (repeat false k ++ true :: rest) = (Done, tr, rest) /\
    read_outcomes tr = repeat false k ++ [true].
Proof.
  induction k as [|k IH].
  - simpl. eexists. split; reflexivity.
  - destruct IH as (tr & Hrun & Hout).
    change (repeat false (S k) ++ true :: rest)
      with (false :: (repeat false k ++ true :: rest)).
    rewrite read_retry_failed_attempt, Hrun.
    eexists. split; [reflexivity|].
    change (read_outcomes tr = repeat false k ++ [true]) in Hout.
    simpl. now rewrite <- Hout.
Qed.

Lemma read_retry_all_fail parsed k rest :
  exists tr,
    read_retry parsed (S k) (repeat false (S k) ++ rest) = (Thrown, tr, rest) /\
    read_outcomes tr = repeat false (S k).
Proof.
  induction k as [|k IH].
  - simpl. eexists. split; reflexivity.
  - destruct IH as (tr & Hrun & Hout).
    change (repeat false (S (S k)) ++ rest)
      with (false :: (repeat false (S k) ++ rest)).
    rewrite read_retry_failed_attempt, Hrun.
    eexists. split; [reflexivity|].
    change (repeat false (S (S k))) with (false :: repeat false (S k)).
    rewrite <- Hout. reflexivity.
Qed.

Lemma react_retry_fails_then_succeeds parsed emoji now last k rest :
  exists tr,
    react_retry parsed emoji now (S k) last (repeat false k ++ true :: rest)
    = (Done, now, tr, rest) /\
    react_outcomes tr = repeat false k ++ [true].
Proof.
  induction k as [|k IH].
  - simpl. eexists. split; reflexivity.
  - destruct IH as (tr & Hrun & Hout).
    change (repeat false (S k) ++ true :: rest)
      with (false :: (repeat false k ++ true :: rest)).
    rewrite react_retry_failed_attempt, Hrun.
    eexists. split; [reflexivity|].
    simpl. now rewrite <- Hout.
Qed.

Lemma react_retry_all_fail parsed emoji now last k rest :
  exists tr,
    react_retry parsed emoji now (S k) last (repeat false (S k) ++ rest)
    = (Thrown, last, tr, rest) /\
    react_outcomes tr = repeat false (S k).
Proof.
  induction k as [|k IH].
  - simpl. eexists. split; reflexivity.
  - destruct IH as (tr & Hrun & Hout).
    change (repeat false (S (S k)) ++ rest)
      with (false :: (repeat false (S k) ++ rest)).
    rewrite react_retry_failed_attempt, Hrun.
    eexists. split; [reflexivity|].
    change (repeat false (S (S k))) with (false :: repeat false (S k)).
    rewrite <- Hout. reflexivity.
Qed.

(** C5.  With a positive [maxRetries], a retry loop whose action fails
    [maxRetries - 1] times and then succeeds completes normally after exactly
    [maxRetries] attempts (and, for the reaction, records the interaction);
    a loop whose action fails [maxRetries] times throws after exactly
    [maxRetries] attempts.  This holds for the loop that marks the status
    viewed and for the loop that reacts. *)
Theorem retry_loop_last_attempt :
  forall (parsed : option Z) (emoji : option string) (now last : Z)
         (rest : list bool),
    let maxRetries := Z.to_nat (initial_retries parsed) in
    (0 < maxRetries)%nat ->
    let fails_then_succeeds := repeat false (maxRetries - 1) ++ true :: rest in
    let all_fail := repeat false maxRetries ++ rest in
    (exists tr,
       read_retry parsed maxRetries fails_then_succeeds = (Done, tr, rest) /\
       read_outcomes tr = repeat false (maxRetries - 1) ++ [true] /\
       List.length (read_outcomes tr) = maxRetries) /\
    (exists tr,
       read_retry parsed maxRetries all_fail = (Thrown, tr, rest) /\
       read_outcomes tr = repeat false maxRetries) /\
    (exists tr,
       react_retry parsed emoji now maxRetries last fails_then_succeeds
       = (Done, now, tr, rest) /\
       react_outcomes tr = repeat false (maxRetries - 1) ++ [true] /\
       List.length (react_outcomes tr) = maxRetries) /\
    (exists tr,
       react_retry parsed emoji now maxRetries last all_fail
       = (Thrown, last, tr, rest) /\
       react_outcomes tr = repeat false maxRetries).
Proof.
  intros parsed emoji now last rest maxRetries Hpos.
  destruct maxRetries as [|k]; [lia|]. cbv zeta.
  replace (S k - 1)%nat with k by lia.
  repeat split.
  - destruct (read_retry_fails_then_succeeds parsed k rest) as (tr & H1 & H2).
    exists tr. repeat split; try assumption.
    rewrite H2, length_app, repeat_length. simpl. lia.
  - apply read_retry_all_fail.
  - destruct (react_retry_fails_then_succeeds parsed emoji now last k rest)
      as (tr & H1 & H2).
    exists tr. repeat split; try assumption.
    rewrite H2, length_app, repeat_length. simpl. lia.
  - apply react_retry_all_fail.
Qed.

Lemma retry_loop_last_attempt_witness :
  (0 < Z.to_nat (initial_retries (Some 3%Z)))%nat /\
  (exists tr,
     read_retry (Some 3%Z) 3 [false; false; true] = (Done, tr, []) /\
     read_outcomes tr = [false; false; true] /\
     List.length (read_outcomes tr) = 3%nat) /\
  (exists tr,
     read_retry (Some 3%Z) 3 [false; false; false] = (Thrown, tr, []) /\
     read_outcomes tr = [false; false; false]).
Proof.
  assert (Hpos : (0 < Z.to_nat (initial_retries (Some 3%Z)))%nat) by (vm_compute; lia).
  split; [exact Hpos|].
  destruct (retry_loop_last_attempt (Some 3%Z) None 0%Z 0%Z [] Hpos) as (H1 & H2 & _).
  split; [exact H1 | exact H2].
Defined.

End StatusProps.

(** ** Facts about the string builtins *)

Module JsStringFacts.

Import JsString.

Lemma append_nil_r (s : string) : (s ++ "")%string = s.
Proof. induction s as [|c r IH]; simpl; [reflexivity | now rewrite IH]. Qed.

Lemma append_assoc (a b c : string) : ((a ++ b) ++ c)%string = (a ++ b ++ c)%string.
Proof. induction a as [|x r IH]; simpl; [reflexivity | now rewrite IH]. Qed.

Lemma forallb_append p (a b : string) :
  JsString.forallb p (a ++ b) = JsString.forallb p a && JsString.forallb p b.
Proof.
  induction a as [|c r IH]; simpl; [reflexivity|].
  rewrite IH. now rewrite andb_assoc.
Qed.

Lemma concat_cons (x : string) (l : list string) :
  String.concat "" (x :: l) = (x ++ String.concat "" l)%string.
Proof.
  destruct l as [|y l]; simpl; [now rewrite append_nil_r | reflexivity].
Qed.

Lemma concat_map_in {A} (f : A -> string) (e : A) (l : list A) :
  In e l ->
  exists before after,
    String.concat "" (List.map f l) = (before ++ f e ++ after)%string.
Proof.
  induction l as [|x r IH]; [intros []|].
  intros [-> | Hin]; cbn [List.map]; rewrite concat_cons.
  - exists ""%string, (String.concat "" (List.map f r)). reflexivity.
  - destruct (IH Hin) as (b & a & ->).
    exists (f x ++ b)%string, a. now rewrite append_assoc.
Qed.

Lemma split_ws_go_nonempty in_ws acc s : split_ws_go in_ws acc s <> [].
Proof.
  revert in_ws acc. induction s as [|c r IH]; intros in_ws acc; simpl.
  - discriminate.
  - destruct (is_space c); [destruct in_ws|]; try apply IH. discriminate.
Qed.

Lemma split_ws_go_no_space in_ws acc s :
  JsString.forallb not_space acc = true ->
  Forall (fun tok => JsString.forallb not_space tok = true) (split_ws_go in_ws acc s).
Proof.
  revert in_ws acc. induction s as [|c r IH]; intros in_ws acc Hacc; simpl.
  - now constructor.
  - destruct (is_space c) eqn:E.
    + destruct in_ws; [now apply IH|].
      constructor; [exact Hacc | now apply IH].
    + apply IH. rewrite forallb_append, Hacc. simpl.
      unfold not_space. now rewrite E.
Qed.

Lemma split_ws_go_concat in_ws acc s :
  String.concat "" (split_ws_go in_ws acc s)
  = (acc ++ JsString.filter not_space s)%string.
Proof.
  revert in_ws acc. induction s as [|c r IH]; intros in_ws acc.
  - simpl. now rewrite append_nil_r.
  - cbn [split_ws_go JsString.filter]. unfold not_space at 1.
    destruct (is_space c); cbn [negb].
    + destruct in_ws; [apply IH|].
      rewrite concat_cons, IH. reflexivity.
    + rewrite IH, append_assoc. reflexivity.
Qed.

(** [s.split(/\s+/)] cuts [s] at its white space: there is always a first
    token, no token holds white space, and the tokens put together are the
    characters of [s] that are not white space. *)
Lemma split_ws_tokens s :
  split_ws s <> [] /\
  Forall (fun tok => JsString.forallb not_space tok = true) (split_ws s) /\
  String.concat "" (split_ws s) = JsString.filter not_space s.
Proof.
  unfold split_ws. split; [apply split_ws_go_nonempty|]. split.
  - now apply split_ws_go_no_space.
  - apply split_ws_go_concat.
Qed.

End JsStringFacts.

(** ** The command listener *)

Module CommandsProps.

Import JsString JsObject WAMessage Commands JsMapFacts JsStringFacts.

Local Open Scope Z_scope.

(** The listener either dispatches, after recording [now] for the sender,
    or leaves the cooldown map as it is. *)
Lemma commandHandler_cases userConfig now m cd :
  (exists msg k c a,
     m = Some msg /\ mkey msg = Some k /\
     cooling_down cd (remoteJid k) now = false /\
     commandHandler userConfig now m cd
     = (JsMap.set cd (remoteJid k) now, Dispatched c a)) \/
  (fst (commandHandler userConfig now m cd) = cd /\
   is_dispatched (snd (commandHandler userConfig now m cd)) = false).
Proof.
  unfold commandHandler.
  destruct m as [msg|]; [|right; split; reflexivity].
  destruct (message msg) as [body|]; [|right; split; reflexivity].
  destruct (mkey msg) as [k|] eqn:Ek; [|right; split; reflexivity].
  destruct (String.eqb (remoteJid k) "status@broadcast"); [right; split; reflexivity|].
  destruct (negb (startsWith (extract_text body) (toString (prefix_of userConfig))));
    [right; split; reflexivity|].
  destruct (cooling_down cd (remoteJid k) now) eqn:Ec; [right; split; reflexivity|].
  destruct (split_ws (trim (slice (length_of (prefix_of userConfig)) (extract_text body))))
    as [|part0 args] eqn:Es.
  - exfalso. revert Es. apply split_ws_go_nonempty.
  - left. exists msg, k, (toLowerCase part0), args. auto.
Qed.

Lemma commandHandler_keeps_cooldown userConfig now m cd sender :
  is_dispatched (snd (commandHandler userConfig now m cd)) = false
  \/ (forall msg k, m = Some msg -> mkey msg = Some k -> remoteJid k <> sender) ->
  JsMap.get (fst (commandHandler userConfig now m cd)) sender = JsMap.get cd sender.
Proof.
  intros H.
  destruct (commandHandler_cases userConfig now m cd)
    as [(msg & k & c & a & Hm & Hk & _ & Hrun) | (Hfst & _)].
  - rewrite Hrun in *. simpl in *.
    destruct H as [H | H]; [discriminate|].
    apply get_set_other. intros E. exact (H msg k Hm Hk (eq_sym E)).
  - now rewrite Hfst.
Qed.

Lemma run_keeps_cooldown sender events : forall cd,
  none_dispatched_for sender events cd ->
  JsMap.get (fst (run events cd)) sender = JsMap.get cd sender.
Proof.
  unfold none_dispatched_for.
  induction events as [|e r IH]; intros cd H; [reflexivity|].
  cbn [run] in *.
  destruct (commandHandler (ev_config e) (ev_now e) (ev_msg e) cd) as [c1 r1] eqn:E1.
  specialize (IH c1).
  destruct (run r c1) as [c2 rs] eqn:E2.
  cbn [fst snd combine] in *.
  apply Forall_cons_iff in H. destruct H as [Hhead Htail].
  rewrite (IH Htail).
  pose proof (commandHandler_keeps_cooldown (ev_config e) (ev_now e) (ev_msg e) cd sender)
    as Hkeep.
  rewrite E1 in Hkeep. cbn [fst snd] in Hkeep. apply Hkeep.
  cbn [fst snd] in Hhead. unfold sender_of in Hhead.
  destruct (ev_msg e) as [msg|]; [|right; discriminate].
  destruct (mkey msg) as [k|] eqn:Ek; [|right; intros ? ? [= <-] Hk; congruence].
  destruct (String.eqb (remoteJid k) sender) eqn:Es.
  - apply String.eqb_eq in Es. left. apply Hhead. now rewrite Es.
  - apply String.eqb_neq in Es. right. intros ? k' [= <-] Hk.
    rewrite Ek in Hk. injection Hk as <-. exact Es.
Qed.

(** C6.  Once a command of a sender has been dispatched at time [t0], a
    message of that sender that arrives less than one second after [t0],
    no other command of the sender having been dispatched in between, is
    dropped and leaves the cooldown map unchanged. *)
Theorem command_cooldown_drops :
  forall (e0 : event) (mid : list event) (e : event) (cd0 : JsMap.t Z)
         (sender : string),
    sender_of e0 = Some sender ->
    sender_of e = Some sender ->
    is_dispatched (snd (commandHandler (ev_config e0) (ev_now e0) (ev_msg e0) cd0)) = true ->
    let cd1 := fst (commandHandler (ev_config e0) (ev_now e0) (ev_msg e0) cd0) in
    none_dispatched_for sender mid cd1 ->
    ev_now e - ev_now e0 < COMMAND_COOLDOWN ->
    let cd2 := fst (run mid cd1) in
    commandHandler (ev_config e) (ev_now e) (ev_msg e) cd2 = (cd2, Dropped).
Proof.
  intros e0 mid e cd0 sender Hs0 Hs Hdisp cd1 Hquiet Hlt cd2.
  assert (Hget : JsMap.get cd2 sender = Some (ev_now e0)).
  { unfold cd2. rewrite (run_keeps_cooldown sender mid cd1 Hquiet). unfold cd1.
    destruct (commandHandler_cases (ev_config e0) (ev_now e0) (ev_msg e0) cd0)
      as [(msg & k & c & a & Hm & Hk & _ & Hrun) | (_ & Hnot)].
    - rewrite Hrun. cbn [fst]. unfold sender_of in Hs0. rewrite Hm, Hk in Hs0.
      injection Hs0 as <-. apply get_set_same.
    - rewrite Hnot in Hdisp. discriminate. }
  unfold sender_of in Hs. unfold commandHandler.
  destruct (ev_msg e) as [msg|]; [|discriminate].
  destruct (mkey msg) as [k|]; [|discriminate].
  injection Hs as Hk.
  destruct (message msg) as [body|]; [|reflexivity].
  destruct (String.eqb (remoteJid k) "status@broadcast"); [reflexivity|].
  destruct (negb (startsWith (extract_text body) (toString (prefix_of (ev_config e)))));
    [reflexivity|].
  assert (Hcool : cooling_down cd2 (remoteJid k) (ev_now e) = true).
  { unfold cooling_down, JsMap.has. rewrite Hk, Hget. simpl.
    apply Z.ltb_lt. exact Hlt. }
  now rewrite Hcool.
Qed.

(** Of three commands of one sender within a second, only the first reaches
    the [switch]. *)
Example three_commands_one_dispatch :
  snd (run three_commands JsMap.empty) = [Dispatched "ping" []; Dropped; Dropped].
Proof. vm_compute. reflexivity. Qed.

Lemma command_cooldown_drops_witness :
  let first := mkEvent Config.defaultConfig 1700000000000
                 (Some (chat_msg "94770000001@s.whatsapp.net" ".ping")) in
  let second := mkEvent Config.defaultConfig 1700000000400
                  (Some (chat_msg "94770000001@s.whatsapp.net" ".ping")) in
  let third := mkEvent Config.defaultConfig 1700000000800
                 (Some (chat_msg "94770000001@s.whatsapp.net" ".ping")) in
  let cd1 := fst (commandHandler (ev_config first) (ev_now first) (ev_msg first)
                    JsMap.empty) in
  is_dispatched (snd (commandHandler (ev_config first) (ev_now first) (ev_msg first)
                        JsMap.empty)) = true /\
  none_dispatched_for "94770000001@s.whatsapp.net" [second] cd1 /\
  snd (commandHandler (ev_config third) (ev_now third) (ev_msg third)
         (fst (run [second] cd1))) = Dropped.
Proof.
  cbv zeta.
  split; [vm_compute; reflexivity|].
  assert (Hq : none_dispatched_for "94770000001@s.whatsapp.net"
                 [mkEvent Config.defaultConfig 1700000000400
                    (Some (chat_msg "94770000001@s.whatsapp.net" ".ping"))]
                 (fst (commandHandler Config.defaultConfig 1700000000000
                         (Some (chat_msg "94770000001@s.whatsapp.net" ".ping"))
                         JsMap.empty))).
  { unfold none_dispatched_for. vm_compute. constructor; [reflexivity | constructor]. }
  split; [exact Hq|].
  rewrite (command_cooldown_drops
             (mkEvent Config.defaultConfig 1700000000000
                (Some (chat_msg "94770000001@s.whatsapp.net" ".ping")))
             [mkEvent Config.defaultConfig 1700000000400
                (Some (chat_msg "94770000001@s.whatsapp.net" ".ping"))]
             (mkEvent Config.defaultConfig 1700000000800
                (Some (chat_msg "94770000001@s.whatsapp.net" ".ping")))
             JsMap.empty "94770000001@s.whatsapp.net"
             eq_refl eq_refl eq_refl Hq eq_refl).
  reflexivity.
Defined.

Lemma extract_text_chain (m : content) : extract_text m = first_match_wins m.
Proof.
  unfold extract_text, first_match_wins, subtypes_by_precedence.
  cbn [List.find].
  destruct (JsString.truthy (conversation m)); [reflexivity|].
  destruct (JsString.truthy (extended_text m)); [reflexivity|].
  destruct (JsString.truthy (button_id m)); [reflexivity|].
  destruct (JsString.truthy (image_caption m)); [reflexivity|].
  destruct (JsString.truthy (video_caption m)); reflexivity.
Qed.

(** C7.  The text extracted from a message is the trimmed text of the first
    sub-type present (a field that is there and not empty), in the order
    plain text ([conversation]), extended text ([extendedTextMessage.text]),
    button reply ([buttonsResponseMessage.selectedButtonId]), image caption
    ([imageMessage.caption]), video caption ([videoMessage.caption]); it is
    empty when none is present.  So a plain text wins over an extended
    text, an empty plain text is passed over, and a video caption is read
    when nothing else is there. *)
Theorem extract_text_first_match_wins :
  forall (conv : option string) (ext : option extendedTextMessage)
         (btn : option buttonsResponseMessage) (img vid : option mediaMessage),
    let present := fun o : option string =>
      match o with
      | Some (String _ _) => true
      | _ => false
      end in
    let fields :=
      [ conv;
        match ext with Some e => text e | None => None end;
        match btn with Some b => selectedButtonId b | None => None end;
        match img with Some i => caption i | None => None end;
        match vid with Some v => caption v | None => None end ] in
    extract_text (mkContent conv ext btn img vid)
    = match List.find present fields with
      | Some (Some s) => trim s
      | _ => EmptyString
      end
    /\ extract_text (mkContent conv ext btn img vid)
       = first_match_wins (mkContent conv ext btn img vid)
    /\ extract_text (mkContent (Some "  hi ") (Some (mkExtended (Some "ext"))) None None None)
       = "hi"%string
    /\ extract_text (mkContent None (Some (mkExtended (Some " .menu "))) None
                       (Some (mkMedia (Some "cap"))) None)
       = ".menu"%string
    /\ extract_text (mkContent (Some "") (Some (mkExtended None))
                       (Some (mkButtons (Some "btn1"))) (Some (mkMedia (Some "cap"))) None)
       = "btn1"%string
    /\ extract_text (mkContent None None None (Some (mkMedia (Some " pic ")))
                       (Some (mkMedia (Some "clip"))))
       = "pic"%string
    /\ extract_text (mkContent None None None (Some (mkMedia None))
                       (Some (mkMedia (Some "clip "))))
       = "clip"%string
    /\ extract_text no_content = EmptyString.
Proof.
  intros conv ext btn img vid present fields.
  split; [|split; [apply extract_text_chain | repeat split]].
  unfold extract_text, extended_text, button_id, image_caption, video_caption,
    fields, present.
  cbn [conversation extendedText buttonsResponse imageMessage videoMessage List.find].
  destruct conv as [[|c s]|]; cbn [JsString.truthy String.eqb negb str];
    try reflexivity;
    (destruct ext as [[[[|c1 s1]|]]|]; cbn [text JsString.truthy String.eqb negb str];
     try reflexivity;
     (destruct btn as [[[[|c2 s2]|]]|];
      cbn [selectedButtonId JsString.truthy String.eqb negb str];
      try reflexivity;
      (destruct img as [[[[|c3 s3]|]]|]; cbn [caption JsString.truthy String.eqb negb str];
       try reflexivity;
       (destruct vid as [[[[|c4 s4]|]]|];
        cbn [caption JsString.truthy String.eqb negb str]; reflexivity)))).
Qed.

Lemma extract_text_first_match_wins_witness :
  extract_text (mkContent (Some "") (Some (mkExtended (Some "  .ping now ")))
                  None None (Some (mkMedia (Some "clip"))))
  = ".ping now"%string.
Proof.
  rewrite (proj1 (extract_text_first_match_wins (Some ""%string)
                    (Some (mkExtended (Some "  .ping now "%string))) None None
                    (Some (mkMedia (Some "clip"%string))))).
  reflexivity.
Defined.

(** C8, amended.  For a chat message (with a key and a content, not from
    [status@broadcast]) and a prefix held as a string: if the extracted text
    does not start with the prefix the event is dropped; if it does and the
    sender is within its cooldown the event is dropped as well; otherwise
    the text after the prefix is trimmed and cut at its white space, the
    command is the first token in lower case, the arguments are the other
    tokens, and both reach the [switch], the time being recorded for the
    sender. *)
Theorem command_tokenized_and_dispatched :
  forall (userConfig : JsObject.t) (now : Z) (msg : WAMessage.t) (k : key)
         (body : content) (cd : JsMap.t Z) (p : string),
    mkey msg = Some k ->
    message msg = Some body ->
    remoteJid k <> "status@broadcast"%string ->
    prefix_of userConfig = VStr p ->
    let text := extract_text body in
    let rest := trim (slice (String.length p) text) in
    let tokens := split_ws rest in
    commandHandler userConfig now (Some msg) cd
    = (if negb (startsWith text p) then (cd, Dropped)
       else if cooling_down cd (remoteJid k) now then (cd, Dropped)
       else (JsMap.set cd (remoteJid k) now,
             Dispatched (toLowerCase (List.hd EmptyString tokens)) (List.tl tokens)))
    /\ tokens <> []
    /\ Forall (fun tok => JsString.forallb not_space tok = true) tokens
    /\ String.concat "" tokens = JsString.filter not_space rest.
Proof.
  intros userConfig now msg k body cd p Hk Hbody Hjid Hp. cbv zeta.
  destruct (split_ws_tokens (trim (slice (String.length p) (extract_text body))))
    as (Hne & Hns & Hcat).
  split; [|now repeat split].
  unfold commandHandler. rewrite Hbody, Hk, Hp.
  apply String.eqb_neq in Hjid. rewrite Hjid.
  cbn [toString length_of].
  destruct (negb (startsWith (extract_text body) p)); [reflexivity|].
  destruct (cooling_down cd (remoteJid k) now); [reflexivity|].
  destruct (split_ws (trim (slice (String.length p) (extract_text body))))
    as [|part0 args]; [now contradiction Hne | reflexivity].
Qed.

Lemma command_tokenized_and_dispatched_witness :
  let msg := chat_msg "94770000001@s.whatsapp.net" "  .Config  set foo  bar " in
  commandHandler Config.defaultConfig 1700000000000 (Some msg) JsMap.empty
  = ([("94770000001@s.whatsapp.net"%string, 1700000000000)],
     Dispatched "config" ["set"; "foo"; "bar"]%string).
Proof.
  cbv zeta.
  destruct (command_tokenized_and_dispatched Config.defaultConfig 1700000000000
              (chat_msg "94770000001@s.whatsapp.net" "  .Config  set foo  bar ")
              (mkKey "94770000001@s.whatsapp.net" None)
              (mkContent (Some "  .Config  set foo  bar "%string) None None None None)
              JsMap.empty "."%string eq_refl eq_refl
              ltac:(discriminate) eq_refl) as (Hrun & _).
  rewrite Hrun. vm_compute. reflexivity.
Defined.

(** C8 as stated fails: a second [.ping] of the same sender 300 ms after the
    first starts with the prefix and is dropped. *)
Lemma prefixed_text_not_always_dispatched :
  ~ dispatches_every_prefixed_text Config.defaultConfig 1700000000300
      (chat_msg "94770000001@s.whatsapp.net" ".ping")
      (mkContent (Some ".ping"%string) None None None None)
      (fst (commandHandler Config.defaultConfig 1700000000000
              (Some (chat_msg "94770000001@s.whatsapp.net" ".ping")) JsMap.empty)).
Proof.
  intros H. vm_compute in H. discriminate.
Qed.

Lemma insert_index_in e x l : In x l -> In x (insert_index e l).
Proof.
  induction l as [|y r IH]; simpl; [tauto|].
  intros Hin. destruct (fst e <=? fst y); simpl; [now right|].
  destruct Hin as [-> | Hin]; [now left | right; now apply IH].
Qed.

Lemma insert_index_head e l : In e (insert_index e l).
Proof.
  induction l as [|y r IH]; simpl; [now left|].
  destruct (fst e <=? fst y); simpl; [now left | now right].
Qed.

Lemma sorted_index_in x l : In x l -> In x (fold_right insert_index [] l).
Proof.
  induction l as [|y r IH]; simpl; [tauto|].
  intros [-> | Hin]; [apply insert_index_head | now apply insert_index_in, IH].
Qed.

(** [Object.entries] lists every own property. *)
Lemma entries_in (o : JsObject.t) e : In e o -> In e (entries o).
Proof.
  intros Hin. unfold entries. apply in_or_app.
  destruct (array_index (fst e)) as [i|] eqn:Ei.
  - left. apply in_map_iff. exists (i, e). split; [reflexivity|].
    apply sorted_index_in. unfold indexed. apply in_flat_map.
    exists e. split; [exact Hin|]. rewrite Ei. now left.
  - right. unfold named. apply filter_In. split; [exact Hin|]. now rewrite Ei.
Qed.

Lemma config_case_set updateUserConfig prefix sender key value1 more userConfig :
  fst (fst (config_case updateUserConfig prefix sender
              ("set"%string :: key :: value1 :: more) userConfig))
  = JsObject.set userConfig (toUpperCase key)
      (if String.eqb (toUpperCase key) "AUTO_LIKE_EMOJI"
       then VArr (split_char ","%char (join " " (value1 :: more)))
       else VStr (join " " (value1 :: more))).
Proof.
  unfold config_case.
  change (arg0_is ("set"%string :: key :: value1 :: more) "set") with true.
  change (3 <=? List.length ("set"%string :: key :: value1 :: more))%nat with true.
  cbn [andb nth skipn].
  destruct (String.eqb (toUpperCase key) "AUTO_LIKE_EMOJI");
    destruct updateUserConfig; reflexivity.
Qed.

(** [case 'config'] on its tokens: after [set], whether or not the
    configuration could be saved, the object holds under
    [args[1].toUpperCase()] the tokens from the third on joined by single
    spaces, or for [AUTO_LIKE_EMOJI] the pieces of that between commas, and
    [view] sends a text with the line of that entry. *)
Lemma config_set_then_view :
  forall (updateUserConfig : bool) (prefix : value) (sender key value1 : string)
         (more : list string) (userConfig : JsObject.t),
    let KEY := toUpperCase key in
    let VALUE := join " " (value1 :: more) in
    let userConfig' :=
      fst (fst (config_case updateUserConfig prefix sender
                  ("set"%string :: key :: value1 :: more) userConfig)) in
    JsObject.get userConfig' KEY
    = Some (if String.eqb KEY "AUTO_LIKE_EMOJI"
            then VArr (split_char ","%char VALUE) else VStr VALUE)
    /\ exists before after,
         config_case updateUserConfig prefix sender ["view"%string] userConfig'
         = (userConfig',
            [TextMessage sender
               (before ++ "• " ++ KEY ++ ": "
                ++ (if String.eqb KEY "AUTO_LIKE_EMOJI"
                    then join ", " (split_char ","%char VALUE) else VALUE)
                ++ nl ++ after)%string],
            None).
Proof.
  intros updateUserConfig prefix sender key value1 more userConfig KEY VALUE userConfig'.
  unfold userConfig'. rewrite config_case_set. fold KEY. fold VALUE.
  set (stored := if String.eqb KEY "AUTO_LIKE_EMOJI"
                 then VArr (split_char ","%char VALUE) else VStr VALUE).
  split; [apply get_set_same|].
  assert (Hin : In (KEY, stored) (entries (JsObject.set userConfig KEY stored)))
    by (apply entries_in, in_set).
  destruct (concat_map_in config_line _ _ Hin) as (pre & post & Hcat).
  exists ("*📋 Your Current Config:*" ++ nl ++ nl ++ pre)%string,
         (post ++ nl ++ footer)%string.
  unfold config_case.
  change (arg0_is ["view"%string] "set") with false.
  change (arg0_is ["view"%string] "view") with true.
  cbn [andb]. unfold config_text. rewrite Hcat.
  unfold config_line. cbn [fst snd].
  replace (show stored)
    with (if String.eqb KEY "AUTO_LIKE_EMOJI"
          then join ", " (split_char ","%char VALUE) else VALUE)
    by (unfold stored; destruct (String.eqb KEY "AUTO_LIKE_EMOJI"); reflexivity).
  rewrite !append_assoc. reflexivity.
Qed.

(** [config set FOO bar] followed by [config view]. *)
Example config_set_foo_bar :
  let '(cfg, _, _) := config_case true (VStr ".") "94770000001@s.whatsapp.net"
                        ["set"; "FOO"; "bar"]%string [] in
  config_case true (VStr ".") "94770000001@s.whatsapp.net" ["view"%string] cfg
  = (cfg,
     [TextMessage "94770000001@s.whatsapp.net"
        ("*📋 Your Current Config:*" ++ nl ++ nl ++ "• FOO: bar" ++ nl ++ nl ++ footer)],
     None).
Proof. vm_compute. reflexivity. Qed.

Lemma first_unresolved_in scope reads x :
  In x reads -> resolve scope x <> None -> first_unresolved scope reads <> None.
Proof.
  induction reads as [|y r IH]; simpl; [tauto|].
  intros [-> | Hin] Hx.
  - destruct (resolve scope x); [discriminate | contradiction].
  - destruct (resolve scope y); [discriminate | now apply IH].
Qed.

(** C10.  In the scope that [src/pair.js] gives the body of [case 'menu'],
    which binds [defaultConfig] and [userConfig] but not [config], every run
    of the case stops with a reference error on [config] before anything is
    handed to [sendMessage]; and in any scope without a binding for
    [config], whatever else it binds, the case raises an error and sends
    nothing. *)
Theorem menu_raises_before_reply :
  forall (scope : list string) (sender caption url : string),
    (resolve scope "config" <> None ->
     fst (menu_case scope sender caption url) = []
     /\ snd (menu_case scope sender caption url) <> None)
    /\ menu_case menu_scope sender caption url = ([], Some (ReferenceError "config"))
    /\ resolve menu_scope "config" = Some (ReferenceError "config")
    /\ resolve menu_scope "defaultConfig" = None
    /\ resolve menu_scope "userConfig" = None.
Proof.
  intros scope sender caption url. split; [|repeat split].
  intros Hconfig. unfold menu_case.
  assert (Hreads : first_unresolved scope (menu_setup_reads ++ menu_caption_reads) <> None).
  { apply (first_unresolved_in scope _ "config"); [|exact Hconfig].
    apply in_or_app. right. unfold menu_caption_reads.
    apply in_or_app. right. simpl. now left. }
  destruct (first_unresolved scope (menu_setup_reads ++ menu_caption_reads));
    [|contradiction].
  split; [reflexivity | discriminate].
Qed.

Lemma menu_raises_before_reply_witness :
  resolve menu_scope "config" <> None /\
  fst (menu_case menu_scope "94770000001@s.whatsapp.net" "menu" "./dyby.png") = [] /\
  snd (menu_case menu_scope "94770000001@s.whatsapp.net" "menu" "./dyby.png") <> None.
Proof.
  assert (H : resolve menu_scope "config" <> None) by (vm_compute; discriminate).
  split; [exact H|].
  exact (proj1 (menu_raises_before_reply menu_scope
                  "94770000001@s.whatsapp.net" "menu" "./dyby.png") H).
Defined.

End CommandsProps.

(* ================================================================== *)
(** * Part III: further properties of the code *)
(* ================================================================== *)

(** ** [cleanDuplicateFiles] under failures and on repetition *)

Module ArchiveMore.

Import JsString Archive ArchiveAfter ArchiveProps.

Local Open Scope Z_scope.

Lemma delete_each_split deleteFile l :
  exists kept_back,
    l = delete_each deleteFile l ++ kept_back /\
    Forall (fun f => deleteFile f = true) (delete_each deleteFile l) /\
    match kept_back with
    | [] => True
    | f :: _ => deleteFile f = false
    end.
Proof.
  induction l as [|f r IH]; simpl.
  - exists []. repeat split. constructor.
  - destruct (deleteFile f) eqn:E.
    + destruct IH as (kb & Hl & Hall & Hkb).
      exists kb. repeat split; [simpl; now rewrite <- Hl | now constructor | exact Hkb].
    + exists (f :: r). repeat split; [constructor | exact E].
Qed.

(** With the client there and the listing read, the files deleted are those
    that [delete_each] takes from the ranking after its first entry. *)
Lemma cleanDuplicateFiles_ranked number data deleteFile :
  cleanDuplicateFiles true (Some data) deleteFile number
  = delete_each deleteFile
      (List.tl (sort_newest_first (List.filter (is_session_file (sanitize number)) data))).
Proof.
  unfold cleanDuplicateFiles. simpl.
  destruct (sort_newest_first (List.filter (is_session_file (sanitize number)) data))
    as [|kept [|g rest]]; reflexivity.
Qed.

(** X1.  Whatever fails, cleanup only deletes listed candidates of the
    number whose deletion request succeeded, and when the listing has no
    repeated entry and its embedded timestamps are at most [2^53] (so that
    the numbers compared are the integers written in the names) it leaves
    in place a candidate of highest timestamp; without a client, or when
    the listing cannot be read, it deletes nothing. *)
Theorem cleanup_spares_a_newest :
  forall (octokit : bool) (deleteFile : file -> bool) (number : string)
         (data : list file),
    NoDup data ->
    exact_times data ->
    let candidates := List.filter (is_session_file (sanitize number)) data in
    let deleted := cleanDuplicateFiles octokit (Some data) deleteFile number in
    (forall f, In f deleted -> In f candidates /\ deleteFile f = true) /\
    (candidates <> [] ->
     exists kept,
       In kept candidates /\ ~ In kept deleted /\
       forall f, In f candidates -> embedded_time f <= embedded_time kept) /\
    cleanDuplicateFiles false (Some data) deleteFile number = [] /\
    cleanDuplicateFiles octokit None deleteFile number = [].
Proof.
  intros octokit deleteFile number data Hnd _ candidates deleted.
  assert (Hnone : cleanDuplicateFiles octokit None deleteFile number = [])
    by (unfold cleanDuplicateFiles; now destruct octokit).
  pose proof (sort_newest_first_perm candidates) as Hperm.
  pose proof (sort_newest_first_sorted candidates) as Hsorted.
  assert (Hsub : exists kept_back,
             List.tl (sort_newest_first candidates) = deleted ++ kept_back
             \/ deleted = []).
  { destruct octokit.
    - unfold deleted. rewrite cleanDuplicateFiles_ranked. fold candidates.
      destruct (delete_each_split deleteFile (List.tl (sort_newest_first candidates)))
        as (kb & Hl & _). exists kb. now left.
    - exists []. now right. }
  assert (Hok : forall f, In f deleted -> deleteFile f = true).
  { destruct octokit; [|intros f []].
    unfold deleted. rewrite cleanDuplicateFiles_ranked. fold candidates.
    destruct (delete_each_split deleteFile (List.tl (sort_newest_first candidates)))
      as (kb & _ & Hall & _). now apply Forall_forall. }
  destruct Hsub as (kb & Hsub).
  assert (Hin : forall f, In f deleted -> In f (List.tl (sort_newest_first candidates))).
  { intros f Hf. destruct Hsub as [-> | E]; [apply in_or_app; now left|].
    rewrite E in Hf. destruct Hf. }
  repeat split; try assumption.
  - apply (Permutation_in _ Hperm).
    apply Hin in H. destruct (sort_newest_first candidates); [destruct H | now right].
  - now apply Hok.
  - intros Hne.
    assert (Hndc : NoDup (sort_newest_first candidates)).
    { eapply Permutation_NoDup; [apply Permutation_sym, Hperm|].
      now apply NoDup_filter. }
    destruct (sort_newest_first candidates) as [|kept rest] eqn:Es.
    { apply Permutation_nil in Hperm. contradiction. }
    exists kept.
    apply NoDup_cons_iff in Hndc. destruct Hndc as [Hnotin _].
    apply StronglySorted_inv in Hsorted. destruct Hsorted as [_ Hall].
    rewrite Forall_forall in Hall.
    split; [apply (Permutation_in _ Hperm); now left|].
    split; [intros Hd; apply Hnotin; now apply Hin in Hd|].
    intros f Hf. apply (Permutation_in _ (Permutation_sym Hperm)) in Hf.
    destruct Hf as [-> | Hf]; [lia | now apply Hall].
Qed.

Lemma cleanup_spares_a_newest_witness :
  let data := [creds_555_100; creds_555_50; creds_555_200] in
  let deleted :=
    cleanDuplicateFiles true (Some data)
      (fun f => negb (String.eqb (name f) "creds_555_100.json")) "555" in
  NoDup data /\ exact_times data /\
  exists kept,
    In kept data /\ ~ In kept deleted /\
    forall f, In f data -> embedded_time f <= embedded_time kept.
Proof.
  assert (Hnd : NoDup [creds_555_100; creds_555_50; creds_555_200]).
  { repeat constructor; simpl; intros H;
      repeat (destruct H as [H | H]; [discriminate|]); exact H. }
  assert (Hex : exact_times [creds_555_100; creds_555_50; creds_555_200]).
  { repeat constructor; vm_compute; discriminate. }
  split; [exact Hnd|]. split; [exact Hex|].
  destruct (cleanup_spares_a_newest true
              (fun f => negb (String.eqb (name f) "creds_555_100.json")) "555"
              [creds_555_100; creds_555_50; creds_555_200] Hnd Hex)
    as (_ & Hkeep & _).
  exact (Hkeep ltac:(vm_compute; discriminate)).
Defined.

(** X2.  A deletion that fails ends the cleanup: the files deleted are the
    candidates ranked after the newest up to the first one whose request
    fails, and that one and all ranked after it stay. *)
Theorem cleanup_stops_at_failed_deletion :
  forall (deleteFile : file -> bool) (number : string) (data : list file),
    let ranked :=
      List.tl (sort_newest_first (List.filter (is_session_file (sanitize number)) data)) in
    let deleted := cleanDuplicateFiles true (Some data) deleteFile number in
    exists kept_back,
      ranked = deleted ++ kept_back /\
      Forall (fun f => deleteFile f = true) deleted /\
      match kept_back with
      | [] => True
      | f :: _ => deleteFile f = false
      end.
Proof.
  intros deleteFile number data. cbv zeta.
  rewrite cleanDuplicateFiles_ranked. apply delete_each_split.
Qed.

Lemma one_element_list {A} (a : A) (l : list A) :
  NoDup l -> (forall x, In x l -> x = a) -> (List.length l <= 1)%nat.
Proof.
  intros Hnd Hall. destruct l as [|x [|y r]]; simpl; try lia.
  exfalso. apply NoDup_cons_iff in Hnd. destruct Hnd as [Hnotin _].
  apply Hnotin. rewrite (Hall x) by now left.
  rewrite (Hall y) by (right; now left). now left.
Qed.

Lemma short_listing_untouched number data deleteFile :
  (List.length (List.filter (is_session_file (sanitize number)) data) <= 1)%nat ->
  cleanDuplicateFiles true (Some data) deleteFile number = [].
Proof.
  intros Hlen. unfold cleanDuplicateFiles. simpl.
  rewrite (Permutation_length (sort_newest_first_perm _)).
  destruct (1 <? List.length (List.filter (is_session_file (sanitize number)) data))%nat
    eqn:E; [|reflexivity].
  apply Nat.ltb_lt in E. lia.
Qed.

(** X3.  After a cleanup whose deletions all succeed, on a listing with
    distinct file names, a second cleanup of what is left for the same
    number finds nothing to delete. *)
Theorem cleanup_twice_deletes_nothing :
  forall (number : string) (data : list file) (deleteFile deleteFile' : file -> bool),
    NoDup (List.map name data) ->
    (forall f, In f data -> deleteFile f = true) ->
    let deleted := cleanDuplicateFiles true (Some data) deleteFile number in
    cleanDuplicateFiles true (Some (remaining data deleted)) deleteFile' number = [].
Proof.
  intros number data deleteFile deleteFile' Hnames Hdel deleted.
  set (candidates := List.filter (is_session_file (sanitize number)) data).
  assert (Hd : deleted = List.tl (sort_newest_first candidates))
    by (apply cleanDuplicateFiles_tail; exact Hdel).
  pose proof (sort_newest_first_perm candidates) as Hperm.
  assert (Hnd : NoDup data) by (eapply NoDup_map_inv; exact Hnames).
  apply short_listing_untouched.
  destruct (sort_newest_first candidates) as [|kept rest] eqn:Es.
  - apply Permutation_nil in Hperm.
    assert (Hsub : forall f,
               In f (List.filter (is_session_file (sanitize number))
                       (remaining data deleted)) -> False).
    { intros f Hf. apply filter_In in Hf. destruct Hf as [Hf Hc].
      unfold remaining in Hf. apply filter_In in Hf. destruct Hf as [Hf _].
      assert (In f candidates) by (apply filter_In; auto).
      rewrite Hperm in H. destruct H. }
    destruct (List.filter (is_session_file (sanitize number)) (remaining data deleted))
      as [|x r]; [simpl; lia|]. exfalso. apply (Hsub x). now left.
  - simpl in Hd. apply (one_element_list kept).
    + apply NoDup_filter. unfold remaining. now apply NoDup_filter.
    + intros f Hf. apply filter_In in Hf. destruct Hf as [Hf Hc].
      unfold remaining in Hf. apply filter_In in Hf. destruct Hf as [Hf Hkeep].
      assert (Hcand : In f candidates) by (apply filter_In; auto).
      apply (Permutation_in _ (Permutation_sym Hperm)) in Hcand.
      destruct Hcand as [<- | Hrest]; [reflexivity|].
      exfalso. apply negb_true_iff in Hkeep.
      assert (Hex : existsb (fun d => String.eqb (name d) (name f)) deleted = true).
      { apply existsb_exists. exists f. split; [now rewrite Hd | apply String.eqb_refl]. }
      congruence.
Qed.

Lemma cleanup_twice_deletes_nothing_witness :
  let data := [creds_555_100; creds_555_50; creds_555_200] in
  let deleted := cleanDuplicateFiles true (Some data) (fun _ => true) "555" in
  remaining data deleted = [creds_555_200] /\
  cleanDuplicateFiles true (Some (remaining data deleted)) (fun _ => true) "555" = [].
Proof.
  split; [vm_compute; reflexivity|].
  apply (cleanup_twice_deletes_nothing "555"
           [creds_555_100; creds_555_50; creds_555_200] (fun _ => true) (fun _ => true)).
  - repeat constructor; simpl; intros H;
      repeat (destruct H as [H | H]; [discriminate|]); exact H.
  - intros; reflexivity.
Defined.

Lemma filter_idempotent p s : JsString.filter p (JsString.filter p s) = JsString.filter p s.
Proof.
  induction s as [|c r IH]; simpl; [reflexivity|].
  destruct (p c) eqn:E; simpl; [rewrite E; now rewrite IH | exact IH].
Qed.

(** X4.  Only the digits of the number count: cleanup for a number written
    with a plus sign, spaces or dashes is cleanup for its digits. *)
Theorem cleanup_reads_digits_only :
  forall (octokit : bool) (getContent : option (list file))
         (deleteFile : file -> bool) (number : string),
    cleanDuplicateFiles octokit getContent deleteFile number
    = cleanDuplicateFiles octokit getContent deleteFile (sanitize number)
    /\ JsString.forallb is_digit (sanitize number) = true.
Proof.
  intros octokit getContent deleteFile number. split.
  - unfold cleanDuplicateFiles, sanitize. now rewrite filter_idempotent.
  - unfold sanitize. induction number as [|c r IH]; simpl; [reflexivity|].
    destruct (is_digit c) eqn:E; simpl; [now rewrite E | exact IH].
Qed.

End ArchiveMore.

(** ** The admin list and the connect message *)

Module AdminMore.

Import JsString Admin.

Local Open Scope Z_scope.

(** X5.  Once a list has been read at time [t0], every call made less than
    five minutes after [t0] hands back that list and leaves the cache as it
    is, whatever has become of the file. *)
Theorem loadAdmins_serves_cache_within_ttl :
  forall (admins : list string) (t0 : Z) (calls : list (Z * admin_file)),
    Forall (fun call => fst call - t0 < ADMIN_CACHE_TTL) calls ->
    loads calls (mkCache (Some admins) t0)
    = (List.map (fun _ => admins) calls, mkCache (Some admins) t0).
Proof.
  intros admins t0 calls H. induction H as [|[now file] r Hlt _ IH].
  - reflexivity.
  - cbn [loads List.map]. unfold loadAdmins. cbn [adminCache adminCacheTime].
    simpl in Hlt. apply Z.ltb_lt in Hlt. rewrite Hlt. now rewrite IH.
Qed.

Lemma loadAdmins_serves_cache_within_ttl_witness :
  loads [(1700000100000, Missing); (1700000200000, Content ["94770000009"%string])]
        (snd (loadAdmins 1700000000000 (Content ["94770000001"%string]) initial_cache))
  = ([["94770000001"%string]; ["94770000001"%string]],
     mkCache (Some ["94770000001"%string]) 1700000000000).
Proof.
  apply (loadAdmins_serves_cache_within_ttl ["94770000001"%string] 1700000000000
           [(1700000100000, Missing);
            (1700000200000, Content ["94770000009"%string])]).
  repeat constructor.
Defined.

(** When the file is missing or cannot be read, [loadAdmins] leaves the
    cache as it is and hands back the cached list if it is younger than
    five minutes, and the empty list otherwise, also when an older list is
    cached. *)
Theorem loadAdmins_without_file :
  forall (now : Z) (file : admin_file) (c : cache),
    (forall admins, file <> Content admins) ->
    snd (loadAdmins now file c) = c /\
    fst (loadAdmins now file c)
    = match adminCache c with
      | Some cached => if now - adminCacheTime c <? ADMIN_CACHE_TTL then cached else []
      | None => []
      end.
Proof.
  intros now file c Hfile. unfold loadAdmins.
  destruct file as [| |admins]; [| |now contradiction (Hfile admins)];
    destruct (adminCache c) as [cached|];
    try destruct (now - adminCacheTime c <? ADMIN_CACHE_TTL); split; reflexivity.
Qed.

Lemma loadAdmins_without_file_witness :
  loadAdmins 1700000400000 Missing (mkCache (Some ["94770000001"%string]) 1700000000000)
  = ([], mkCache (Some ["94770000001"%string]) 1700000000000).
Proof.
  destruct (loadAdmins_without_file 1700000400000 Missing
              (mkCache (Some ["94770000001"%string]) 1700000000000)
              ltac:(intros; discriminate)) as (H1 & H2).
  rewrite (surjective_pairing (loadAdmins _ _ _)), H1, H2. reflexivity.
Defined.

Lemma send_each_trace caption admins : forall w,
  let tr := fst (send_each caption admins w) in
  recipients tr = List.map (fun a => (a ++ "@s.whatsapp.net")%string) admins /\
  captions tr = List.map (fun _ => caption) admins /\
  List.length (sent_ok tr) = List.length admins /\
  delay_count tr = List.length (List.filter (fun b => b) (sent_ok tr)) /\
  error_count tr = List.length (List.filter negb (sent_ok tr)).
Proof.
  induction admins as [|a r IH]; intros w.
  - simpl. repeat split.
  - cbn [send_each]. destruct (next w) as [ok w1]. specialize (IH w1).
    destruct (send_each caption r w1) as [tr w2]. cbn [fst] in *.
    destruct IH as (Hr & Hc & Hl & Hd & He).
    unfold recipients, captions, sent_ok, delay_count, error_count in *.
    destruct ok; simpl; rewrite ?Hr, ?Hc, ?Hl, ?Hd, ?He; repeat split.
Qed.

Lemma send_each_shape caption admins : forall w,
  let tr := fst (send_each caption admins w) in
  tr = flat_map
         (fun ao : string * bool =>
            [SendImage (fst ao ++ "@s.whatsapp.net") image_path caption (snd ao);
             if snd ao then Delay 100 else LogError (fst ao)])
         (List.combine admins (sent_ok tr)).
Proof.
  induction admins as [|a r IH]; intros w.
  - reflexivity.
  - cbn [send_each]. destruct (next w) as [ok w1]. specialize (IH w1).
    destruct (send_each caption r w1) as [tr w2]. cbn [fst] in *.
    change (sent_ok (SendImage (a ++ "@s.whatsapp.net") image_path caption ok
                     :: (if ok then Delay 100 else LogError a) :: tr))
      with (ok :: sent_ok ((if ok then Delay 100 else LogError a) :: tr)).
    replace (sent_ok ((if ok then Delay 100 else LogError a) :: tr)) with (sent_ok tr)
      by now destruct ok.
    cbn [List.combine flat_map List.app fst snd]. now rewrite <- IH.
Qed.

Lemma firstn_repeat_more (n : nat) : forall (l : list bool) (k : nat),
  (n <= List.length l + k)%nat ->
  firstn n (l ++ repeat true (S k)) = firstn n (l ++ repeat true k).
Proof.
  induction n as [|n IH]; intros l k Hle; [reflexivity|].
  destruct l as [|b l].
  - destruct k as [|k]; [simpl in Hle; lia|].
    cbn [List.app repeat firstn]. f_equal.
    apply (IH [] k). simpl in *. lia.
  - cbn [List.app firstn]. f_equal. apply IH. simpl in Hle. lia.
Qed.

Lemma send_each_outcomes caption admins : forall w,
  sent_ok (fst (send_each caption admins w))
  = firstn (List.length admins) (w ++ repeat true (List.length admins)).
Proof.
  induction admins as [|a r IH]; intros w.
  - reflexivity.
  - cbn [send_each]. destruct w as [|b w1]; cbn [next].
    + specialize (IH []). destruct (send_each caption r []) as [tr w2].
      cbn [fst] in *. cbn [List.length List.app repeat firstn].
      change (sent_ok (SendImage (a ++ "@s.whatsapp.net") image_path caption true
                       :: Delay 100 :: tr))
        with (true :: sent_ok tr).
      now rewrite IH.
    + specialize (IH w1). destruct (send_each caption r w1) as [tr w2].
      cbn [fst] in *.
      change (sent_ok (SendImage (a ++ "@s.whatsapp.net") image_path caption b
                       :: (if b then Delay 100 else LogError a) :: tr))
        with (b :: sent_ok ((if b then Delay 100 else LogError a) :: tr)).
      replace (sent_ok ((if b then Delay 100 else LogError a) :: tr)) with (sent_ok tr)
        by now destruct b.
      cbn [List.length List.app firstn]. f_equal. rewrite IH.
      symmetry. apply firstn_repeat_more. lia.
Qed.

(** X6.  The connect message goes once to every admin of the list that
    [loadAdmins] hands back, in order, at [<admin>@s.whatsapp.net], with
    the image of [IMAGE_PATH] and the same caption, whatever sends fail.
    The trace is, admin after admin, the send immediately followed by the
    100 ms pause when it succeeded and by the log line for that admin when
    it failed, and nothing else; the outcome of the i-th send is the i-th
    outcome given, so a failure does not stop the sends that remain. *)
Theorem connect_message_reaches_every_admin :
  forall (now : Z) (file : admin_file) (number : string) (c : cache) (w : list bool),
    let admins := fst (loadAdmins now file c) in
    let tr := snd (fst (sendAdminConnectMessage now file number c w)) in
    tr = flat_map
           (fun ao : string * bool =>
              [SendImage (fst ao ++ "@s.whatsapp.net") "./dyby.png"
                 (connect_caption number) (snd ao);
               if snd ao then Delay 100 else LogError (fst ao)])
           (List.combine admins (sent_ok tr)) /\
    sent_ok tr = firstn (List.length admins) (w ++ repeat true (List.length admins)) /\
    recipients tr = List.map (fun a => (a ++ "@s.whatsapp.net")%string) admins /\
    captions tr = List.map (fun _ => connect_caption number) admins /\
    List.length (sent_ok tr) = List.length admins /\
    delay_count tr = List.length (List.filter (fun b => b) (sent_ok tr)) /\
    error_count tr = List.length (List.filter negb (sent_ok tr)).
Proof.
  intros now file number c w. cbv zeta. unfold sendAdminConnectMessage.
  destruct (loadAdmins now file c) as [admins c'].
  pose proof (send_each_trace (connect_caption number) admins w) as H.
  pose proof (send_each_shape (connect_caption number) admins w) as Hs.
  pose proof (send_each_outcomes (connect_caption number) admins w) as Ho.
  destruct (send_each (connect_caption number) admins w) as [tr w'].
  cbn [fst snd] in *. split; [exact Hs|]. split; [exact Ho|]. exact H.
Qed.

Lemma connect_message_reaches_every_admin_witness :
  snd (fst (sendAdminConnectMessage 1700000000000
              (Content ["94770000001"%string; "94770000002"%string]) "94771234567"
              initial_cache [false; true]))
  = [SendImage "94770000001@s.whatsapp.net" "./dyby.png"
       (connect_caption "94771234567") false;
     LogError "94770000001";
     SendImage "94770000002@s.whatsapp.net" "./dyby.png"
       (connect_caption "94771234567") true;
     Delay 100].
Proof.
  rewrite (proj1 (connect_message_reaches_every_admin 1700000000000
                    (Content ["94770000001"%string; "94770000002"%string])
                    "94771234567"%string initial_cache [false; true])).
  rewrite (proj1 (proj2 (connect_message_reaches_every_admin 1700000000000
                    (Content ["94770000001"%string; "94770000002"%string])
                    "94771234567"%string initial_cache [false; true]))).
  reflexivity.
Defined.

End AdminMore.

(** ** The throttled profile updates *)

Module ProfileMore.

Import Profile.

Local Open Scope Z_scope.

Section Throttle.

Variable begin : nat -> Z -> state -> state.
Variable resume : request -> bool -> Z -> Z * list effect.
Variable interval : Z.
Hypothesis interval_pos : 0 < interval.

Hypothesis begin_tests_then_suspends :
  forall socket now st,
    begin socket now st
    = if now - last st <? interval then st
      else mkState (last st) (pending st ++ [mkRequest socket now]).

Hypothesis resume_writes_on_success :
  forall r ok l,
    fst (resume r ok l) = (if ok then r_now r else l) /\
    succeeded (snd (resume r ok l)) = ok.

Lemma update_times_spaced steps : forall st,
  (pending st = [] \/
   exists r, pending st = [r] /\ interval <= r_now r - last st) ->
  one_in_flight begin resume steps st = true ->
  StronglySorted (fun t1 t2 => interval <= t2 - t1) (update_times begin resume steps st) /\
  Forall (fun t => interval <= t - last st) (update_times begin resume steps st).
Proof.
  induction steps as [|s rest IH]; intros st Hinv Hone; [split; constructor|].
  cbn [update_times one_in_flight] in *.
  apply andb_prop in Hone. destruct Hone as [Hlen Hone].
  apply Nat.leb_le in Hlen.
  destruct s as [socket now|i ok]; cbn [exec fst] in *.
  - (* a new call *)
    cbn [succeeded existsb List.app].
    rewrite begin_tests_then_suspends in *.
    destruct (now - last st <? interval) eqn:E.
    + now apply IH.
    + apply Z.ltb_ge in E.
      assert (Hp : pending st = []).
      { destruct Hinv as [Hp|(r & Hp & _)]; [exact Hp|].
        cbn [pending] in Hlen. rewrite Hp in Hlen. simpl in Hlen. lia. }
      rewrite Hp in *. cbn [List.app] in *.
      apply (IH (mkState (last st) [mkRequest socket now])); [|exact Hone].
      right. exists (mkRequest socket now). split; [reflexivity | exact E].
  - (* a suspended call goes on *)
    destruct (nth_error (pending st) i) as [r|] eqn:En.
    + destruct (resume_writes_on_success r ok (last st)) as [Hl Hs].
      destruct (resume r ok (last st)) as [l tr]. cbn [fst snd] in *.
      destruct Hinv as [Hp|(r0 & Hp & Hge)];
        [rewrite Hp in En; destruct i; discriminate|].
      rewrite Hp in En. destruct i as [|i]; [|destruct i; discriminate].
      injection En as <-. rewrite Hp in *. cbn [drop_nth] in *.
      rewrite Hs. subst l. destruct ok.
      * destruct (IH (mkState (r_now r0) []) (or_introl eq_refl) Hone) as [H1 H2].
        cbn [last List.app] in *. split.
        -- now constructor.
        -- constructor; [exact Hge|].
           eapply Forall_impl; [|exact H2]. simpl. intros; lia.
      * destruct (IH (mkState (last st) []) (or_introl eq_refl) Hone) as [H1 H2].
        cbn [last List.app] in *. split; assumption.
    + cbn [succeeded existsb List.app]. now apply IH.
Qed.

End Throttle.

Lemma about_resume_writes r ok l :
  fst (updateAboutStatus_resume r ok l) = (if ok then r_now r else l) /\
  succeeded (snd (updateAboutStatus_resume r ok l)) = ok.
Proof. destruct ok; split; reflexivity. Qed.

Lemma story_resume_writes r ok l :
  fst (updateStoryStatus_resume r ok l) = (if ok then r_now r else l) /\
  succeeded (snd (updateStoryStatus_resume r ok l)) = ok.
Proof. destruct ok; split; reflexivity. Qed.

(** X7.  [updateAboutStatus] tests [lastAboutUpdate] before its [await] and
    writes it after.  As long as no call reaches its [await] while another
    is suspended there, for whatever sockets and outcomes, two updates that
    went through are at least one hour apart and the first is at least one
    hour after the value [lastAboutUpdate] started from.  A call within the
    hour after [lastAboutUpdate] does nothing, for any socket.  Two calls
    that overlap both pass the test and both update, one millisecond
    apart. *)
Theorem about_updates_an_hour_apart :
  forall (steps : list step) (last0 : Z),
    let times :=
      update_times updateAboutStatus updateAboutStatus_resume steps (mkState last0 []) in
    (one_in_flight updateAboutStatus updateAboutStatus_resume steps (mkState last0 [])
     = true ->
     StronglySorted (fun t1 t2 => 3600000 <= t2 - t1) times /\
     Forall (fun t => 3600000 <= t - last0) times) /\
    (forall socket now suspended, now - last0 < 3600000 ->
       updateAboutStatus socket now (mkState last0 suspended) = mkState last0 suspended) /\
    (forall socket now, 3600000 <= now - last0 ->
       exec updateAboutStatus updateAboutStatus_resume (Settle 0 true)
         (updateAboutStatus socket now (mkState last0 []))
       = (mkState now [], [UpdateProfileStatus socket true])) /\
    update_times updateAboutStatus updateAboutStatus_resume
      [Call 1 3600000; Call 2 3600001; Settle 0 true; Settle 0 true] (mkState 0 [])
    = [3600000; 3600001].
Proof.
  intros steps last0 times. repeat split.
  - apply (update_times_spaced updateAboutStatus updateAboutStatus_resume
             ABOUT_UPDATE_INTERVAL ltac:(unfold ABOUT_UPDATE_INTERVAL; lia)
             ltac:(reflexivity) about_resume_writes steps (mkState last0 [])
             (or_introl eq_refl) H).
  - apply (update_times_spaced updateAboutStatus updateAboutStatus_resume
             ABOUT_UPDATE_INTERVAL ltac:(unfold ABOUT_UPDATE_INTERVAL; lia)
             ltac:(reflexivity) about_resume_writes steps (mkState last0 [])
             (or_introl eq_refl) H).
  - intros socket now suspended Hlt. unfold updateAboutStatus. cbn [last].
    apply Z.ltb_lt in Hlt. unfold ABOUT_UPDATE_INTERVAL. now rewrite Hlt.
  - intros socket now Hge. unfold updateAboutStatus. cbn [last].
    apply Z.ltb_ge in Hge. unfold ABOUT_UPDATE_INTERVAL. now rewrite Hge.
Qed.

Lemma about_updates_an_hour_apart_witness :
  update_times updateAboutStatus updateAboutStatus_resume
    [Call 1 1700000000000; Settle 0 true; Call 2 1700000600000;
     Call 2 1700003600000; Settle 0 false; Call 1 1700003600001; Settle 0 true]
    (mkState 0 [])
  = [1700000000000; 1700003600001] /\
  StronglySorted (fun t1 t2 => 3600000 <= t2 - t1) [1700000000000; 1700003600001].
Proof.
  split; [reflexivity|].
  apply (proj1 (about_updates_an_hour_apart
                  [Call 1 1700000000000; Settle 0 true; Call 2 1700000600000;
                   Call 2 1700003600000; Settle 0 false; Call 1 1700003600001;
                   Settle 0 true] 0)).
  reflexivity.
Defined.

(** X8.  [updateStoryStatus] tests [lastStoryUpdate] before its [await] and
    writes it after.  As long as no call reaches its [await] while another
    is suspended there, two stories that were posted are at least
    twenty-four hours apart.  A post that fails is logged and leaves
    [lastStoryUpdate] as it is, so the next call tries again. *)
Theorem story_updates_a_day_apart :
  forall (steps : list step) (last0 : Z),
    let times :=
      update_times updateStoryStatus updateStoryStatus_resume steps (mkState last0 []) in
    (one_in_flight updateStoryStatus updateStoryStatus_resume steps (mkState last0 [])
     = true ->
     StronglySorted (fun t1 t2 => 86400000 <= t2 - t1) times /\
     Forall (fun t => 86400000 <= t - last0) times) /\
    (forall socket now now', 86400000 <= now - last0 -> 86400000 <= now' - last0 ->
       exec updateStoryStatus updateStoryStatus_resume (Settle 0 false)
         (updateStoryStatus socket now (mkState last0 []))
       = (mkState last0 [], [PostStory socket false; LogError]) /\
       updateStoryStatus socket now' (mkState last0 [])
       = mkState last0 [mkRequest socket now']) /\
    update_times updateStoryStatus updateStoryStatus_resume
      [Call 1 86400000; Call 2 86400001; Settle 1 true; Settle 0 true] (mkState 0 [])
    = [86400001; 86400000].
Proof.
  intros steps last0 times. repeat split.
  - apply (update_times_spaced updateStoryStatus updateStoryStatus_resume
             STORY_UPDATE_INTERVAL ltac:(unfold STORY_UPDATE_INTERVAL; lia)
             ltac:(reflexivity) story_resume_writes steps (mkState last0 [])
             (or_introl eq_refl) H).
  - apply (update_times_spaced updateStoryStatus updateStoryStatus_resume
             STORY_UPDATE_INTERVAL ltac:(unfold STORY_UPDATE_INTERVAL; lia)
             ltac:(reflexivity) story_resume_writes steps (mkState last0 [])
             (or_introl eq_refl) H).
  - unfold updateStoryStatus. cbn [last].
    apply Z.ltb_ge in H. unfold STORY_UPDATE_INTERVAL. now rewrite H.
  - unfold updateStoryStatus. cbn [last].
    apply Z.ltb_ge in H0. unfold STORY_UPDATE_INTERVAL. now rewrite H0.
Qed.

Lemma story_updates_a_day_apart_witness :
  update_times updateStoryStatus updateStoryStatus_resume
    [Call 1 1700000000000; Settle 0 false; Call 1 1700000000500; Settle 0 true;
     Call 2 1700050000000; Call 2 1700086400500; Settle 0 true]
    (mkState 0 [])
  = [1700000000500; 1700086400500] /\
  StronglySorted (fun t1 t2 => 86400000 <= t2 - t1) [1700000000500; 1700086400500].
Proof.
  split; [reflexivity|].
  apply (proj1 (story_updates_a_day_apart
                  [Call 1 1700000000000; Settle 0 false; Call 1 1700000000500;
                   Settle 0 true; Call 2 1700050000000; Call 2 1700086400500;
                   Settle 0 true] 0)).
  reflexivity.
Defined.

End ProfileMore.

(** ** The status listener: what arms the cooldown and what ends an event *)

Module StatusMore.

Import JsString JsObject WAMessage Status StatusProps StatusFlow.

Local Open Scope Z_scope.

(** How the read loop ends, and what it leaves in the trace. *)
Lemma read_retry_flow parsed n : forall w,
  let '(c, tr, _) := read_retry parsed n w in
  (n = O -> tr = []) /\
  (n <> O -> read_outcomes tr <> []) /\
  (c = Thrown -> any (read_outcomes tr) = false) /\
  (c = Done -> n = O \/ any (read_outcomes tr) = true).
Proof.
  induction n as [|r IH]; intros w.
  - simpl. repeat split; auto; try discriminate.
  - cbn [read_retry]. destruct (next w) as [ok w1]. destruct ok.
    + simpl. repeat split; auto; discriminate.
    + destruct r as [|r'].
      * simpl. repeat split; auto; discriminate.
      * specialize (IH w1).
        destruct (read_retry parsed (S r') w1) as [[c tr] w2].
        destruct IH as (_ & _ & Ht & Hd).
        simpl. repeat split; try discriminate; try assumption.
        intros Hc. right. destruct (Hd Hc) as [E | E]; [discriminate | exact E].
Qed.

(** How the reaction loop ends, and what it leaves. *)
Lemma react_retry_flow parsed emoji now n : forall last w,
  let '(c, last', tr, _) := react_retry parsed emoji now n last w in
  (n = O -> tr = []) /\
  last' = (if any (react_outcomes tr) then now else last).
Proof.
  induction n as [|r IH]; intros last w.
  - simpl. auto.
  - cbn [react_retry]. destruct (next w) as [ok w1]. destruct ok.
    + simpl. split; [discriminate | reflexivity].
    + destruct r as [|r'].
      * simpl. split; [discriminate | reflexivity].
      * specialize (IH last w1).
        destruct (react_retry parsed emoji now (S r') last w1) as [[[c last'] tr] w2].
        destruct IH as (_ & Hl). simpl. split; [discriminate | exact Hl].
Qed.

Lemma backoff_at_least_a_second parsed r :
  (S (S r) <= Z.to_nat (initial_retries parsed))%nat ->
  1000 <= backoff parsed (Z.of_nat (S r)).
Proof.
  unfold backoff, initial_retries.
  destruct parsed as [z|]; [destruct (z =? 0) eqn:E|]; lia.
Qed.

Lemma read_retry_delays parsed n : forall w,
  (n <= Z.to_nat (initial_retries parsed))%nat ->
  Forall (fun d => 1000 <= d) (delays (snd (fst (read_retry parsed n w)))).
Proof.
  induction n as [|r IH]; intros w Hn.
  - constructor.
  - cbn [read_retry]. destruct (next w) as [ok w1]. destruct ok; [constructor|].
    destruct r as [|r']; [constructor|].
    specialize (IH w1 ltac:(lia)).
    destruct (read_retry parsed (S r') w1) as [[c tr] w2]. cbn [fst snd] in *.
    constructor; [now apply backoff_at_least_a_second | exact IH].
Qed.

Lemma react_retry_delays parsed emoji now n : forall last w,
  (n <= Z.to_nat (initial_retries parsed))%nat ->
  Forall (fun d => 1000 <= d)
         (delays (snd (fst (react_retry parsed emoji now n last w)))).
Proof.
  induction n as [|r IH]; intros last w Hn.
  - constructor.
  - cbn [react_retry]. destruct (next w) as [ok w1]. destruct ok; [constructor|].
    destruct r as [|r']; [constructor|].
    specialize (IH last w1 ltac:(lia)).
    destruct (react_retry parsed emoji now (S r') last w1) as [[[c last'] tr] w2].
    cbn [fst snd] in *.
    constructor; [now apply backoff_at_least_a_second | exact IH].
Qed.

(** The flow of the listener on one event. *)
Lemma statusHandler_flow userConfig rnd now m last w :
  let n := Z.to_nat (initial_retries (parseInt (get userConfig "MAX_RETRIES"))) in
  let res := statusHandler userConfig rnd now m last w in
  let tr := snd res in
  fst (fst res) = (if any (react_outcomes tr) then now else last) /\
  (presence_outcomes tr = [false] -> read_outcomes tr = [] /\ react_outcomes tr = []) /\
  (read_outcomes tr <> [] -> any (read_outcomes tr) = false -> react_outcomes tr = []) /\
  (is_string (get userConfig "AUTO_LIKE_STATUS") "true" = false -> react_outcomes tr = []) /\
  (n = O -> read_outcomes tr = [] /\ react_outcomes tr = []) /\
  Forall (fun d => 1000 <= d) (delays tr).
Proof.
  cbv zeta. unfold statusHandler.
  set (parsed := parseInt (get userConfig "MAX_RETRIES")).
  set (n := Z.to_nat (initial_retries parsed)).
  assert (Hidle : forall w0 : list bool,
    let res := (last, w0, @nil effect) in
    let tr := snd res in
    fst (fst res) = (if any (react_outcomes tr) then now else last) /\
    (presence_outcomes tr = [false] -> read_outcomes tr = [] /\ react_outcomes tr = []) /\
    (read_outcomes tr <> [] -> any (read_outcomes tr) = false -> react_outcomes tr = []) /\
    (is_string (get userConfig "AUTO_LIKE_STATUS") "true" = false -> react_outcomes tr = []) /\
    (n = O -> read_outcomes tr = [] /\ react_outcomes tr = []) /\
    Forall (fun d => 1000 <= d) (delays tr)).
  { intros w0. simpl. repeat split; auto; try discriminate; try constructor. }
  destruct (status_key m) as [k|]; [|apply Hidle].
  destruct (now - last <? STATUS_INTERACTION_COOLDOWN); [apply Hidle|].
  assert (Hmain : forall (t1 : list effect) (w1 : list bool),
    t1 = [] \/ t1 = [SendPresenceUpdate true] ->
    let res :=
      (let '(c2, t2, w2) :=
         if is_string (get userConfig "AUTO_VIEW_STATUS") "true"
         then read_retry parsed n w1 else (Done, [], w1) in
       match c2 with
       | Thrown => (last, w2, t1 ++ t2 ++ [LogError])
       | Done =>
           if is_string (get userConfig "AUTO_LIKE_STATUS") "true" then
             let randomEmoji := pick_emoji userConfig rnd in
             let '(c3, last3, t3, w3) :=
               react_retry parsed randomEmoji now n last w2 in
             (last3, w3,
              t1 ++ t2 ++ t3 ++ match c3 with Thrown => [LogError] | Done => [] end)
           else (last, w2, t1 ++ t2)
       end) in
    let tr := snd res in
    fst (fst res) = (if any (react_outcomes tr) then now else last) /\
    (presence_outcomes tr = [false] -> read_outcomes tr = [] /\ react_outcomes tr = []) /\
    (read_outcomes tr <> [] -> any (read_outcomes tr) = false -> react_outcomes tr = []) /\
    (is_string (get userConfig "AUTO_LIKE_STATUS") "true" = false -> react_outcomes tr = []) /\
    (n = O -> read_outcomes tr = [] /\ react_outcomes tr = []) /\
    Forall (fun d => 1000 <= d) (delays tr)).
  { intros t1 w1 Ht1. cbv zeta.
    assert (T1 : presence_outcomes t1 <> [false] /\ read_outcomes t1 = [] /\
                 react_outcomes t1 = [] /\ delays t1 = []).
    { destruct Ht1 as [-> | ->]; simpl; repeat split; discriminate. }
    destruct T1 as (P1 & R1 & X1 & D1).
    assert (Hread : exists c2 t2 w2,
      (if is_string (get userConfig "AUTO_VIEW_STATUS") "true"
       then read_retry parsed n w1 else (Done, [], w1)) = (c2, t2, w2) /\
      presence_outcomes t2 = [] /\ react_outcomes t2 = [] /\
      (n = O -> t2 = []) /\
      (c2 = Thrown -> any (read_outcomes t2) = false) /\
      (c2 = Done -> read_outcomes t2 = [] \/ any (read_outcomes t2) = true) /\
      Forall (fun d => 1000 <= d) (delays t2)).
    { destruct (is_string (get userConfig "AUTO_VIEW_STATUS") "true").
      - pose proof (read_retry_flow parsed n w1) as F.
        pose proof (read_retry_trace parsed n w1) as G.
        pose proof (read_retry_delays parsed n w1 (Nat.le_refl _)) as D.
        destruct (read_retry parsed n w1) as [[c2 t2] w2]. cbn [fst snd] in D.
        destruct F as (F0 & _ & Ft & Fd). destruct G as (Gp & Gx & _).
        exists c2, t2, w2. repeat split; auto.
        intros Hc. destruct (Fd Hc) as [E | E]; [left; now rewrite (F0 E) | now right].
      - exists Done, [], w1. repeat split; auto; try constructor. }
    destruct Hread as (c2 & t2 & w2 & -> & P2 & X2 & N2 & Th2 & Dn2 & D2).
    destruct c2.
    - destruct (is_string (get userConfig "AUTO_LIKE_STATUS") "true") eqn:Elike.
      + pose proof (react_retry_flow parsed (pick_emoji userConfig rnd) now n last w2) as F.
        pose proof (react_retry_trace parsed (pick_emoji userConfig rnd) now n last w2) as G.
        pose proof (react_retry_delays parsed (pick_emoji userConfig rnd) now n last w2
                      (Nat.le_refl _)) as D.
        destruct (react_retry parsed (pick_emoji userConfig rnd) now n last w2)
          as [[[c3 last3] t3] w3]. cbn [fst snd] in *.
        destruct F as (N3 & L3). destruct G as (P3 & R3 & _).
        assert (Hlog : presence_outcomes
                         match c3 with Thrown => [LogError] | Done => [] end = []
                       /\ read_outcomes
                            match c3 with Thrown => [LogError] | Done => [] end = []
                       /\ react_outcomes
                            match c3 with Thrown => [LogError] | Done => [] end = []
                       /\ delays
                            match c3 with Thrown => [LogError] | Done => [] end = [])
          by (destruct c3; simpl; auto).
        destruct Hlog as (P4 & R4 & X4 & D4).
        rewrite !presence_outcomes_app, !read_outcomes_app, !react_outcomes_app,
          !delays_app.
        rewrite P2, P3, P4, R1, R3, R4, X1, X2, X4, D1, D4.
        rewrite ?app_nil_r. cbn [List.app].
        split; [exact L3|]. split; [intros E; now contradiction P1|].
        split.
        { intros Hne Hany. destruct (Dn2 eq_refl) as [E | E]; [contradiction | congruence]. }
        split; [discriminate|].
        split.
        { intros Hn. rewrite (N2 Hn), (N3 Hn). split; reflexivity. }
        apply Forall_app. split; assumption.
      + cbn [fst snd].
        rewrite !presence_outcomes_app, !read_outcomes_app, !react_outcomes_app,
          !delays_app.
        rewrite P2, R1, X1, X2, D1. rewrite ?app_nil_r. cbn [List.app any existsb].
        split; [reflexivity|]. split; [intros E; now contradiction P1|].
        split; [reflexivity|]. split; [reflexivity|].
        split; [intros Hn; now rewrite (N2 Hn)|]. exact D2.
    - cbn [fst snd].
      rewrite !presence_outcomes_app, !read_outcomes_app, !react_outcomes_app,
        !delays_app.
      rewrite P2, R1, X1, X2, D1.
      change (presence_outcomes [LogError]) with (@nil bool).
      change (read_outcomes [LogError]) with (@nil bool).
      change (react_outcomes [LogError]) with (@nil bool).
      change (delays [LogError]) with (@nil Z).
      rewrite ?app_nil_r. cbn [List.app any existsb].
      split; [reflexivity|]. split; [intros E; now contradiction P1|].
      split; [reflexivity|]. split; [reflexivity|].
      split; [intros Hn; now rewrite (N2 Hn)|]. exact D2. }
  destruct (is_string (get userConfig "AUTO_RECORDING") "true"
            && negb (String.eqb (remoteJid k) EmptyString)).
  - destruct (next w) as [ok w']. destruct ok.
    + apply Hmain. now right.
    + simpl. repeat split; auto; try discriminate; try constructor.
  - apply Hmain. now left.
Qed.

Lemma run_ignored_within_cooldown userConfig events : forall last w,
  Forall (fun e => ev_now e - last < STATUS_INTERACTION_COOLDOWN) events ->
  run userConfig events last w = (last, w, []).
Proof.
  induction events as [|e r IH]; intros last w H; [reflexivity|].
  apply Forall_cons_iff in H. destruct H as [He Hr].
  cbn [run]. rewrite (status_ignored_within_cooldown _ _ _ _ _ _ He).
  now rewrite (IH last w Hr).
Qed.

(** X9.  The handling of a status event writes [lastStatusInteraction]
    exactly when a reaction was sent, and what it writes is the time at
    which the handling began; otherwise the variable is left alone.  An
    event whose handling begins less than ten seconds after that time,
    while the variable still holds it, has no effect at all, whatever the
    event, the configuration and the outcomes of the requests. *)
Theorem reaction_arms_status_cooldown :
  forall (userConfig userConfig' : JsObject.t) (rnd rnd' : nat) (now now' : Z)
         (m m' : option WAMessage.t) (last : Z) (w w' : list bool),
    let res := statusHandler userConfig rnd now m last w in
    fst (fst res) = (if any (react_outcomes (snd res)) then now else last) /\
    (any (react_outcomes (snd res)) = true ->
     now' - now < 10000 ->
     statusHandler userConfig' rnd' now' m' (fst (fst res)) w' = (now, w', [])).
Proof.
  intros userConfig userConfig' rnd rnd' now now' m m' last w w' res.
  destruct (statusHandler_flow userConfig rnd now m last w) as (Hlast & _).
  fold res in Hlast. split; [exact Hlast|].
  intros Hany Hwin. rewrite Hlast, Hany.
  unfold statusHandler. destruct (status_key m'); [|reflexivity].
  apply Z.ltb_lt in Hwin. unfold STATUS_INTERACTION_COOLDOWN. now rewrite Hwin.
Qed.

Lemma reaction_arms_status_cooldown_witness :
  fst (fst (statusHandler Config.defaultConfig 0 1699999999000 (Some status_msg) 0 []))
  = 1699999999000 /\
  statusHandler like_disabled 3 1700000008999 (Some status_msg)
    (fst (fst (statusHandler Config.defaultConfig 0 1699999999000 (Some status_msg) 0 [])))
    [false]
  = (1699999999000, [false], []).
Proof.
  split; [vm_compute; reflexivity|].
  apply (proj2 (reaction_arms_status_cooldown Config.defaultConfig like_disabled 0 3
                  1699999999000 1700000008999 (Some status_msg) (Some status_msg)
                  0 [] [false])).
  - vm_compute. reflexivity.
  - reflexivity.
Defined.

(** X10.  An action that gives up ends the handling of the event: when the
    recording presence fails, the status is neither marked viewed nor
    reacted to; when every attempt to mark it viewed fails, no reaction is
    attempted. *)
Theorem failed_status_action_skips_the_rest :
  forall (userConfig : JsObject.t) (rnd : nat) (now : Z) (m : option WAMessage.t)
         (last : Z) (w : list bool),
    let tr := snd (statusHandler userConfig rnd now m last w) in
    (presence_outcomes tr = [false] -> read_outcomes tr = [] /\ react_outcomes tr = []) /\
    (read_outcomes tr <> [] -> any (read_outcomes tr) = false -> react_outcomes tr = []).
Proof.
  intros userConfig rnd now m last w tr.
  destruct (statusHandler_flow userConfig rnd now m last w) as (_ & H1 & H2 & _).
  split; assumption.
Qed.

Lemma failed_status_action_skips_the_rest_witness :
  react_outcomes read_fails_thrice = [].
Proof.
  apply (proj2 (failed_status_action_skips_the_rest Config.defaultConfig 0 1700000000000
                  (Some status_msg) 0 [true; false; false; false])).
  - vm_compute. discriminate.
  - vm_compute. reflexivity.
Defined.

(** X11.  While [AUTO_LIKE_STATUS] is anything but the string ['true'], no
    reaction is sent and [lastStatusInteraction] never changes, over any
    sequence of events. *)
Theorem no_reaction_unless_enabled :
  forall (userConfig : JsObject.t) (events : list event) (last : Z) (w : list bool),
    is_string (get userConfig "AUTO_LIKE_STATUS") "true" = false ->
    fst (fst (run userConfig events last w)) = last /\
    react_outcomes (snd (run userConfig events last w)) = [].
Proof.
  intros userConfig events last w Hlike. revert last w.
  induction events as [|e r IH]; intros last w; [split; reflexivity|].
  cbn [run].
  destruct (statusHandler_flow userConfig (ev_rnd e) (ev_now e) (ev_msg e) last w)
    as (Hlast & _ & _ & Hnone & _).
  specialize (Hnone Hlike). rewrite Hnone in Hlast. cbn [any existsb] in Hlast.
  destruct (statusHandler userConfig (ev_rnd e) (ev_now e) (ev_msg e) last w)
    as [[last1 w1] t1]. cbn [fst snd] in *. subst last1.
  destruct (IH last w1) as (IH1 & IH2).
  destruct (run userConfig r last w1) as [[last2 w2] t2]. cbn [fst snd] in *.
  split; [exact IH1|]. rewrite react_outcomes_app, Hnone, IH2. reflexivity.
Qed.

Lemma no_reaction_unless_enabled_witness :
  fst (fst (run like_disabled five_status_events 0 [])) = 0 /\
  react_outcomes (snd (run like_disabled five_status_events 0 [])) = [].
Proof.
  apply (no_reaction_unless_enabled like_disabled five_status_events 0 []).
  reflexivity.
Defined.

(** X12.  When [MAX_RETRIES] parses to a negative number, the loops are not
    entered: the status is never marked viewed nor reacted to and
    [lastStatusInteraction] stays, although both switches are on. *)
Theorem negative_max_retries_disables_actions :
  forall (userConfig : JsObject.t) (rnd : nat) (now : Z) (m : option WAMessage.t)
         (last : Z) (w : list bool) (z : Z),
    parseInt (get userConfig "MAX_RETRIES") = Some z -> z < 0 ->
    let res := statusHandler userConfig rnd now m last w in
    read_outcomes (snd res) = [] /\ react_outcomes (snd res) = [] /\
    fst (fst res) = last.
Proof.
  intros userConfig rnd now m last w z Hp Hz res.
  destruct (statusHandler_flow userConfig rnd now m last w)
    as (Hlast & _ & _ & _ & Hzero & _).
  fold res in Hlast, Hzero.
  assert (Hn : Z.to_nat (initial_retries (parseInt (get userConfig "MAX_RETRIES"))) = O).
  { rewrite Hp. unfold initial_retries.
    destruct (z =? 0) eqn:E; [apply Z.eqb_eq in E; lia | lia]. }
  destruct (Hzero Hn) as (Hr & Hx).
  rewrite Hx in Hlast. repeat split; assumption.
Qed.

Lemma negative_max_retries_disables_actions_witness :
  let res := statusHandler minus_one_retries 0 1700000000000 (Some status_msg) 0 [] in
  parseInt (get minus_one_retries "MAX_RETRIES") = Some (-1) /\
  read_outcomes (snd res) = [] /\ react_outcomes (snd res) = [] /\ fst (fst res) = 0.
Proof.
  split; [reflexivity|].
  exact (negative_max_retries_disables_actions minus_one_retries 0 1700000000000
           (Some status_msg) 0 [] (-1) eq_refl eq_refl).
Defined.


End StatusMore.

(** ** Trimmed strings and their tokens *)

Module TokenFacts.

Import JsString JsStringFacts TokenShape.

Lemma lower_idempotent c : lower (lower c) = lower c.
Proof. destruct c as [[] [] [] [] [] [] [] []]; reflexivity. Qed.

Lemma lower_space c : is_space (lower c) = is_space c.
Proof. destruct c as [[] [] [] [] [] [] [] []]; reflexivity. Qed.

Lemma toLowerCase_idempotent s : toLowerCase (toLowerCase s) = toLowerCase s.
Proof.
  unfold toLowerCase. induction s as [|c r IH]; simpl; [reflexivity|].
  now rewrite lower_idempotent, IH.
Qed.

Lemma toLowerCase_no_space s :
  JsString.forallb not_space (toLowerCase s) = JsString.forallb not_space s.
Proof.
  unfold toLowerCase, not_space. induction s as [|c r IH]; simpl; [reflexivity|].
  now rewrite lower_space, IH.
Qed.

Lemma toLowerCase_empty s : toLowerCase s = EmptyString -> s = EmptyString.
Proof. destruct s; [reflexivity | discriminate]. Qed.

Lemma list_of_trimStart s :
  list_ascii_of_string (trimStart s) = dropws (list_ascii_of_string s).
Proof.
  induction s as [|c r IH]; simpl; [reflexivity|].
  destruct (is_space c); [exact IH | reflexivity].
Qed.

Lemma list_of_rev s :
  list_ascii_of_string (JsString.rev s) = List.rev (list_ascii_of_string s).
Proof. unfold JsString.rev. apply list_ascii_of_string_of_list_ascii. Qed.

Lemma list_of_trim s :
  list_ascii_of_string (trim s)
  = List.rev (dropws (List.rev (dropws (list_ascii_of_string s)))).
Proof.
  unfold trim, trimEnd.
  now rewrite list_of_rev, list_of_trimStart, list_of_rev, list_of_trimStart.
Qed.

Lemma dropws_head l :
  dropws l = [] \/ exists c r, dropws l = c :: r /\ is_space c = false.
Proof.
  induction l as [|c r IH]; simpl; [now left|].
  destruct (is_space c) eqn:E; [exact IH | right; now exists c, r].
Qed.

Lemma dropws_suffix l : exists sp, l = sp ++ dropws l.
Proof.
  induction l as [|c r [sp IH]]; simpl; [now exists []|].
  destruct (is_space c); [|now exists []].
  exists (c :: sp). simpl. now rewrite <- IH.
Qed.

Lemma last_nonspace_snoc r c :
  last_nonspace (string_of_list_ascii (r ++ [c])) = negb (is_space c).
Proof.
  induction r as [|a r IH]; [reflexivity|].
  destruct r as [|b r']; [reflexivity|].
  change (last_nonspace (string_of_list_ascii ((a :: b :: r') ++ [c])))
    with (last_nonspace (string_of_list_ascii ((b :: r') ++ [c]))).
  exact IH.
Qed.

(** A trimmed string is empty, or starts and ends with a character that is
    not white space. *)
Lemma trim_shape s :
  trim s = EmptyString \/
  (first_nonspace (trim s) = true /\ last_nonspace (trim s) = true).
Proof.
  rewrite <- (string_of_list_ascii_of_string (trim s)), list_of_trim.
  set (x := dropws (list_ascii_of_string s)).
  destruct (dropws_suffix (List.rev x)) as [sp Hsp].
  destruct (dropws_head (List.rev x)) as [E | (c & r & E & Hc)].
  - left. now rewrite E.
  - right. rewrite E in *. simpl List.rev.
    split; [|rewrite last_nonspace_snoc; now rewrite Hc].
    assert (Hx : x = (List.rev r ++ [c]) ++ List.rev sp).
    { rewrite <- (rev_involutive x), Hsp, rev_app_distr. reflexivity. }
    destruct (dropws_head (list_ascii_of_string s)) as [E0 | (c0 & r0 & E0 & Hc0)];
      fold x in E0.
    + rewrite E0 in Hx. destruct (List.rev r); discriminate.
    + rewrite E0 in Hx.
      destruct (List.rev r) as [|a r'']; simpl in Hx; injection Hx as <- _;
        simpl; now rewrite Hc0.
Qed.

Lemma split_ws_go_tokens_nonempty s : forall in_ws acc,
  acc <> EmptyString \/ in_ws = true \/ first_nonspace s = true ->
  (s = EmptyString /\ acc <> EmptyString) \/ last_nonspace s = true ->
  Forall (fun tok => tok <> EmptyString) (split_ws_go in_ws acc s).
Proof.
  induction s as [|c r IH]; intros in_ws acc Hfirst Hlast.
  - simpl. constructor; [|constructor].
    destruct Hlast as [[_ H] | H]; [exact H | discriminate].
  - assert (Hl : last_nonspace (String c r) = true).
    { destruct Hlast as [[H _] | H]; [discriminate | exact H]. }
    cbn [split_ws_go]. destruct (is_space c) eqn:Ec.
    + assert (Hr : last_nonspace r = true).
      { simpl in Hl. rewrite Ec in Hl. destruct r; [discriminate | exact Hl]. }
      destruct in_ws.
      * apply IH; auto.
      * constructor.
        -- destruct Hfirst as [H | [H | H]]; [exact H | discriminate|].
           simpl in H. rewrite Ec in H. discriminate.
        -- apply IH; auto.
    + apply IH.
      * left. destruct acc; discriminate.
      * destruct r as [|b r']; [left; split; [reflexivity | destruct acc; discriminate]|].
        right. exact Hl.
Qed.

(** The tokens of a trimmed string: none is empty, unless the string is
    empty and its only token is the empty one. *)
Lemma split_ws_trim_tokens s :
  (trim s = EmptyString /\ split_ws (trim s) = [EmptyString]) \/
  Forall (fun tok => tok <> EmptyString) (split_ws (trim s)).
Proof.
  destruct (trim_shape s) as [E | [Hf Hl]].
  - left. rewrite E. split; reflexivity.
  - right. apply split_ws_go_tokens_nonempty; auto.
Qed.

Lemma before_no_sep sep s : JsString.forallb (fun c => negb (Ascii.eqb c sep)) (before sep s) = true.
Proof.
  induction s as [|c r IH]; simpl; [reflexivity|].
  destruct (Ascii.eqb c sep) eqn:E; simpl; [reflexivity | now rewrite E, IH].
Qed.

Lemma before_prefix sep s : String.prefix (before sep s) s = true.
Proof.
  induction s as [|c r IH]; simpl; [reflexivity|].
  destruct (Ascii.eqb c sep); simpl; [reflexivity|].
  destruct (ascii_dec c c); [exact IH | contradiction].
Qed.

Lemma split_char_go_head sep s : forall acc,
  List.hd EmptyString (split_char_go sep acc s) = (acc ++ before sep s)%string.
Proof.
  induction s as [|c r IH]; intros acc; simpl.
  - now rewrite append_nil_r.
  - destruct (Ascii.eqb c sep); simpl; [now rewrite append_nil_r|].
    rewrite IH, append_assoc. reflexivity.
Qed.

Lemma split_char_nonempty sep s : split_char sep s <> [].
Proof.
  unfold split_char. generalize EmptyString.
  induction s as [|c r IH]; intros acc; simpl; [discriminate|].
  destruct (Ascii.eqb c sep); [discriminate | apply IH].
Qed.

End TokenFacts.

(** ** The command listener and the cases of the [switch] *)

Module CommandsMore.

Import JsString JsObject WAMessage Commands Cases.
Import JsMapFacts JsStringFacts TokenShape TokenFacts CommandsProps.

Local Open Scope Z_scope.

Lemma cooling_down_same (cd cd' : JsMap.t Z) sender now :
  JsMap.get cd sender = JsMap.get cd' sender ->
  cooling_down cd sender now = cooling_down cd' sender now.
Proof. intros H. unfold cooling_down, JsMap.has. now rewrite H. Qed.

(** X14.  The cooldown is kept per sender: what the listener does with a
    message depends on the cooldown map only through the entry of the
    message's sender, and handling the message leaves the entries of all
    other senders as they are. *)
Theorem cooldown_is_per_sender :
  forall (userConfig : JsObject.t) (now : Z) (msg : WAMessage.t) (k : key)
         (cd cd' : JsMap.t Z),
    mkey msg = Some k ->
    JsMap.get cd (remoteJid k) = JsMap.get cd' (remoteJid k) ->
    snd (commandHandler userConfig now (Some msg) cd)
    = snd (commandHandler userConfig now (Some msg) cd')
    /\ forall other,
         other <> remoteJid k ->
         JsMap.get (fst (commandHandler userConfig now (Some msg) cd)) other
         = JsMap.get cd other.
Proof.
  intros userConfig now msg k cd cd' Hk Hsame. split.
  - unfold commandHandler. rewrite Hk.
    destruct (message msg) as [body|]; [|reflexivity].
    destruct (String.eqb (remoteJid k) "status@broadcast"); [reflexivity|].
    destruct (negb (startsWith (extract_text body) (toString (prefix_of userConfig))));
      [reflexivity|].
    rewrite (cooling_down_same cd cd' _ now Hsame).
    destruct (cooling_down cd' (remoteJid k) now); [reflexivity|].
    destruct (split_ws _); reflexivity.
  - intros other Hother. apply commandHandler_keeps_cooldown. right.
    intros msg0 k0 [= <-] Hk0. rewrite Hk in Hk0. injection Hk0 as <-.
    intros E. now apply Hother.
Qed.

Lemma cooldown_is_per_sender_witness :
  let msg := chat_msg "94770000001@s.whatsapp.net" ".ping" in
  let others := [("94770000002@s.whatsapp.net"%string, 1700000000000)] in
  snd (commandHandler Config.defaultConfig 1700000000100 (Some msg) others)
  = snd (commandHandler Config.defaultConfig 1700000000100 (Some msg) JsMap.empty).
Proof.
  exact (proj1 (cooldown_is_per_sender Config.defaultConfig 1700000000100
                  (chat_msg "94770000001@s.whatsapp.net" ".ping")
                  (mkKey "94770000001@s.whatsapp.net" None)
                  [("94770000002@s.whatsapp.net"%string, 1700000000000)] JsMap.empty
                  eq_refl eq_refl)).
Defined.

Lemma set_keeps_keys {V} (m : JsMap.t V) k v k' :
  In k' (JsMap.keys m) -> In k' (JsMap.keys (JsMap.set m k v)).
Proof.
  induction m as [|[k0 v0] r IH]; simpl; [tauto|].
  destruct (String.eqb k0 k); simpl; [tauto|].
  intros [-> | H]; [now left | right; now apply IH].
Qed.

Lemma set_length {V} (m : JsMap.t V) k v :
  (List.length m <= List.length (JsMap.set m k v) <= S (List.length m))%nat.
Proof.
  induction m as [|[k0 v0] r IH]; simpl; [lia|].
  destruct (String.eqb k0 k); simpl; lia.
Qed.

(** X15.  The cooldown map only grows: over any sequence of events no entry
    is ever removed, no sender gets a second entry, and the map gains at
    most one entry per command dispatched. *)
Theorem cooldown_map_only_grows :
  forall (events : list event) (cd : JsMap.t Z),
    NoDup (JsMap.keys cd) ->
    let cd' := fst (run events cd) in
    NoDup (JsMap.keys cd') /\
    (forall sender, In sender (JsMap.keys cd) -> In sender (JsMap.keys cd')) /\
    (List.length cd <= List.length cd'
     <= List.length cd + List.length (List.filter is_dispatched (snd (run events cd))))%nat.
Proof.
  induction events as [|e r IH]; intros cd Hnd.
  - simpl. repeat split; auto; lia.
  - cbn [run].
    destruct (commandHandler_cases (ev_config e) (ev_now e) (ev_msg e) cd)
      as [(msg & k & c & a & _ & _ & _ & Hrun) | (Hfst & Hnot)].
    + rewrite Hrun.
      specialize (IH (JsMap.set cd (remoteJid k) (ev_now e))
                     (set_unique_keys _ _ _ Hnd)).
      destruct (run r (JsMap.set cd (remoteJid k) (ev_now e))) as [c2 rs].
      cbn [fst snd List.filter is_dispatched List.length] in *.
      destruct IH as (H1 & H2 & H3).
      pose proof (set_length cd (remoteJid k) (ev_now e)) as Hlen.
      repeat split; [exact H1 | | lia | lia].
      intros sender Hin. apply H2. now apply set_keeps_keys.
    + destruct (commandHandler (ev_config e) (ev_now e) (ev_msg e) cd) as [c1 r1].
      cbn [fst snd] in *. subst c1. specialize (IH cd Hnd).
      destruct (run r cd) as [c2 rs]. cbn [fst snd List.filter] in *.
      rewrite Hnot. exact IH.
Qed.

Lemma cooldown_map_only_grows_witness :
  let cd' := fst (run three_commands JsMap.empty) in
  NoDup (JsMap.keys cd') /\ (List.length cd' <= 1)%nat.
Proof.
  destruct (cooldown_map_only_grows three_commands JsMap.empty (NoDup_nil _))
    as (H1 & _ & _ & H3).
  split; [exact H1|]. exact H3.
Defined.

Lemma dispatched_tokens userConfig now m cd c a :
  snd (commandHandler userConfig now m cd) = Dispatched c a ->
  exists t part0, split_ws (trim t) = part0 :: a /\ c = toLowerCase part0.
Proof.
  unfold commandHandler.
  destruct m as [msg|]; [|discriminate].
  destruct (message msg) as [body|]; [|discriminate].
  destruct (mkey msg) as [k|]; [|discriminate].
  destruct (String.eqb (remoteJid k) "status@broadcast"); [discriminate|].
  destruct (negb (startsWith (extract_text body) (toString (prefix_of userConfig))));
    [discriminate|].
  destruct (cooling_down cd (remoteJid k) now); [discriminate|].
  destruct (split_ws (trim (slice (length_of (prefix_of userConfig)) (extract_text body))))
    as [|part0 args] eqn:Es; [discriminate|].
  cbn [snd]. intros [= <- <-].
  exists (slice (length_of (prefix_of userConfig)) (extract_text body)), part0.
  split; [exact Es | reflexivity].
Qed.

(** X16.  Whatever the message and the configuration, a command that reaches
    the [switch] is in lower case and holds no white space, no argument is
    empty or holds white space, and the command is empty only when there is
    no argument either. *)
Theorem dispatched_tokens_are_clean :
  forall (userConfig : JsObject.t) (now : Z) (m : option WAMessage.t)
         (cd : JsMap.t Z) (command : string) (args : list string),
    snd (commandHandler userConfig now m cd) = Dispatched command args ->
    toLowerCase command = command /\
    JsString.forallb not_space command = true /\
    Forall (fun a => a <> EmptyString /\ JsString.forallb not_space a = true) args /\
    (command = EmptyString -> args = []).
Proof.
  intros userConfig now m cd command args H.
  destruct (dispatched_tokens _ _ _ _ _ _ H) as (t & part0 & Hs & ->).
  destruct (split_ws_tokens (trim t)) as (_ & Hns & _).
  rewrite Hs in Hns. apply Forall_cons_iff in Hns. destruct Hns as [Hp0 Hargs].
  split; [apply toLowerCase_idempotent|].
  split; [now rewrite toLowerCase_no_space|].
  destruct (split_ws_trim_tokens t) as [[_ E] | Hne].
  - rewrite Hs in E. injection E as -> ->. split; [constructor | reflexivity].
  - rewrite Hs in Hne. apply Forall_cons_iff in Hne. destruct Hne as [Hp Ha].
    split.
    + rewrite Forall_forall in *. intros x Hx. split; [now apply Ha | now apply Hargs].
    + intros E. apply toLowerCase_empty in E. contradiction.
Qed.

Lemma dispatched_tokens_are_clean_witness :
  toLowerCase "config" = "config"%string /\
  Forall (fun a => a <> EmptyString /\ JsString.forallb not_space a = true)
         ["set"; "foo"; "bar"]%string.
Proof.
  destruct (dispatched_tokens_are_clean Config.defaultConfig 1700000000000
              (Some (chat_msg "94770000001@s.whatsapp.net" "  .Config  set foo  bar "))
              JsMap.empty "config" ["set"; "foo"; "bar"]%string eq_refl)
    as (H1 & _ & H3 & _).
  split; assumption.
Defined.

(** X17.  When the start time is not after the clock, the hours, minutes
    and seconds shown make up the whole seconds elapsed: minutes and
    seconds lie between 0 and 59, nothing is negative, and the part of a
    second left over is dropped. *)
Theorem uptime_parts_add_up :
  forall startTime now : Z,
    startTime <= now ->
    let uptime := uptime_seconds startTime now in
    let '(hours, minutes, seconds) := uptime_parts uptime in
    hours * 3600 + minutes * 60 + seconds = uptime /\
    0 <= hours /\ 0 <= minutes < 60 /\ 0 <= seconds < 60 /\
    1000 * uptime <= now - startTime < 1000 * uptime + 1000.
Proof.
  intros startTime now Hle. unfold uptime_seconds, uptime_parts. cbv zeta.
  set (u := (now - startTime) / 1000).
  assert (Hu : 0 <= u) by (unfold u; apply Z.div_pos; lia).
  rewrite !Z.rem_mod_nonneg by lia.
  assert (Hd : 1000 * u <= now - startTime < 1000 * u + 1000).
  { unfold u. pose proof (Z.div_mod (now - startTime) 1000 ltac:(lia)).
    pose proof (Z.mod_pos_bound (now - startTime) 1000 ltac:(lia)). lia. }
  pose proof (Z.div_mod u 3600 ltac:(lia)) as D1.
  pose proof (Z.mod_pos_bound u 3600 ltac:(lia)) as B1.
  pose proof (Z.div_mod (u mod 3600) 60 ltac:(lia)) as D2.
  pose proof (Z.mod_pos_bound (u mod 3600) 60 ltac:(lia)) as B2.
  pose proof (Z.div_mod u 60 ltac:(lia)) as D3.
  pose proof (Z.mod_pos_bound u 60 ltac:(lia)) as B3.
  assert (Hs : u mod 60 = (u mod 3600) mod 60).
  { apply (Z.mod_unique _ _ (u / 60 - 60 * (u / 3600))); [left; exact B3|]. lia. }
  assert (Hh : 0 <= u / 3600) by (apply Z.div_pos; lia).
  assert (Hm : 0 <= u mod 3600 / 60 < 60).
  { split; [apply Z.div_pos; lia|]. apply Z.div_lt_upper_bound; lia. }
  repeat split; try lia.
Qed.

Lemma uptime_parts_add_up_witness :
  1700000000000 <= 1700003725999 /\
  let uptime := uptime_seconds 1700000000000 1700003725999 in
  let '(hours, minutes, seconds) := uptime_parts uptime in
  hours * 3600 + minutes * 60 + seconds = uptime /\
  0 <= hours /\ 0 <= minutes < 60 /\ 0 <= seconds < 60 /\
  1000 * uptime <= 1700003725999 - 1700000000000 < 1000 * uptime + 1000.
Proof.
  split; [lia|].
  exact (uptime_parts_add_up 1700000000000 1700003725999 ltac:(lia)).
Defined.

(** X18.  [config] never touches a key other than the one named in
    [config set]: all other keys keep their values, and [config view] and a
    malformed [config] command leave the whole object as it is. *)
Theorem config_changes_one_key :
  forall (updateUserConfig : bool) (prefix : value) (sender : string)
         (args : list string) (userConfig : JsObject.t) (other : string),
    let userConfig' :=
      fst (fst (config_case updateUserConfig prefix sender args userConfig)) in
    (other <> toUpperCase (nth 1 args EmptyString) ->
     JsObject.get userConfig' other = JsObject.get userConfig other) /\
    (arg0_is args "set" && (3 <=? List.length args)%nat = false ->
     userConfig' = userConfig).
Proof.
  intros updateUserConfig prefix sender args userConfig other. cbv zeta.
  unfold config_case.
  destruct (arg0_is args "set" && (3 <=? List.length args)%nat).
  - split; [|discriminate]. intros Hother.
    destruct (String.eqb (toUpperCase (nth 1 args EmptyString)) "AUTO_LIKE_EMOJI");
      destruct updateUserConfig; cbn [fst]; apply get_set_other; exact Hother.
  - destruct (arg0_is args "view"); split; reflexivity.
Qed.

Lemma config_changes_one_key_witness :
  JsObject.get
    (fst (fst (config_case true (VStr ".") "94770000001@s.whatsapp.net"
                 ["set"; "prefix"; "!"]%string Config.defaultConfig)))
    "MAX_RETRIES"
  = Some (VNum 3).
Proof.
  rewrite (proj1 (config_changes_one_key true (VStr ".") "94770000001@s.whatsapp.net"
                    ["set"; "prefix"; "!"]%string Config.defaultConfig "MAX_RETRIES"))
    by discriminate.
  reflexivity.
Defined.

(** X19.  [config set prefix P] takes effect for the very next message: with
    the object it leaves, a chat message whose text does not start with [P]
    is dropped, and one whose text starts with [P], from a sender that is
    not cooling down, reaches the [switch]. *)
Theorem config_set_prefix_takes_effect :
  forall (updateUserConfig : bool) (prefix : value) (sender key p : string)
         (userConfig : JsObject.t) (now : Z) (msg : WAMessage.t) (k : WAMessage.key)
         (body : content) (cd : JsMap.t Z),
    toUpperCase key = "PREFIX"%string ->
    p <> EmptyString ->
    mkey msg = Some k ->
    message msg = Some body ->
    remoteJid k <> "status@broadcast"%string ->
    let userConfig' :=
      fst (fst (config_case updateUserConfig prefix sender
                  ["set"%string; key; p] userConfig)) in
    prefix_of userConfig' = VStr p /\
    (startsWith (extract_text body) p = false ->
     commandHandler userConfig' now (Some msg) cd = (cd, Dropped)) /\
    (startsWith (extract_text body) p = true ->
     cooling_down cd (remoteJid k) now = false ->
     is_dispatched (snd (commandHandler userConfig' now (Some msg) cd)) = true).
Proof.
  intros updateUserConfig prefix sender key p userConfig now msg k body cd
         Hkey Hp Hk Hbody Hjid userConfig'.
  assert (Hprefix : prefix_of userConfig' = VStr p).
  { unfold userConfig'. rewrite config_case_set, Hkey. cbn [String.eqb Ascii.eqb Bool.eqb join].
    unfold prefix_of, JsObject.get, JsObject.set. rewrite get_set_same.
    cbn [JsObject.truthy]. destruct p; [contradiction | reflexivity]. }
  split; [exact Hprefix|].
  apply String.eqb_neq in Hjid.
  unfold commandHandler. rewrite Hbody, Hk, Hprefix, Hjid. cbn [toString length_of].
  split.
  - intros Hs. now rewrite Hs.
  - intros Hs Hc. rewrite Hs, Hc. cbn [negb].
    destruct (split_ws (trim (slice (String.length p) (extract_text body)))) eqn:Es;
      [|reflexivity].
    exfalso. revert Es. apply split_ws_go_nonempty.
Qed.

Lemma config_set_prefix_takes_effect_witness :
  let cfg := fst (fst (config_case true (VStr ".") "94770000001@s.whatsapp.net"
                         ["set"; "prefix"; "!"]%string Config.defaultConfig)) in
  commandHandler cfg 1700000000000
    (Some (chat_msg "94770000001@s.whatsapp.net" ".ping")) JsMap.empty
  = (JsMap.empty, Dropped).
Proof.
  exact (proj1 (proj2 (config_set_prefix_takes_effect true (VStr ".")
                         "94770000001@s.whatsapp.net" "prefix" "!" Config.defaultConfig
                         1700000000000 (chat_msg "94770000001@s.whatsapp.net" ".ping")
                         (mkKey "94770000001@s.whatsapp.net" None)
                         (mkContent (Some ".ping"%string) None None None None) JsMap.empty
                         eq_refl ltac:(discriminate) eq_refl eq_refl
                         ltac:(discriminate))) eq_refl).
Defined.

(** X20.  [config set auto_like_status V] with [V] other than [true] stops
    the reactions at once: with the object it leaves, a status event is not
    reacted to and does not start the ten-second cooldown. *)
Theorem config_can_stop_reactions :
  forall (updateUserConfig : bool) (prefix : value) (sender key value1 : string)
         (more : list string) (userConfig : JsObject.t) (rnd : nat) (now : Z)
         (m : option WAMessage.t) (last : Z) (w : list bool),
    toUpperCase key = "AUTO_LIKE_STATUS"%string ->
    join " " (value1 :: more) <> "true"%string ->
    let userConfig' :=
      fst (fst (config_case updateUserConfig prefix sender
                  ("set"%string :: key :: value1 :: more) userConfig)) in
    let res := Status.statusHandler userConfig' rnd now m last w in
    Status.react_outcomes (snd res) = [] /\ fst (fst res) = last.
Proof.
  intros updateUserConfig prefix sender key value1 more userConfig rnd now m last w
         Hkey Hvalue userConfig' res.
  assert (Hlike : is_string (JsObject.get userConfig' "AUTO_LIKE_STATUS") "true" = false).
  { unfold userConfig'. rewrite config_case_set, Hkey.
    cbn [String.eqb Ascii.eqb Bool.eqb].
    unfold JsObject.get, JsObject.set. rewrite get_set_same. cbn [is_string].
    now apply String.eqb_neq. }
  destruct (StatusMore.statusHandler_flow userConfig' rnd now m last w)
    as (Hlast & _ & _ & Hnone & _).
  fold res in Hlast, Hnone. specialize (Hnone Hlike).
  rewrite Hnone in Hlast. split; assumption.
Qed.

Lemma config_can_stop_reactions_witness :
  let cfg := fst (fst (config_case true (VStr ".") "94770000001@s.whatsapp.net"
                         ["set"; "auto_like_status"; "false"]%string
                         Config.defaultConfig)) in
  Status.react_outcomes
    (snd (Status.statusHandler cfg 0 1700000000000 (Some Status.status_msg) 0 [])) = [].
Proof.
  exact (proj1 (config_can_stop_reactions true (VStr ".") "94770000001@s.whatsapp.net"
                  "auto_like_status" "false" [] Config.defaultConfig 0 1700000000000
                  (Some Status.status_msg) 0 [] eq_refl ltac:(discriminate))).
Defined.

(** X21.  After [config set auto_like_emoji V], the emoji of a reaction is
    always one of the pieces of [V] between its commas. *)
Theorem reaction_emoji_from_configured_list :
  forall (updateUserConfig : bool) (prefix : value) (sender key value1 : string)
         (more : list string) (userConfig : JsObject.t) (rnd : nat),
    toUpperCase key = "AUTO_LIKE_EMOJI"%string ->
    let userConfig' :=
      fst (fst (config_case updateUserConfig prefix sender
                  ("set"%string :: key :: value1 :: more) userConfig)) in
    exists emoji,
      Status.pick_emoji userConfig' rnd = Some emoji /\
      In emoji (split_char ","%char (join " " (value1 :: more))).
Proof.
  intros updateUserConfig prefix sender key value1 more userConfig rnd Hkey userConfig'.
  unfold Status.pick_emoji, userConfig'. rewrite config_case_set, Hkey.
  cbn [String.eqb Ascii.eqb Bool.eqb].
  unfold JsObject.get, JsObject.set. rewrite get_set_same.
  set (l := split_char ","%char (join " " (value1 :: more))).
  assert (Hl : l <> []) by apply split_char_nonempty.
  assert (Hlt : (rnd mod List.length l < List.length l)%nat).
  { apply Nat.mod_upper_bound. destruct l; [contradiction | discriminate]. }
  destruct (nth_error l (rnd mod List.length l)) as [e|] eqn:E.
  - exists e. split; [reflexivity|]. eapply nth_error_In. exact E.
  - apply nth_error_None in E. lia.
Qed.

Lemma reaction_emoji_from_configured_list_witness :
  let cfg := fst (fst (config_case true (VStr ".") "94770000001@s.whatsapp.net"
                         ["set"; "auto_like_emoji"; "a,b,c"]%string
                         Config.defaultConfig)) in
  exists emoji,
    Status.pick_emoji cfg 7 = Some emoji /\ In emoji ["a"; "b"; "c"]%string.
Proof.
  exact (reaction_emoji_from_configured_list true (VStr ".")
           "94770000001@s.whatsapp.net" "auto_like_emoji" "a,b,c" []
           Config.defaultConfig 7 eq_refl).
Defined.

Lemma user_of_before p : user_of p = before "@"%char p.
Proof. unfold user_of, split_char. now rewrite split_char_go_head. Qed.

(** X22.  Outside a group [tagall] answers with one plain message and asks
    for no metadata; in a group it mentions every participant, in the order
    of the metadata, and the tag written for a participant is the start of
    its id up to the first [@], which holds no [@] itself. *)
Theorem tagall_mentions_every_participant :
  forall (sender : string) (groupMetadata : option (list string))
         (participants : list string),
    (endsWith sender "@g.us" = false ->
     tagall_case sender groupMetadata
     = ([Plain sender "❌ This command can only be used in groups."], None)) /\
    (endsWith sender "@g.us" = true ->
     tagall_case sender (Some participants)
     = ([Mentioning sender
           ("📢 *Tagging all members:*" ++ Commands.nl ++ Commands.nl
            ++ join " " (List.map (fun p => ("@" ++ user_of p)%string) participants))
           participants], None)) /\
    Forall (fun p =>
              String.prefix (user_of p) p = true /\
              JsString.forallb (fun c => negb (Ascii.eqb c "@"%char)) (user_of p) = true)
           participants.
Proof.
  intros sender groupMetadata participants. unfold tagall_case.
  split; [intros ->; reflexivity|]. split; [intros ->; reflexivity|].
  apply Forall_forall. intros p _. rewrite user_of_before.
  split; [apply before_prefix | apply before_no_sep].
Qed.

Lemma tagall_mentions_every_participant_witness :
  tagall_case "94770000001@s.whatsapp.net" None
  = ([Plain "94770000001@s.whatsapp.net" "❌ This command can only be used in groups."],
     None).
Proof.
  exact (proj1 (tagall_mentions_every_participant "94770000001@s.whatsapp.net" None [])
           eq_refl).
Defined.

(** X23.  [fb] goes on to the download only with a first argument that
    contains [facebook.com] or [fb.watch], after one message to the sender;
    and in a scope without a binding for [config], [fb] without argument
    raises a reference error instead of sending the usage text. *)
Theorem fb_goes_on_only_with_a_facebook_url :
  forall (scope : list string) (config_prefix sender : string) (args : list string),
    (forall sent fbUrl,
       fb_guard scope config_prefix sender args = Download sent fbUrl ->
       List.hd_error args = Some fbUrl /\
       (includes fbUrl "facebook.com" = true \/ includes fbUrl "fb.watch" = true) /\
       List.length sent = 1%nat) /\
    (resolve scope "config" <> None ->
     exists e, fb_guard scope config_prefix sender [] = Stop [] (Some e)).
Proof.
  intros scope config_prefix sender args. split.
  - intros sent fbUrl. unfold fb_guard.
    destruct args as [|url rest].
    + destruct (first_unresolved scope _); discriminate.
    + destruct (includes url "facebook.com") eqn:E1;
        destruct (includes url "fb.watch") eqn:E2; cbn [negb andb];
        try discriminate; intros [= <- <-]; repeat split; auto.
  - intros Hconfig. unfold fb_guard.
    assert (H : first_unresolved scope ["socket"; "sender"; "config"]%string <> None).
    { apply (first_unresolved_in scope _ "config"); [|exact Hconfig].
      simpl. auto. }
    destruct (first_unresolved scope ["socket"; "sender"; "config"]%string) as [e|];
      [now exists e | contradiction].
Qed.

Lemma fb_goes_on_only_with_a_facebook_url_witness :
  exists e, fb_guard menu_scope "." "94770000001@s.whatsapp.net" [] = Stop [] (Some e).
Proof.
  exact (proj2 (fb_goes_on_only_with_a_facebook_url menu_scope "."
                  "94770000001@s.whatsapp.net" [])
           ltac:(vm_compute; discriminate)).
Defined.

End CommandsMore.

(** ** The configuration round trip, from the chat message to the listing *)

Module ConfigRoundTrip.

Import JsString JsObject WAMessage Commands Cases.
Import JsMapFacts JsStringFacts TokenShape TokenFacts CommandsProps ConfigWords.

Local Open Scope Z_scope.

Lemma upper_capital c : upper c = capital c.
Proof. destruct c as [[] [] [] [] [] [] [] []]; reflexivity. Qed.

Lemma toUpperCase_upper_cased s : toUpperCase s = upper_cased s.
Proof.
  unfold toUpperCase. induction s as [|c r IH]; simpl; [reflexivity|].
  now rewrite upper_capital, IH.
Qed.

Lemma join_concat sep l : join sep l = String.concat sep l.
Proof.
  induction l as [|x r IH]; [reflexivity|].
  destruct r as [|y r]; [reflexivity|].
  cbn [join String.concat] in *. now rewrite IH.
Qed.

Lemma concat_sep_cons sep x l :
  l <> [] -> String.concat sep (x :: l) = (x ++ sep ++ String.concat sep l)%string.
Proof. destruct l; [contradiction | reflexivity]. Qed.

Lemma list_of_append (a b : string) :
  list_ascii_of_string (a ++ b) = list_ascii_of_string a ++ list_ascii_of_string b.
Proof. induction a as [|c r IH]; simpl; [reflexivity | now rewrite IH]. Qed.

(** [s.split(sep)]: the pieces put together again with [sep] between them
    are [s], and no piece holds a [sep]. *)
Lemma split_char_go_pieces sep s : forall acc,
  ~ In sep (list_ascii_of_string acc) ->
  split_char_go sep acc s <> [] /\
  String.concat (String sep EmptyString) (split_char_go sep acc s) = (acc ++ s)%string /\
  Forall (fun piece => ~ In sep (list_ascii_of_string piece)) (split_char_go sep acc s).
Proof.
  induction s as [|c r IH]; intros acc Hacc.
  - simpl. split; [discriminate|]. split; [now rewrite append_nil_r|].
    now constructor.
  - cbn [split_char_go]. destruct (Ascii.eqb c sep) eqn:E.
    + apply Ascii.eqb_eq in E. subst c.
      destruct (IH EmptyString ltac:(intros [])) as (Hne & Hcat & Hall).
      split; [discriminate|]. split; [|now constructor].
      rewrite concat_sep_cons by exact Hne. rewrite Hcat. reflexivity.
    + apply Ascii.eqb_neq in E.
      destruct (IH (acc ++ String c EmptyString)%string) as (Hne & Hcat & Hall).
      { rewrite list_of_append. intros Hin. apply in_app_or in Hin.
        destruct Hin as [Hin | [Hin | []]]; [now apply Hacc | now apply E]. }
      split; [exact Hne|]. split; [|exact Hall].
      rewrite Hcat, append_assoc. reflexivity.
Qed.

Lemma is_word_inv t :
  is_word t = true ->
  exists c r, t = String c r /\ is_space c = false /\ JsString.forallb not_space r = true.
Proof.
  unfold is_word. destruct t as [|c r]; [discriminate|].
  cbn [String.eqb negb andb JsString.forallb]. intros H.
  apply andb_prop in H. destruct H as [Hc Hr].
  exists c, r. split; [reflexivity|]. split; [|exact Hr].
  unfold not_space in Hc. now destruct (is_space c).
Qed.

Lemma no_space_last c r :
  is_space c = false -> JsString.forallb not_space r = true ->
  last_nonspace (String c r) = true.
Proof.
  revert c. induction r as [|d r IH]; intros c Hc Hr.
  - simpl. now rewrite Hc.
  - change (last_nonspace (String c (String d r))) with (last_nonspace (String d r)).
    cbn [JsString.forallb] in Hr. apply andb_prop in Hr. destruct Hr as [Hd Hr].
    apply IH; [|exact Hr]. unfold not_space in Hd. now destruct (is_space d).
Qed.

Lemma word_last_nonspace t : is_word t = true -> last_nonspace t = true.
Proof.
  intros H. destruct (is_word_inv t H) as (c & r & -> & Hc & Hr).
  now apply no_space_last.
Qed.

Lemma last_nonspace_append (a b : string) :
  last_nonspace b = true -> last_nonspace (a ++ b) = true.
Proof.
  intros Hb. induction a as [|c r IH]; [exact Hb|].
  cbn [append]. cbn [last_nonspace].
  destruct (r ++ b)%string; [discriminate IH | exact IH].
Qed.

Lemma concat_words_last ws : forall w,
  Forall (fun t => is_word t = true) (w :: ws) ->
  last_nonspace (String.concat " " (w :: ws)) = true.
Proof.
  induction ws as [|y r IH]; intros w H.
  - apply word_last_nonspace. now inversion H.
  - rewrite concat_sep_cons by discriminate.
    apply last_nonspace_append.
    pose proof (IH y ltac:(now inversion H)) as Hy.
    cbn [append]. cbn [last_nonspace].
    destruct (String.concat " " (y :: r)); [discriminate Hy | exact Hy].
Qed.

Lemma first_nonspace_inv s :
  first_nonspace s = true -> exists c r, s = String c r /\ is_space c = false.
Proof.
  destruct s as [|c r]; [discriminate|]. simpl. intros H.
  exists c, r. split; [reflexivity|]. now destruct (is_space c).
Qed.

Lemma last_nonspace_inv s :
  last_nonspace s = true ->
  exists r c, list_ascii_of_string s = r ++ [c] /\ is_space c = false.
Proof.
  induction s as [|a s IH]; [discriminate|].
  destruct s as [|b s'].
  - simpl. intros H. exists [], a. split; [reflexivity|]. now destruct (is_space a).
  - intros H. change (last_nonspace (String b s') = true) in H.
    destruct (IH H) as (r & c & Hr & Hc).
    exists (a :: r), c. split; [|exact Hc].
    change (list_ascii_of_string (String a (String b s')))
      with (a :: list_ascii_of_string (String b s')).
    now rewrite Hr.
Qed.

(** [trim] leaves alone a string that starts and ends with a character
    that is not white space. *)
Lemma trim_clean s :
  first_nonspace s = true -> last_nonspace s = true -> trim s = s.
Proof.
  intros Hf Hl.
  rewrite <- (string_of_list_ascii_of_string (trim s)), list_of_trim.
  rewrite <- (string_of_list_ascii_of_string s) at 2. f_equal.
  destruct (first_nonspace_inv s Hf) as (c & r & -> & Hc).
  destruct (last_nonspace_inv _ Hl) as (r' & c' & Hr & Hc').
  assert (H1 : dropws (list_ascii_of_string (String c r)) = list_ascii_of_string (String c r)).
  { simpl. now rewrite Hc. }
  rewrite H1, Hr, rev_app_distr. cbn [List.rev List.app dropws]. rewrite Hc'.
  replace (c' :: List.rev r') with (List.rev (r' ++ [c']))
    by now rewrite rev_app_distr.
  apply rev_involutive.
Qed.

Lemma prefix_append (p s : string) : String.prefix p (p ++ s) = true.
Proof.
  induction p as [|c r IH]; simpl; [now destruct s|].
  destruct (ascii_dec c c); [exact IH | contradiction].
Qed.

Lemma slice_append (p s : string) : slice (String.length p) (p ++ s) = s.
Proof. induction p as [|c r IH]; simpl; [now destruct s | exact IH]. Qed.

Lemma split_ws_go_word t : forall in_ws acc s,
  t <> EmptyString -> JsString.forallb not_space t = true ->
  split_ws_go in_ws acc (t ++ s) = split_ws_go false (acc ++ t) s.
Proof.
  induction t as [|c r IH]; intros in_ws acc s Hne Ht; [contradiction|].
  cbn [JsString.forallb] in Ht. apply andb_prop in Ht. destruct Ht as [Hc Hr].
  assert (Ec : is_space c = false) by (unfold not_space in Hc; now destruct (is_space c)).
  cbn [append split_ws_go]. rewrite Ec.
  destruct r as [|d r'].
  - reflexivity.
  - rewrite IH by (discriminate || exact Hr).
    now rewrite append_assoc.
Qed.

(** Words typed with single blanks between them are the tokens of
    [split(/\s+/)]. *)
Lemma split_ws_go_words ws : forall w in_ws acc,
  Forall (fun t => is_word t = true) (w :: ws) ->
  split_ws_go in_ws acc (String.concat " " (w :: ws)) = (acc ++ w)%string :: ws.
Proof.
  induction ws as [|y r IH]; intros w in_ws acc H.
  - assert (Hw : is_word w = true) by now inversion H.
    unfold is_word in Hw. apply andb_prop in Hw. destruct Hw as [Hne Hns].
    cbn [String.concat]. rewrite <- (append_nil_r w) at 1.
    rewrite split_ws_go_word; [reflexivity| |exact Hns].
    intros ->. discriminate.
  - assert (Hw : is_word w = true) by now inversion H.
    unfold is_word in Hw. apply andb_prop in Hw. destruct Hw as [Hne Hns].
    rewrite concat_sep_cons by discriminate.
    rewrite split_ws_go_word; [| intros ->; discriminate | exact Hns].
    cbn [append split_ws_go]. change (is_space " ") with true. cbv iota.
    f_equal. rewrite IH by now inversion H. reflexivity.
Qed.

(** A message made of the prefix and of words typed with single blanks
    reaches the [switch] with these words, the first one in lower case. *)
Lemma dispatch_words userConfig now sender p cd w ws :
  prefix_of userConfig = VStr p ->
  first_nonspace p = true ->
  Forall (fun t => is_word t = true) (w :: ws) ->
  sender <> "status@broadcast"%string ->
  cooling_down cd sender now = false ->
  commandHandler userConfig now
    (Some (chat_msg sender (p ++ String.concat " " (w :: ws)))) cd
  = (JsMap.set cd sender now, Dispatched (toLowerCase w) ws).
Proof.
  intros Hp Hf Hw Hs Hcd.
  set (body := String.concat " " (w :: ws)).
  assert (Hbl : last_nonspace body = true) by now apply concat_words_last.
  assert (Hbf : first_nonspace body = true).
  { unfold body. assert (H : is_word w = true) by now inversion Hw.
    destruct (is_word_inv w H) as (c & r & -> & Hc & _).
    destruct ws; simpl; now rewrite Hc. }
  destruct (first_nonspace_inv p Hf) as (c & r & Ep & Hc).
  assert (Htext : extract_text (mkContent (Some (p ++ body)%string) None None None None)
                  = (p ++ body)%string).
  { unfold extract_text. cbn [conversation str].
    replace (JsString.truthy (Some (p ++ body)%string)) with true
      by (rewrite Ep; reflexivity).
    apply trim_clean.
    - rewrite Ep. simpl. now rewrite Hc.
    - now apply last_nonspace_append. }
  unfold commandHandler, chat_msg. cbn [message mkey remoteJid].
  apply String.eqb_neq in Hs. rewrite Hs, Htext, Hp.
  cbn [toString length_of]. unfold startsWith. rewrite prefix_append.
  cbn [negb]. rewrite Hcd, slice_append, (trim_clean body Hbf Hbl).
  unfold split_ws, body. rewrite split_ws_go_words by exact Hw.
  reflexivity.
Qed.

(** C9 as stated fails for a value typed with two blanks between its
    words: [.config set FOO a  b] reaches [case 'config'] with the tokens
    [a] and [b], the object holds [a b], and [config view] shows
    [FOO: a b].  With one blank the value is shown as typed. *)
Lemma config_value_not_shown_as_typed :
  shows_value Config.defaultConfig 1700000000000 "94770000001@s.whatsapp.net"
    "FOO" "a  b" = false /\
  match view_after Config.defaultConfig true 1700000000000 "94770000001@s.whatsapp.net"
          ".config set FOO a  b" with
  | Some t => includes t ("• FOO: a b" ++ Commands.nl) = true
  | None => False
  end /\
  shows_value Config.defaultConfig 1700000000000 "94770000001@s.whatsapp.net"
    "FOO" "a b" = true.
Proof.
  split; [vm_compute; reflexivity|]. split; vm_compute; reflexivity.
Qed.

(** C9, amended.  Let the key and the words of the value be typed without
    white space other than one blank between two words, after a prefix
    that starts with a character that is not white space, by a sender who
    is not cooling down.  Then the message [<prefix>config set KEY VALUE]
    reaches [case 'config'] with the tokens [set], the key and the words of
    the value; after it, whether or not the configuration could be saved,
    the object holds the value as typed under the upper-cased key, and
    [config view] sends a text with the line [KEY: VALUE].  The message
    [<prefix>config view] reaches [case 'config'] with the token [view]
    when it is typed after the prefix then configured and the sender is
    not cooling down.  For [AUTO_LIKE_EMOJI] the object holds the list of
    the pieces of the value between its commas, in order, and the line
    shows these pieces separated by a comma and a blank. *)
Theorem config_message_round_trip :
  forall (userConfig : JsObject.t) (updateUserConfig : bool) (now : Z)
         (sender p key value1 : string) (more : list string) (cd : JsMap.t Z),
    prefix_of userConfig = VStr p ->
    first_nonspace p = true ->
    Forall (fun t => is_word t = true) (key :: value1 :: more) ->
    sender <> "status@broadcast"%string ->
    cooling_down cd sender now = false ->
    let VALUE := String.concat " " (value1 :: more) in
    let KEY := upper_cased key in
    let args := "set"%string :: key :: value1 :: more in
    let userConfig' :=
      fst (fst (config_case updateUserConfig (VStr p) sender args userConfig)) in
    let view :=
      config_case updateUserConfig (prefix_of userConfig') sender ["view"%string]
        userConfig' in
    commandHandler userConfig now
      (Some (chat_msg sender (p ++ "config set " ++ key ++ " " ++ VALUE))) cd
    = (JsMap.set cd sender now, Dispatched "config" args) /\
    (forall (p' : string) (now' : Z) (cd' : JsMap.t Z),
       prefix_of userConfig' = VStr p' ->
       first_nonspace p' = true ->
       cooling_down cd' sender now' = false ->
       commandHandler userConfig' now' (Some (chat_msg sender (p' ++ "config view"))) cd'
       = (JsMap.set cd' sender now', Dispatched "config" ["view"%string])) /\
    (KEY <> "AUTO_LIKE_EMOJI"%string ->
     JsObject.get userConfig' KEY = Some (VStr VALUE) /\
     exists before after,
       view = (userConfig',
               [TextMessage sender
                  (before ++ "• " ++ KEY ++ ": " ++ VALUE ++ Commands.nl ++ after)%string],
               None)) /\
    (KEY = "AUTO_LIKE_EMOJI"%string ->
     exists pieces,
       pieces <> [] /\
       String.concat "," pieces = VALUE /\
       Forall (fun piece => ~ In ","%char (list_ascii_of_string piece)) pieces /\
       JsObject.get userConfig' KEY = Some (VArr pieces) /\
       exists before after,
         view = (userConfig',
                 [TextMessage sender
                    (before ++ "• AUTO_LIKE_EMOJI: " ++ String.concat ", " pieces
                     ++ Commands.nl ++ after)%string],
                 None)).
Proof.
  intros userConfig updateUserConfig now sender p key value1 more cd
    Hp Hf Hwords Hs Hcd VALUE KEY args userConfig' view.
  destruct (config_set_then_view updateUserConfig (VStr p) sender key value1 more
              userConfig) as [Hget (before & after & Hview)].
  rewrite !toUpperCase_upper_cased, !join_concat in Hget.
  rewrite !toUpperCase_upper_cased, !join_concat in Hview.
  fold args in Hget, Hview. fold userConfig' in Hget, Hview.
  fold VALUE in Hget, Hview. fold KEY in Hget, Hview.
  assert (Hv : view = config_case updateUserConfig (VStr p) sender ["view"%string]
                        userConfig') by reflexivity.
  split; [|split; [|split]].
  - change (p ++ "config set " ++ key ++ " " ++ VALUE)%string
      with (p ++ String.concat " " ("config"%string :: args))%string.
    apply (dispatch_words userConfig now sender p cd "config" args Hp Hf);
      [|exact Hs | exact Hcd].
    constructor; [reflexivity|]. constructor; [reflexivity|]. exact Hwords.
  - intros p' now' cd' Hp' Hf' Hcd'.
    change (p' ++ "config view")%string
      with (p' ++ String.concat " " ["config"%string; "view"%string])%string.
    apply (dispatch_words userConfig' now' sender p' cd' "config" ["view"%string]
             Hp' Hf'); [|exact Hs | exact Hcd'].
    repeat constructor.
  - intros Hkey. apply String.eqb_neq in Hkey. rewrite Hkey in Hget, Hview.
    split; [exact Hget|]. exists before, after. rewrite Hv. exact Hview.
  - intros Hkey. rewrite Hkey in Hget, Hview.
    change (String.eqb "AUTO_LIKE_EMOJI" "AUTO_LIKE_EMOJI") with true in Hget, Hview.
    cbv iota in Hget, Hview.
    destruct (split_char_go_pieces ","%char VALUE EmptyString ltac:(intros []))
      as (Hne & Hcat & Hall).
    exists (split_char ","%char VALUE).
    split; [exact Hne|]. split; [exact Hcat|]. split; [exact Hall|].
    rewrite Hkey. split; [exact Hget|]. exists before, after.
    rewrite Hv. exact Hview.
Qed.

Lemma config_message_round_trip_witness :
  commandHandler Config.defaultConfig 1700000000000
    (Some (chat_msg "94770000001@s.whatsapp.net" ".config set foo bar")) JsMap.empty
  = (JsMap.set JsMap.empty "94770000001@s.whatsapp.net" 1700000000000,
     Dispatched "config" ["set"; "foo"; "bar"]%string) /\
  exists before after,
    snd (fst (config_case false (VStr ".") "94770000001@s.whatsapp.net" ["view"%string]
                (fst (fst (config_case false (VStr ".") "94770000001@s.whatsapp.net"
                             ["set"; "foo"; "bar"]%string Config.defaultConfig)))))
    = [TextMessage "94770000001@s.whatsapp.net"
         (before ++ "• FOO: bar" ++ Commands.nl ++ after)%string].
Proof.
  destruct (config_message_round_trip Config.defaultConfig false 1700000000000
              "94770000001@s.whatsapp.net" "." "foo" "bar" [] JsMap.empty
              eq_refl eq_refl
              ltac:(repeat constructor)
              ltac:(discriminate)
              eq_refl) as (Hd & _ & Hshow & _).
  split; [exact Hd|].
  destruct (Hshow ltac:(discriminate)) as (_ & before & after & Hview).
  exists before, after.
  change (config_case false (VStr ".") "94770000001@s.whatsapp.net" ["view"%string]
            (fst (fst (config_case false (VStr ".") "94770000001@s.whatsapp.net"
                         ["set"; "foo"; "bar"]%string Config.defaultConfig))))
    with (config_case false
            (prefix_of (fst (fst (config_case false (VStr ".")
                                    "94770000001@s.whatsapp.net"
                                    ["set"; "foo"; "bar"]%string Config.defaultConfig))))
            "94770000001@s.whatsapp.net" ["view"%string]
            (fst (fst (config_case false (VStr ".") "94770000001@s.whatsapp.net"
                         ["set"; "foo"; "bar"]%string Config.defaultConfig)))).
  cbv zeta in Hview. rewrite Hview. reflexivity.
Defined.

End ConfigRoundTrip.
